(** * arrayshow: the dimension-role engine of [NDArrayViewer]

    A shallow embedding of the role bookkeeping and of the slice / mosaic
    extraction of [src/arrayshow/viewer.py].  Python integers are [Z], the
    list of per-dimension dictionaries [self.dims] is a [list Dim] updated
    by position, exceptions are carried by a small [result] monad, and an
    n-dimensional numpy array is a dtype, a shape and an element accessor.

    The role operations are the methods of the same name restricted to the
    fields they read and write ([dims], [scroll_dim_idx], [is_playing]); the
    widget refresh at their end ([image.clim], [_update_view]) only reads
    these fields and renders through [_get_display_image], which is
    embedded on its own. *)

From Stdlib Require Import ZArith String List Lia Bool DecimalString.
From stdpp Require Import base option list numbers.
From stdpp Require sorting.

Local Open Scope string_scope.
Local Open Scope Z_scope.

(** ** Exceptions *)

Inductive exn : Type :=
| ValueError (msg : string)
| IndexError
| StopIteration.

Inductive result (A : Type) : Type :=
| Ok (a : A)
| Raise (e : exn).

Arguments Ok {A} a.
Arguments Raise {A} e.

#[global] Instance result_ret : MRet result := λ A a, Ok a.

#[global] Instance result_bind : MBind result := λ A B k m,
  match m with
  | Ok a => k a
  | Raise e => Raise e
  end.

(** ** Roles and dimensions *)

Inductive Role : Type := view_x | view_y | view_grid | scroll | fixed.

#[global] Instance Role_eq_dec : EqDecision Role.
Proof. solve_decision. Defined.

(** The string tag stored under the key ["role"]. *)
Definition role_name (r : Role) : string :=
  match r with
  | view_x => "view_x"
  | view_y => "view_y"
  | view_grid => "view_grid"
  | scroll => "scroll"
  | fixed => "fixed"
  end.

(** Python's [needle in hay] on strings. *)
Definition contains (needle hay : string) : bool :=
  match String.index 0 needle hay with
  | Some _ => true
  | None => false
  end.

(** ["view" in d["role"]] *)
Definition is_view (r : Role) : bool := contains "view" (role_name r).

(** One entry of [self.dims]: [{"role": .., "index": .., "size": ..}]. *)
Record Dim : Type := mkDim { d_role : Role; d_index : Z; d_size : Z }.

Definition set_role (r : Role) (d : Dim) : Dim :=
  {| d_role := r; d_index := d_index d; d_size := d_size d |}.

(** The part of [self] the role engine reads and writes. *)
Record Viewer : Type := mkViewer {
  dims : list Dim;
  scroll_dim_idx : Z;
  is_playing : bool
}.

Definition with_dims (ds : list Dim) (s : Viewer) : Viewer :=
  {| dims := ds; scroll_dim_idx := scroll_dim_idx s; is_playing := is_playing s |}.

(** ** Python list access *)

(** [l[i]]: a negative position counts from the end, anything outside
    raises [IndexError]. *)
Definition list_pos {A : Type} (l : list A) (i : Z) : option nat :=
  let n := Z.of_nat (length l) in
  if (0 <=? i) && (i <? n) then Some (Z.to_nat i)
  else if (- n <=? i) && (i <? 0) then Some (Z.to_nat (n + i))
  else None.

Definition getitem {A : Type} (l : list A) (i : Z) : result A :=
  match list_pos l i with
  | Some k => match l !! k with Some a => Ok a | None => Raise IndexError end
  | None => Raise IndexError
  end.

Definition setitem {A : Type} (l : list A) (i : Z) (a : A) : result (list A) :=
  match list_pos l i with
  | Some k => Ok (<[k := a]> l)
  | None => Raise IndexError
  end.

(** [next(i for i, d in enumerate(ds) if d["role"] == r)], as a position. *)
Definition find_role (r : Role) (ds : list Dim) : option nat :=
  fst <$> list_find (λ d, d_role d = r) ds.

(** [next(... for ...)] without a default raises [StopIteration]. *)
Definition next_role (r : Role) (ds : list Dim) : result Z :=
  match find_role r ds with
  | Some i => Ok (Z.of_nat i)
  | None => Raise StopIteration
  end.

(** [next(..., -1)] over the dimensions whose role is ["scroll"]. *)
Definition scroll_index_of (ds : list Dim) : Z :=
  match find_role scroll ds with
  | Some i => Z.of_nat i
  | None => -1
  end.

Definition _update_scroll_dim_index (s : Viewer) : Viewer :=
  {| dims := dims s;
     scroll_dim_idx := scroll_index_of (dims s);
     is_playing := is_playing s |}.

(** ** Playback flag *)

Definition _toggle_playback (s : Viewer) : Viewer :=
  let playing := negb (is_playing s) in
  if playing then
    if scroll_dim_idx s =? -1
    then {| dims := dims s; scroll_dim_idx := scroll_dim_idx s; is_playing := false |}
    else {| dims := dims s; scroll_dim_idx := scroll_dim_idx s; is_playing := true |}
  else {| dims := dims s; scroll_dim_idx := scroll_dim_idx s; is_playing := false |}.

(** [if self.is_playing: self._toggle_playback()] *)
Definition stop_if_playing (s : Viewer) : Viewer :=
  if is_playing s then _toggle_playback s else s.

(** ** Initial roles *)

Fixpoint assign_loop (ndim : Z) (i : Z) (shape : list Z) : list Dim :=
  match shape with
  | [] => []
  | size :: rest =>
      let role :=
        if i =? 0 then view_x
        else if i =? 1 then view_y
        else if (i =? 2) && (2 <? ndim) then scroll
        else fixed in
      {| d_role := role; d_index := size `div` 2; d_size := size |}
        :: assign_loop ndim (i + 1) rest
  end.

Definition _assign_initial_roles (shape : list Z) (s : Viewer) : Viewer :=
  _update_scroll_dim_index
    (with_dims (assign_loop (Z.of_nat (length shape)) 0 shape) s).

(** ** Re-partition of the non-view dimensions *)

Fixpoint scroll_fixed_loop (found_scroll : bool) (ds : list Dim) : list Dim :=
  match ds with
  | [] => []
  | dim :: rest =>
      if negb (is_view (d_role dim)) then
        if negb found_scroll
        then set_role scroll dim :: scroll_fixed_loop true rest
        else set_role fixed dim :: scroll_fixed_loop found_scroll rest
      else dim :: scroll_fixed_loop found_scroll rest
  end.

Definition _reassign_scroll_and_fixed (s : Viewer) : Viewer :=
  _update_scroll_dim_index (with_dims (scroll_fixed_loop false (dims s)) s).

(** ** Choosing the two view axes *)

Fixpoint all_roles_loop (x_idx y_idx : Z) (i : Z) (ds : list Dim) : list Dim :=
  match ds with
  | [] => []
  | dim :: rest =>
      let role :=
        if i =? x_idx then view_x
        else if i =? y_idx then view_y
        else fixed in
      set_role role dim :: all_roles_loop x_idx y_idx (i + 1) rest
  end.

Definition _reassign_all_roles (x_idx y_idx : Z) (s : Viewer) : Viewer :=
  let s := stop_if_playing s in
  _reassign_scroll_and_fixed
    (with_dims (all_roles_loop x_idx y_idx 0 (dims s)) s).

Definition _set_view_dimension_from_button (new_dim_idx axis : Z) (s : Viewer)
  : result Viewer :=
  current_x_idx ← next_role view_x (dims s);
  current_y_idx ← next_role view_y (dims s);
  if ((axis =? 0) && (new_dim_idx =? current_y_idx))
     || ((axis =? 1) && (new_dim_idx =? current_x_idx))
  then Ok (_reassign_all_roles current_y_idx current_x_idx s)
  else if axis =? 0
       then Ok (_reassign_all_roles new_dim_idx current_y_idx s)
       else Ok (_reassign_all_roles current_x_idx new_dim_idx s).

(** ** Grid toggle *)

Definition clear_grid (ds : list Dim) : list Dim :=
  map (λ d, if decide (d_role d = view_grid) then set_role fixed d else d) ds.

Definition set_role_at (ds : list Dim) (i : Z) (r : Role) : result (list Dim) :=
  d ← getitem ds i;
  setitem ds i (set_role r d).

Definition _toggle_grid_dimension (dim_idx : Z) (s : Viewer) : result Viewer :=
  let s := stop_if_playing s in
  d ← getitem (dims s) dim_idx;
  let current_role := d_role d in
  if decide (current_role = view_grid) then
    ds ← set_role_at (dims s) dim_idx scroll;
    Ok (_reassign_scroll_and_fixed (with_dims ds s))
  else if negb (is_view current_role) then
    ds ← set_role_at (clear_grid (dims s)) dim_idx view_grid;
    Ok (_reassign_scroll_and_fixed (with_dims ds s))
  else Ok s.

(** ** Scroll dimension *)

Definition _set_scroll_dimension (new_scroll_idx : Z) (s : Viewer) : result Viewer :=
  let s := stop_if_playing s in
  d ← getitem (dims s) new_scroll_idx;
  if is_view (d_role d) then Ok s
  else
    let old_scroll_idx := scroll_dim_idx s in
    if old_scroll_idx =? new_scroll_idx then Ok s
    else
      ds ← (if negb (old_scroll_idx =? -1)
            then set_role_at (dims s) old_scroll_idx fixed
            else Ok (dims s));
      ds ← set_role_at ds new_scroll_idx scroll;
      Ok (_update_scroll_dim_index (with_dims ds s)).

(** [[i for i, d in enumerate(ds) if "view" not in d["role"]]] *)
Fixpoint cyclable_from (i : Z) (ds : list Dim) : list Z :=
  match ds with
  | [] => []
  | d :: rest =>
      if negb (is_view (d_role d))
      then i :: cyclable_from (i + 1) rest
      else cyclable_from (i + 1) rest
  end.

(** [l.index(v)]: the first position holding [v], else [ValueError]. *)
Fixpoint py_index_from (k : Z) (l : list Z) (v : Z) : result Z :=
  match l with
  | [] => Raise (ValueError "is not in list")
  | a :: rest => if a =? v then Ok k else py_index_from (k + 1) rest v
  end.

(** [try: body except ValueError: handler] *)
Definition try_except_ValueError {A : Type} (body handler : result A) : result A :=
  match body with
  | Raise (ValueError _) => handler
  | other => other
  end.

Definition _change_scroll_dimension_by_cycle (direction : string) (s : Viewer)
  : result Viewer :=
  let s := stop_if_playing s in
  let cyclable_indices := cyclable_from 0 (dims s) in
  let len := Z.of_nat (length cyclable_indices) in
  if len <? 2 then Ok s
  else
    try_except_ValueError
      (current_pos ← py_index_from 0 cyclable_indices (scroll_dim_idx s);
       let new_pos :=
         (current_pos + (if String.eqb direction "next" then 1 else -1)) `mod` len in
       target ← getitem cyclable_indices new_pos;
       _set_scroll_dimension target s)
      (target ← getitem cyclable_indices 0;
       _set_scroll_dimension target s).

(** ** Construction *)

Definition str_of_Z (z : Z) : string :=
  DecimalString.NilZero.string_of_int (Z.to_int z).

(** [__init__], restricted to the role state; [shape] is [data.shape]. *)
Definition NDArrayViewer_init (shape : list Z) : result Viewer :=
  let ndim := Z.of_nat (length shape) in
  if ndim <? 2 then
    Raise (ValueError ("Input data must have at least 2 dimensions, but got "
                         ++ str_of_Z ndim ++ "."))
  else
    Ok (_assign_initial_roles shape
          {| dims := []; scroll_dim_idx := -1; is_playing := false |}).

(** ** The view-dimension prompt *)

(** What the input dialog hands back: [Dismissed] when [not (ok and text)],
    otherwise the whitespace-separated tokens of the text, each already
    passed through [int] ([None] where [int] raises [ValueError]). *)
Inductive dialog_answer : Type :=
| Dismissed
| Entered (parts : list (option Z)).

Definition py_int (tok : option Z) : result Z :=
  match tok with
  | Some z => Ok z
  | None => Raise (ValueError "invalid literal for int() with base 10")
  end.

(** The body of the [try] block of [_prompt_for_view_dims]. *)
Definition view_dims_from_parts (parts : list (option Z)) (s : Viewer) : result Viewer :=
  let ndim := Z.of_nat (length (dims s)) in
  match parts with
  | [p0; p1] =>
      x_dim ← py_int p0;
      y_dim ← py_int p1;
      if negb ((0 <=? x_dim) && (x_dim <? ndim) && (0 <=? y_dim) && (y_dim <? ndim))
      then Raise (ValueError ("Dimensions must be between 0 and "
                                ++ str_of_Z (ndim - 1) ++ "."))
      else if x_dim =? y_dim
      then Raise (ValueError "The two dimensions must be different.")
      else Ok (_reassign_all_roles x_dim y_dim s)
  | _ => Raise (ValueError "Please enter exactly two numbers.")
  end.

(** [_prompt_for_view_dims]: the new state and, when the [except] branch
    ran, the text of the warning box. *)
Definition _prompt_for_view_dims (answer : dialog_answer) (s : Viewer)
  : result (Viewer * option string) :=
  let s := stop_if_playing s in
  _ ← next_role view_x (dims s);
  _ ← next_role view_y (dims s);
  match answer with
  | Dismissed => Ok (s, None)
  | Entered parts =>
      match view_dims_from_parts parts s with
      | Ok s' => Ok (s', None)
      | Raise (ValueError msg) => Ok (s, Some msg)
      | Raise e => Raise e
      end
  end.

(** ** Arrays *)

Inductive DType : Type := float32 | float64 | complex64 | complex128.

(** An entry of the tuple indexing an array: [slice(None)] or an integer. *)
Inductive Slicer : Type :=
| slice_None
| int_index (i : Z).

(** Shape of [a[tuple(sl)]] for an array of shape [shape]; an integer
    outside [-n, n) or more indices than axes raise [IndexError]. *)
Fixpoint index_shape (shape : list Z) (sl : list Slicer) : result (list Z) :=
  match sl, shape with
  | [], _ => Ok shape
  | _ :: _, [] => Raise IndexError
  | slice_None :: sl', n :: shape' =>
      rest ← index_shape shape' sl';
      Ok (n :: rest)
  | int_index i :: sl', n :: shape' =>
      if (- n <=? i) && (i <? n) then index_shape shape' sl'
      else Raise IndexError
  end.

(** Position in the indexed array of the element at [idx] of the result. *)
Fixpoint index_source (shape : list Z) (sl : list Slicer) (idx : list Z) : list Z :=
  match sl, shape with
  | [], _ => idx
  | _ :: _, [] => idx
  | slice_None :: sl', n :: shape' =>
      match idx with
      | j :: idx' => j :: index_source shape' sl' idx'
      | [] => []
      end
  | int_index i :: sl', n :: shape' =>
      (if i <? 0 then i + n else i) :: index_source shape' sl' idx
  end.

(** Python slice bound [x] clipped against an axis of length [n]. *)
Definition slice_bound (n x : Z) : Z :=
  if x <? 0 then Z.max 0 (x + n) else Z.min x n.

(** How a value axis of length [v] is read when stored into a target axis
    of length [t]: as it is, stretched from length 1, or not at all. *)
Definition broadcast_axis (v t : Z) : option (Z → Z) :=
  if v =? t then Some (λ k, k)
  else if v =? 1 then Some (λ _, 0)
  else None.

Section Arrays.

(** Element type of the arrays and the value [np.zeros] fills in. *)
Variable V : Type.
Variable zero : V.

Record ndarray : Type := mkArray {
  dtype : DType;
  shape : list Z;
  item : list Z → V
}.

(** [a[tuple(sl)]] *)
Definition nd_getitem (a : ndarray) (sl : list Slicer) : result ndarray :=
  sh ← index_shape (shape a) sl;
  Ok {| dtype := dtype a;
        shape := sh;
        item := λ idx, item a (index_source (shape a) sl idx) |}.

(** [a.T] *)
Definition T (a : ndarray) : ndarray :=
  {| dtype := dtype a;
     shape := rev (shape a);
     item := λ idx, item a (rev idx) |}.

(** [np.zeros(shape, dtype=dt)] *)
Definition np_zeros (sh : list Z) (dt : DType) : result ndarray :=
  if forallb (λ n, 0 <=? n) sh
  then Ok {| dtype := dt; shape := sh; item := λ _, zero |}
  else Raise (ValueError "negative dimensions are not allowed").

(** [g[r0:r1, c0:c1] = v] on a two-dimensional [g], for a value of at
    most two axes.  The value is stored in [g]'s dtype; every caller
    below stores slices of the array whose dtype [g] was created with. *)
Definition nd_setitem_block (g : ndarray) (r0 r1 c0 c1 : Z) (v : ndarray)
  : result ndarray :=
  match shape g with
  | [H; W] =>
      let ra := slice_bound H r0 in
      let rb := slice_bound H r1 in
      let ca := slice_bound W c0 in
      let cb := slice_bound W c1 in
      let rh := Z.max 0 (rb - ra) in
      let rw := Z.max 0 (cb - ca) in
      let stored (fr fc : Z → Z) (pick : Z → Z → list Z) :=
        Ok {| dtype := dtype g;
              shape := shape g;
              item := λ idx,
                match idx with
                | [r; c] =>
                    if (ra <=? r) && (r <? ra + rh) && (ca <=? c) && (c <? ca + rw)
                    then item v (pick (fr (r - ra)) (fc (c - ca)))
                    else item g idx
                | _ => item g idx
                end |} in
      let mismatch := Raise (ValueError "could not broadcast input array") in
      match shape v with
      | [vh; vw] =>
          match broadcast_axis vh rh, broadcast_axis vw rw with
          | Some fr, Some fc => stored fr fc (λ i j, [i; j])
          | _, _ => mismatch
          end
      | [vw] =>
          match broadcast_axis vw rw with
          | Some fc => stored (λ k, k) fc (λ _ j, [j])
          | None => mismatch
          end
      | [] => stored (λ k, k) (λ k, k) (λ _ _, [])
      | _ => mismatch
      end
  | _ => Raise IndexError
  end.

(** ** Rendering *)

(** [[slice(None) if "view" in d["role"] else d["index"] for d in self.dims]] *)
Definition default_slicer (ds : list Dim) : list Slicer :=
  map (λ d, if is_view (d_role d) then slice_None else int_index (d_index d)) ds.

(** [slicer_override or [...]]: [None] and the empty list are falsy. *)
Definition slicer_or (slicer_override : option (list Slicer)) (ds : list Dim)
  : list Slicer :=
  match slicer_override with
  | Some (e :: l) => e :: l
  | _ => default_slicer ds
  end.

Definition _get_single_slice (s : Viewer) (active_data : ndarray)
    (slicer_override : option (list Slicer)) : result ndarray :=
  let slicer := slicer_or slicer_override (dims s) in
  x_dim_idx ← next_role view_x (dims s);
  y_dim_idx ← next_role view_y (dims s);
  slice_data ← nd_getitem active_data slicer;
  if y_dim_idx <? x_dim_idx then Ok (T slice_data) else Ok slice_data.

(** [for r in range(r0, 0, -1): if num_images % r == 0: ...; break],
    started with [best_rows = 1]. *)
Fixpoint best_rows_from (num_images : Z) (r : nat) : Z :=
  match r with
  | O => 1
  | S r' =>
      if num_images `mod` Z.of_nat r =? 0 then Z.of_nat r
      else best_rows_from num_images r'
  end.

(** [int(np.sqrt(num_images))] is the integer square root: the double
    nearest to the root of an integer below 2^52 never reaches the next
    integer. *)
Definition _calculate_grid_layout (num_images : Z) : Z * Z :=
  if num_images =? 0 then (0, 0)
  else
    let best_rows := best_rows_from num_images (Z.to_nat (Z.sqrt num_images)) in
    (best_rows, num_images `div` best_rows).

(** [h, w = a.shape] *)
Definition unpack_shape2 (a : ndarray) : result (Z * Z) :=
  match shape a with
  | [h; w] => Ok (h, w)
  | _ => Raise (ValueError "not enough values to unpack")
  end.

(** The body of [for i in range(num_images)], for the images listed. *)
Fixpoint grid_loop (s : Viewer) (active_data : ndarray) (grid_dim_idx : Z)
    (slice_h slice_w cols : Z) (images : list Z)
    (slicer : list Slicer) (grid_image : ndarray) : result ndarray :=
  match images with
  | [] => Ok grid_image
  | i :: rest =>
      slicer ← setitem slicer grid_dim_idx (int_index i);
      current_slice ← _get_single_slice s active_data (Some slicer);
      let r := i `div` cols in
      let c := i `mod` cols in
      grid_image ← nd_setitem_block grid_image
                     (r * slice_h) ((r + 1) * slice_h)
                     (c * slice_w) ((c + 1) * slice_w) current_slice;
      grid_loop s active_data grid_dim_idx slice_h slice_w cols rest
                slicer grid_image
  end.

(** [range(n)] *)
Definition py_range (n : Z) : list Z := map Z.of_nat (seq 0 (Z.to_nat n)).

Definition _build_grid_image (s : Viewer) (active_data : ndarray)
    (grid_dim_idx : Z) : result ndarray :=
  grid_dim ← getitem (dims s) grid_dim_idx;
  let num_images := d_size grid_dim in
  let slicer := default_slicer (dims s) in
  slicer ← setitem slicer grid_dim_idx (int_index 0);
  template_slice ← _get_single_slice s active_data (Some slicer);
  '(slice_h, slice_w) ← unpack_shape2 template_slice;
  let '(rows, cols) := _calculate_grid_layout num_images in
  grid_image ← np_zeros [rows * slice_h; cols * slice_w] (dtype active_data);
  grid_loop s active_data grid_dim_idx slice_h slice_w cols
            (py_range num_images) slicer grid_image.

Definition _get_display_image (s : Viewer) (active_data : ndarray)
  : result ndarray :=
  match find_role view_grid (dims s) with
  | None => _get_single_slice s active_data None
  | Some grid_dim_idx => _build_grid_image s active_data (Z.of_nat grid_dim_idx)
  end.

End Arrays.

Arguments dtype {V} _.
Arguments shape {V} _.
Arguments item {V} _ _.
Arguments mkArray {V} _ _ _.
Arguments nd_getitem {V} _ _.
Arguments T {V} _.
Arguments _get_single_slice {V} _ _ _.
Arguments _build_grid_image {V} _ _ _ _.
Arguments _get_display_image {V} _ _ _.
Arguments grid_loop {V} _ _ _ _ _ _ _ _ _.
Arguments nd_setitem_block {V} _ _ _ _ _ _.
Arguments np_zeros {V} _ _ _.
Arguments unpack_shape2 {V} _.

(** ** The invariant set *)

Fixpoint count_role (r : Role) (ds : list Dim) : nat :=
  match ds with
  | [] => 0
  | d :: rest => (if decide (d_role d = r) then 1 else 0) + count_role r rest
  end%nat.

Definition index_ok (d : Dim) : Prop := 0 ≤ d_index d < d_size d.

(** The four numbered invariants of the dimension list, and the one the
    code relies on for its cached [scroll_dim_idx]. *)
Record Inv (s : Viewer) : Prop := mkInv {
  inv_x : count_role view_x (dims s) = 1%nat;
  inv_y : count_role view_y (dims s) = 1%nat;
  inv_grid : (count_role view_grid (dims s) ≤ 1)%nat;
  inv_scroll : (count_role scroll (dims s) ≤ 1)%nat;
  inv_index : Forall index_ok (dims s);
  inv_cache : scroll_dim_idx s = scroll_index_of (dims s)
}.

(** An argument naming a dimension is valid when it is a position. *)
Definition valid_dim (s : Viewer) (i : Z) : Prop :=
  0 ≤ i < Z.of_nat (length (dims s)).

(** Index and size of a dimension: what no role operation touches. *)
Definition geometry (d : Dim) : Z * Z := (d_index d, d_size d).

(** Position of the first dimension whose role is not a view role. *)
Definition first_nonview (ds : list Dim) : option nat :=
  fst <$> list_find (λ d, is_view (d_role d) = false) ds.

(** The role [_assign_initial_roles] gives to position [i]. *)
Definition initial_role (i : nat) : Role :=
  match i with
  | 0%nat => view_x
  | 1%nat => view_y
  | 2%nat => scroll
  | _ => fixed
  end.

(** The outcome of the re-partition: among the dimensions without a view
    role, the first is [scroll] and every other one is [fixed]. *)
Definition partitioned (ds : list Dim) : Prop :=
  ∀ (i : nat) (d : Dim),
    ds !! i = Some d → is_view (d_role d) = false →
    d_role d = if decide (first_nonview ds = Some i) then scroll else fixed.

(** Sizes of the dimensions that carry a view role, in axis order: the
    shape left by the default slicer. *)
Fixpoint view_sizes (ds : list Dim) : list Z :=
  match ds with
  | [] => []
  | d :: rest =>
      if is_view (d_role d) then d_size d :: view_sizes rest
      else view_sizes rest
  end.

(** A dimension held at position [i]: how the mosaic loop treats the grid
    dimension while it extracts tile [i]. *)
Definition pinned (i : Z) (d : Dim) : Dim :=
  {| d_role := fixed; d_index := i; d_size := d_size d |}.

(** The slicer of tile [i] of the mosaic over dimension [g]. *)
Definition tile_slicer (ds : list Dim) (g : nat) (i : Z) : list Slicer :=
  <[g := int_index i]> (default_slicer ds).

(** Pixel [(r, c)] lies in the block of tile [i]. *)
Definition in_block (h w cols i r c : Z) : Prop :=
  (i `div` cols) * h ≤ r < (i `div` cols + 1) * h
  ∧ (i `mod` cols) * w ≤ c < (i `mod` cols + 1) * w.

(** ** States used in the examples *)

(** Shape [(2, 3, 4, 5)] with the third dimension tiled. *)
Definition example_grid_state : Viewer :=
  {| dims := [mkDim view_x 1 2; mkDim view_y 1 3; mkDim view_grid 2 4;
              mkDim scroll 0 5];
     scroll_dim_idx := 3;
     is_playing := false |}.

Definition example_grid_state_swapped : Viewer :=
  {| dims := [mkDim view_y 1 2; mkDim view_x 1 3; mkDim scroll 2 4;
              mkDim fixed 0 5];
     scroll_dim_idx := 2;
     is_playing := false |}.

(** Shape [(8, 8, 5, 3)] right after construction. *)
Definition example_initial_state : Viewer :=
  {| dims := [mkDim view_x 4 8; mkDim view_y 4 8; mkDim scroll 2 5;
              mkDim fixed 1 3];
     scroll_dim_idx := 2;
     is_playing := false |}.

Definition example_toggled_state : Viewer :=
  {| dims := [mkDim view_x 4 8; mkDim view_y 4 8; mkDim scroll 2 5;
              mkDim view_grid 1 3];
     scroll_dim_idx := 2;
     is_playing := false |}.

(** Shape [(2, 3)] right after construction, and an array of that shape
    holding [10 * a + b] at [(a, b)]. *)
Definition example_2d_state : Viewer :=
  {| dims := [mkDim view_x 1 2; mkDim view_y 1 3];
     scroll_dim_idx := -1;
     is_playing := false |}.

Definition example_2d_array : ndarray Z :=
  {| dtype := float32;
     shape := [2; 3];
     item := λ idx, match idx with [a; b] => 10 * a + b | _ => 0 end |}.

(** An array of shape [(2, 3, 4, 5)] for [example_grid_state]. *)
Definition example_4d_array : ndarray Z :=
  {| dtype := float32;
     shape := [2; 3; 4; 5];
     item := λ idx,
       match idx with
       | [a; b; c; d] => 1000 * a + 100 * b + 10 * c + d
       | _ => 0
       end |}.

(** ** Sliders, keys and the playback tick *)

Definition set_index (value : Z) (d : Dim) : Dim :=
  {| d_role := d_role d; d_index := value; d_size := d_size d |}.

(** [self.dims[i]["index"] = value] *)
Definition store_index (i value : Z) (s : Viewer) : result Viewer :=
  d ← getitem (dims s) i;
  ds ← setitem (dims s) i (set_index value d);
  Ok (with_dims ds s).

Definition _on_slider_pressed (dim_idx : Z) (s : Viewer) : result Viewer :=
  let s := stop_if_playing s in
  d ← getitem (dims s) dim_idx;
  if decide (d_role d = fixed) then _set_scroll_dimension dim_idx s else Ok s.

Definition _on_slider_moved (dim_idx value : Z) (s : Viewer) : result Viewer :=
  let s := stop_if_playing s in
  d ← getitem (dims s) dim_idx;
  if negb (is_view (d_role d)) then store_index dim_idx value s else Ok s.

(** [_advance_slice], the timer tick; [loop_checked] is the state of the
    loop checkbox. *)
Definition _advance_slice (loop_checked : bool) (s : Viewer) : result Viewer :=
  if scroll_dim_idx s =? -1 then Ok (_toggle_playback s)
  else
    scroll_dim ← getitem (dims s) (scroll_dim_idx s);
    let current_index := d_index scroll_dim in
    let max_index := d_size scroll_dim - 1 in
    let new_index := current_index + 1 in
    if max_index <? new_index then
      if loop_checked then store_index (scroll_dim_idx s) 0 s
      else Ok (_toggle_playback s)
    else store_index (scroll_dim_idx s) new_index s.

(** [n] ticks of the timer. *)
Fixpoint advance_many (loop_checked : bool) (n : nat) (s : Viewer) : result Viewer :=
  match n with
  | O => Ok s
  | S n' => s' ← _advance_slice loop_checked s; advance_many loop_checked n' s'
  end.

(** [_on_key_press], on the role state; [answer] is what the prompt of
    the key "v" hands back.  The keys "f", "c", "b" and "x" only reach the
    frequency, complex-view, colour-bar and cross-hair fields. *)
Definition _on_key_press (key : string) (answer : dialog_answer) (s : Viewer)
  : result Viewer :=
  let s :=
    if existsb (String.eqb key) ["j"; "k"; "l"; "h"; "v"; "g"; "f"; "c"; "b"; "x"]
    then stop_if_playing s else s in
  if negb (scroll_dim_idx s =? -1) && (String.eqb key "j" || String.eqb key "k")
  then
    d ← getitem (dims s) (scroll_dim_idx s);
    let current_val := d_index d in
    if String.eqb key "j" then
      let max_val := d_size d - 1 in
      store_index (scroll_dim_idx s) (Z.min max_val (current_val + 1)) s
    else store_index (scroll_dim_idx s) (Z.max 0 (current_val - 1)) s
  else if String.eqb key "l" then _change_scroll_dimension_by_cycle "next" s
  else if String.eqb key "h" then _change_scroll_dimension_by_cycle "prev" s
  else if String.eqb key "v" then
    '(s', _) ← _prompt_for_view_dims answer s; Ok s'
  else if String.eqb key "g" then
    match find_role view_grid (dims s) with
    | Some grid_dim_idx => _toggle_grid_dimension (Z.of_nat grid_dim_idx) s
    | None =>
        if negb (scroll_dim_idx s =? -1)
        then _toggle_grid_dimension (scroll_dim_idx s) s
        else Ok s
    end
  else Ok s.

(** [_get_view_indices]: the slicer of the cross-hair read-out. *)
Definition _get_view_indices (ds : list Dim) : list Slicer :=
  map (λ d, if decide (d_role d = view_x ∨ d_role d = view_y)
            then slice_None else int_index (d_index d)) ds.

(** ** Frequency view *)

Record FftView : Type := mkFftView {
  is_fft_view : bool;
  fft_dims : option (list Z)
}.

(** [[int(p) for p in parts]] *)
Fixpoint ints_of_parts (parts : list (option Z)) : result (list Z) :=
  match parts with
  | [] => Ok []
  | p :: rest =>
      z ← py_int p;
      zs ← ints_of_parts rest;
      Ok (z :: zs)
  end.

(** [for d in dims_to_fft: if not (0 <= d < ndim): raise ValueError(...)] *)
Fixpoint check_fft_dims (ndim : Z) (dims_to_fft : list Z) : result unit :=
  match dims_to_fft with
  | [] => Ok ()
  | d :: rest =>
      if negb ((0 <=? d) && (d <? ndim))
      then Raise (ValueError ("Dimension " ++ str_of_Z d ++ " is out of range (0-"
                                ++ str_of_Z (ndim - 1) ++ ")."))
      else check_fft_dims ndim rest
  end.

(** [sorted(list(set(l)))] *)
Definition sorted_set (l : list Z) : list Z :=
  sorting.merge_sort Z.le (remove_dups l).

(** The validation in the [try] block of [_prompt_for_fft_dims], up to
    the call of [_compute_fft]. *)
Definition fft_dims_from_parts (ndim : Z) (parts : list (option Z))
  : result (list Z) :=
  match parts with
  | [] => Raise (ValueError "Please enter at least one dimension.")
  | _ :: _ =>
      ints ← ints_of_parts parts;
      let dims_to_fft := sorted_set ints in
      _ ← check_fft_dims ndim dims_to_fft;
      Ok dims_to_fft
  end.

(** [_prompt_for_fft_dims] on the two flags it sets; the second component
    is the text of the warning box. *)
Definition _prompt_for_fft_dims (ndim : Z) (answer : dialog_answer) (f : FftView)
  : result (FftView * option string) :=
  match answer with
  | Dismissed => Ok (f, None)
  | Entered parts =>
      match fft_dims_from_parts ndim parts with
      | Ok dims_to_fft =>
          Ok ({| is_fft_view := true; fft_dims := Some dims_to_fft |}, None)
      | Raise (ValueError msg) =>
          Ok ({| is_fft_view := false; fft_dims := fft_dims f |}, Some msg)
      | Raise e => Raise e
      end
  end.

Definition _toggle_fft_view (ndim : Z) (answer : dialog_answer) (f : FftView)
  : result (FftView * option string) :=
  if is_fft_view f
  then Ok ({| is_fft_view := false; fft_dims := None |}, None)
  else _prompt_for_fft_dims ndim answer f.

(** ** Complex view mode *)

Definition complex_modes : list string := ["magnitude"; "phase"; "real"; "imag"].

Definition complex_mode_names : list string :=
  ["Magnitude"; "Phase"; "Real"; "Imaginary"].

(** [l.index(v)] on a list of strings. *)
Fixpoint str_index_from (k : Z) (l : list string) (v : string) : result Z :=
  match l with
  | [] => Raise (ValueError "is not in list")
  | a :: rest => if String.eqb a v then Ok k else str_index_from (k + 1) rest v
  end.

(** [mode_map.get(text, "magnitude")] *)
Definition mode_map_get (text : string) : string :=
  if String.eqb text "Magnitude" then "magnitude"
  else if String.eqb text "Phase" then "phase"
  else if String.eqb text "Real" then "real"
  else if String.eqb text "Imaginary" then "imag"
  else "magnitude".

(** [_on_complex_view_changed] on the mode field. *)
Definition _on_complex_view_changed (text : string) (mode : string) : string :=
  mode_map_get text.

(** [_cycle_complex_view] on the mode field: the new mode and the text it
    puts into the drop-down. *)
Definition _cycle_complex_view (is_complex_data : bool) (mode : string)
  : result (string * option string) :=
  if negb is_complex_data then Ok (mode, None)
  else
    current_idx ← str_index_from 0 complex_modes mode;
    let next_idx := (current_idx + 1) `mod` Z.of_nat (length complex_modes) in
    new_mode ← getitem complex_modes next_idx;
    name ← getitem complex_mode_names next_idx;
    Ok (new_mode, Some name).

(** ** The fallback viewer ([matplotlib_fallback.py]) *)

(** The generator of [get_slice]:
    [slice(None) if i in view_dims else current_slice[i]] for the [i]
    listed. *)
Fixpoint fallback_slicer_loop (view_dims current_slice : list Z) (idxs : list Z)
  : result (list Slicer) :=
  match idxs with
  | [] => Ok []
  | i :: rest =>
      e ← (if existsb (Z.eqb i) view_dims then Ok slice_None
           else z ← getitem current_slice i; Ok (int_index z));
      es ← fallback_slicer_loop view_dims current_slice rest;
      Ok (e :: es)
  end.

Definition get_slice {V : Type} (display_data : ndarray V)
    (view_dims current_slice : list Z) : result (ndarray V) :=
  let ndim := Z.of_nat (length (shape display_data)) in
  slicer ← fallback_slicer_loop view_dims current_slice (py_range ndim);
  nd_getitem display_data slicer.

(** The array [arrayshow_matplotlib] hands to [imshow]: the data itself
    for two axes, otherwise [get_slice()] with [view_dims = [0, 1]] and
    [current_slice = [0] * ndim]. *)
Definition arrayshow_matplotlib_image {V : Type} (display_data : ndarray V)
  : result (ndarray V) :=
  let ndim := length (shape display_data) in
  if Z.of_nat ndim <? 2
  then Raise (ValueError "Data must have at least 2 dimensions")
  else if Z.of_nat ndim =? 2 then Ok display_data
  else get_slice display_data [0; 1] (replicate ndim 0).

(** ** The matplotlib viewer ([arrayview.py]) *)

(** [while np.prod(mshape) < batch: mshape[1] += 1], with the second
    entry as result; [None] when the fuel runs out. *)
Fixpoint mosaic_while (fuel : nat) (batch m0 m1 : Z) : option Z :=
  if m0 * m1 <? batch then
    match fuel with
    | O => None
    | S fuel' => mosaic_while fuel' batch m0 (m1 + 1)
    end
  else Some m1.

(** [mosaic_shape(batch)]; [batch] is a product of shape entries, a numpy
    integer, and [int(batch**0.5)] is taken to be its integer square
    root. *)
Definition mosaic_shape (fuel : nat) (batch : Z) : option (Z * Z) :=
  let m0 := Z.sqrt batch in
  let m1 := batch `div` m0 in
  m1 ← mosaic_while fuel batch m0 m1;
  if (m0 - 1) * (m1 + 1) =? batch then Some (m0 - 1, m1 + 1) else Some (m0, m1).

Inductive av_exn : Type :=
| TypeError (msg : string)
| ZeroDivisionError
| AvIndexError.

Inductive av_result (A : Type) : Type :=
| Done (a : A)
| Fail (e : av_exn).

Arguments Done {A} a.
Arguments Fail {A} e.

#[global] Instance av_result_bind : MBind av_result := λ A B k m,
  match m with
  | Done a => k a
  | Fail e => Fail e
  end.

Definition av_get {A : Type} (l : list A) (i : Z) : av_result A :=
  match getitem l i with
  | Ok a => Done a
  | Raise _ => Fail AvIndexError
  end.

Definition av_set {A : Type} (l : list A) (i : Z) (a : A) : av_result (list A) :=
  match setitem l i a with
  | Ok l' => Done l'
  | Raise _ => Fail AvIndexError
  end.

(** The navigation fields of [ArrayView]. *)
Record ArrayView : Type := mkArrayView {
  av_shape : list Z;
  av_slices : list Z;
  av_flips : list Z;
  av_x : Z;
  av_y : Z;
  av_z : option Z;
  av_c : option Z;
  av_d : Z;
  av_hide_axes : bool;
  av_show_help : bool;
  av_colormap_idx : Z;
  av_entering_slice : bool;
  av_entered_slice : Z
}.

Definition av_ndim (s : ArrayView) : Z := Z.of_nat (length (av_shape s)).

(** [d in [a, b, ...]] where an entry may be [None]. *)
Definition axis_in (d : Z) (l : list (option Z)) : bool :=
  existsb (λ o, match o with Some a => d =? a | None => false end) l.

Definition colormaps : list string := ["gray"; "viridis"; "RdBu_r"; "magma"].


Definition av_with_slices (l : list Z) (s : ArrayView) : ArrayView :=
  {| av_shape := av_shape s; av_slices := l; av_flips := av_flips s;
     av_x := av_x s; av_y := av_y s; av_z := av_z s; av_c := av_c s;
     av_d := av_d s; av_hide_axes := av_hide_axes s;
     av_show_help := av_show_help s; av_colormap_idx := av_colormap_idx s;
     av_entering_slice := av_entering_slice s;
     av_entered_slice := av_entered_slice s |}.

Definition av_with_flips (l : list Z) (s : ArrayView) : ArrayView :=
  {| av_shape := av_shape s; av_slices := av_slices s; av_flips := l;
     av_x := av_x s; av_y := av_y s; av_z := av_z s; av_c := av_c s;
     av_d := av_d s; av_hide_axes := av_hide_axes s;
     av_show_help := av_show_help s; av_colormap_idx := av_colormap_idx s;
     av_entering_slice := av_entering_slice s;
     av_entered_slice := av_entered_slice s |}.

Definition av_with_axes (x y : Z) (z : option Z) (s : ArrayView) : ArrayView :=
  {| av_shape := av_shape s; av_slices := av_slices s; av_flips := av_flips s;
     av_x := x; av_y := y; av_z := z; av_c := av_c s;
     av_d := av_d s; av_hide_axes := av_hide_axes s;
     av_show_help := av_show_help s; av_colormap_idx := av_colormap_idx s;
     av_entering_slice := av_entering_slice s;
     av_entered_slice := av_entered_slice s |}.

Definition av_with_d (d : Z) (s : ArrayView) : ArrayView :=
  {| av_shape := av_shape s; av_slices := av_slices s; av_flips := av_flips s;
     av_x := av_x s; av_y := av_y s; av_z := av_z s; av_c := av_c s;
     av_d := d; av_hide_axes := av_hide_axes s;
     av_show_help := av_show_help s; av_colormap_idx := av_colormap_idx s;
     av_entering_slice := av_entering_slice s;
     av_entered_slice := av_entered_slice s |}.

Definition av_with_entry (entering : bool) (entered : Z) (s : ArrayView)
  : ArrayView :=
  {| av_shape := av_shape s; av_slices := av_slices s; av_flips := av_flips s;
     av_x := av_x s; av_y := av_y s; av_z := av_z s; av_c := av_c s;
     av_d := av_d s; av_hide_axes := av_hide_axes s;
     av_show_help := av_show_help s; av_colormap_idx := av_colormap_idx s;
     av_entering_slice := entering;
     av_entered_slice := entered |}.

Definition av_with_flags (hide_axes show_help : bool) (colormap_idx : Z)
    (s : ArrayView) : ArrayView :=
  {| av_shape := av_shape s; av_slices := av_slices s; av_flips := av_flips s;
     av_x := av_x s; av_y := av_y s; av_z := av_z s; av_c := av_c s;
     av_d := av_d s; av_hide_axes := hide_axes;
     av_show_help := show_help; av_colormap_idx := colormap_idx;
     av_entering_slice := av_entering_slice s;
     av_entered_slice := av_entered_slice s |}.

(** The branches "up" ([delta = 1]) and "down" ([delta = -1]). *)
Definition av_step (delta : Z) (s : ArrayView) : av_result ArrayView :=
  if negb (axis_in (av_d s) [Some (av_x s); Some (av_y s); av_z s; av_c s]) then
    cur ← av_get (av_slices s) (av_d s);
    n ← av_get (av_shape s) (av_d s);
    if n =? 0 then Fail ZeroDivisionError
    else
      l ← av_set (av_slices s) (av_d s) ((cur + delta) `mod` n);
      Done (av_with_slices l s)
  else
    f ← av_get (av_flips s) (av_d s);
    l ← av_set (av_flips s) (av_d s) (f * -1);
    Done (av_with_flips l s).

(** The branches "left" ([delta = -1]) and "right" ([delta = 1]). *)
Definition av_move (delta : Z) (s : ArrayView) : av_result ArrayView :=
  if av_ndim s =? 0 then Fail ZeroDivisionError
  else Done (av_with_d ((av_d s + delta) `mod` av_ndim s) s).

(** [int(event.key)] for the ten digit keys. *)
Definition digit_of_key (key : string) : option Z :=
  if String.eqb key "0" then Some 0 else if String.eqb key "1" then Some 1
  else if String.eqb key "2" then Some 2 else if String.eqb key "3" then Some 3
  else if String.eqb key "4" then Some 4 else if String.eqb key "5" then Some 5
  else if String.eqb key "6" then Some 6 else if String.eqb key "7" then Some 7
  else if String.eqb key "8" then Some 8 else if String.eqb key "9" then Some 9
  else None.

(** The key that types the decimal digit [k]. *)
Definition key_of_digit (k : Z) : string :=
  String (Ascii.ascii_of_nat (48 + Z.to_nat k)) EmptyString.

(** The number typed so far after the digits [ks], starting from [acc]. *)
Definition typed_number (acc : Z) (ks : list Z) : Z :=
  fold_left (λ a k, a * 10 + k) ks acc.

(** The branch of the digit keys and "backspace", past its guard. *)
Definition av_digit (digit : option Z) (s : ArrayView) : ArrayView :=
  if av_entering_slice s then
    match digit with
    | None =>
        if av_entered_slice s <? 10 then av_with_entry false (av_entered_slice s) s
        else av_with_entry true (av_entered_slice s `div` 10) s
    | Some k => av_with_entry true (av_entered_slice s * 10 + k) s
    end
  else
    match digit with
    | Some k => av_with_entry true k s
    | None => s
    end.

(** The branch "enter", past its guard. *)
Definition av_enter (s : ArrayView) : av_result ArrayView :=
  let s := av_with_entry false (av_entered_slice s) s in
  n ← av_get (av_shape s) (av_d s);
  if av_entered_slice s <? n then
    l ← av_set (av_slices s) (av_d s) (av_entered_slice s);
    Done (av_with_slices l s)
  else Done s.

(** [key_press] on the navigation fields.  The keys whose branch works on
    the colour limits, the display mode or files ("q", "[", "]", the braces,
    "m", "p", "r", "i", "l", "s", "g", "v") are outside this embedding and
    give [None]. *)
Definition key_press (key : string) (s : ArrayView)
  : option (av_result ArrayView) :=
  if String.eqb key "c" then
    Some (Done (av_with_flags (av_hide_axes s) (av_show_help s)
                  ((av_colormap_idx s + 1) `mod` Z.of_nat (length colormaps)) s))
  else if String.eqb key "up" then Some (av_step 1 s)
  else if String.eqb key "down" then Some (av_step (-1) s)
  else if String.eqb key "left" then Some (av_move (-1) s)
  else if String.eqb key "right" then Some (av_move 1 s)
  else if String.eqb key "x"
          && negb (axis_in (av_d s) [Some (av_x s); av_z s; av_c s]) then
    if av_d s =? av_y s
    then Some (Done (av_with_axes (av_y s) (av_x s) (av_z s) s))
    else Some (Done (av_with_axes (av_d s) (av_y s) (av_z s) s))
  else if String.eqb key "y"
          && negb (axis_in (av_d s) [Some (av_y s); av_z s; av_c s]) then
    if av_d s =? av_x s
    then Some (Done (av_with_axes (av_y s) (av_x s) (av_z s) s))
    else Some (Done (av_with_axes (av_x s) (av_d s) (av_z s) s))
  else if String.eqb key "z"
          && negb (axis_in (av_d s) [Some (av_x s); Some (av_y s); av_c s]) then
    if axis_in (av_d s) [av_z s]
    then Some (Done (av_with_axes (av_x s) (av_y s) None s))
    else Some (Done (av_with_axes (av_x s) (av_y s) (Some (av_d s)) s))
  else if String.eqb key "t" then
    Some (Done (av_with_axes (av_y s) (av_x s) (av_z s) s))
  else if String.eqb key "a" then
    Some (Done (av_with_flags (negb (av_hide_axes s)) (av_show_help s)
                  (av_colormap_idx s) s))
  else if String.eqb key "f" then Some (Done s)
  else if existsb (String.eqb key)
            ["q"; "]"; "["; "}"; "{"; "m"; "p"; "r"; "i"; "l"; "s"; "g"; "v"]
  then None
  else if (bool_decide (is_Some (digit_of_key key)) || String.eqb key "backspace")
          && negb (axis_in (av_d s) [Some (av_x s); Some (av_y s); av_z s; av_c s])
  then Some (Done (av_digit (digit_of_key key) s))
  else if String.eqb key "enter" && av_entering_slice s then Some (av_enter s)
  else if String.eqb key "h" then
    Some (Done (av_with_flags (av_hide_axes s) (negb (av_show_help s))
                  (av_colormap_idx s) s))
  else Some (Done s).

(** A sequence of key presses; [None] as soon as a key is outside the
    embedding. *)
Fixpoint key_presses (keys : list string) (s : ArrayView)
  : option (av_result ArrayView) :=
  match keys with
  | [] => Some (Done s)
  | key :: rest =>
      match key_press key s with
      | Some (Done s') => key_presses rest s'
      | other => other
      end
  end.

(** The ranges the navigation fields stay in. *)
Record AvRange (s : ArrayView) : Prop := mkAvRange {
  avr_ndim : 2 ≤ av_ndim s;
  avr_slices : length (av_slices s) = length (av_shape s);
  avr_flips : length (av_flips s) = length (av_shape s);
  avr_flip_values : Forall (λ f, f = 1 ∨ f = -1) (av_flips s);
  avr_x : 0 ≤ av_x s < av_ndim s;
  avr_y : 0 ≤ av_y s < av_ndim s;
  avr_z : ∀ z, av_z s = Some z → 0 ≤ z < av_ndim s;
  avr_d : 0 ≤ av_d s < av_ndim s;
  avr_index : ∀ (i : nat) (v n : Z),
      av_slices s !! i = Some v → av_shape s !! i = Some n → 0 ≤ v < n;
  avr_entered : 0 ≤ av_entered_slice s;
  avr_colormap : 0 ≤ av_colormap_idx s < Z.of_nat (length colormaps)
}.


(** A five-axis example: shape (4, 5, 6, 7, 8), default axes. *)
Definition example_array_view : ArrayView :=
  {| av_shape := [4; 5; 6; 7; 8];
     av_slices := [2; 2; 3; 3; 4];
     av_flips := [1; 1; 1; 1; 1];
     av_x := 4; av_y := 3; av_z := None; av_c := None;
     av_d := 2;
     av_hide_axes := false; av_show_help := false; av_colormap_idx := 0;
     av_entering_slice := false; av_entered_slice := 0 |}.

(** * Basic facts *)

Lemma is_view_spec (r : Role) :
  is_view r = true ↔ r = view_x ∨ r = view_y ∨ r = view_grid.
Proof. destruct r; vm_compute; intuition congruence. Qed.

Lemma is_view_false (r : Role) :
  is_view r = false ↔ r = scroll ∨ r = fixed.
Proof. destruct r; vm_compute; intuition congruence. Qed.

Lemma list_pos_valid {A : Type} (l : list A) (i : Z) :
  0 ≤ i < Z.of_nat (length l) → list_pos l i = Some (Z.to_nat i).
Proof.
  intros Hi. unfold list_pos.
  destruct (0 <=? i) eqn:E1; [| apply Z.leb_gt in E1; lia].
  destruct (i <? Z.of_nat (length l)) eqn:E2; [done | apply Z.ltb_ge in E2; lia].
Qed.

Lemma list_pos_lt {A : Type} (l : list A) (i : Z) (k : nat) :
  list_pos l i = Some k → (k < length l)%nat.
Proof.
  unfold list_pos. intros H.
  repeat match type of H with
  | context [if ?b then _ else _] => destruct b eqn:?
  end; simplify_eq; lia.
Qed.

Lemma getitem_Ok {A : Type} (l : list A) (i : Z) (a : A) :
  getitem l i = Ok a ↔ ∃ k, list_pos l i = Some k ∧ l !! k = Some a.
Proof.
  unfold getitem. split.
  - destruct (list_pos l i) as [k|]; [| done].
    destruct (l !! k) eqn:E; [| done]. intros [= ->]. eauto.
  - intros (k & -> & ->). done.
Qed.

Lemma getitem_valid {A : Type} (l : list A) (i : Z) :
  0 ≤ i < Z.of_nat (length l) →
  ∃ a, l !! Z.to_nat i = Some a ∧ getitem l i = Ok a.
Proof.
  intros Hi. destruct (lookup_lt_is_Some_2 l (Z.to_nat i)) as [a Ha]; [lia |].
  exists a. split; [done |]. apply getitem_Ok. exists (Z.to_nat i).
  split; [by apply list_pos_valid | done].
Qed.

Lemma stop_if_playing_dims (s : Viewer) : dims (stop_if_playing s) = dims s.
Proof.
  unfold stop_if_playing, _toggle_playback.
  destruct (is_playing s); [| done]. simpl. by destruct (scroll_dim_idx s =? -1).
Qed.

Lemma stop_if_playing_scroll (s : Viewer) :
  scroll_dim_idx (stop_if_playing s) = scroll_dim_idx s.
Proof.
  unfold stop_if_playing, _toggle_playback.
  destruct (is_playing s); [| done]. simpl. by destruct (scroll_dim_idx s =? -1).
Qed.

Lemma stop_if_playing_Inv (s : Viewer) : Inv s → Inv (stop_if_playing s).
Proof.
  intros [].
  split; rewrite ?stop_if_playing_dims, ?stop_if_playing_scroll; done.
Qed.

Lemma find_role_Some (r : Role) (ds : list Dim) (i : nat) :
  find_role r ds = Some i ↔
  ∃ d, ds !! i = Some d ∧ d_role d = r
       ∧ ∀ j d', ds !! j = Some d' → (j < i)%nat → d_role d' ≠ r.
Proof.
  unfold find_role. split.
  - destruct (list_find _ ds) as [[k d]|] eqn:E; [| done].
    intros [= <-]. apply list_find_Some in E. exists d. naive_solver.
  - intros (d & H1 & H2 & H3).
    assert (list_find (λ d, d_role d = r) ds = Some (i, d)) as ->; [| done].
    apply list_find_Some. naive_solver.
Qed.

Lemma find_role_None (r : Role) (ds : list Dim) :
  find_role r ds = None ↔ ∀ i d, ds !! i = Some d → d_role d ≠ r.
Proof.
  unfold find_role. split.
  - destruct (list_find _ ds) as [[k d]|] eqn:E; [done |].
    intros _ i d Hd. rewrite list_find_None in E.
    rewrite Forall_lookup in E. by eapply E.
  - intros H.
    assert (list_find (λ d, d_role d = r) ds = None) as ->; [| done].
    apply list_find_None, Forall_lookup. naive_solver.
Qed.

(** * Initial role assignment *)

Lemma assign_loop_lookup (ndim k : Z) (shape : list Z) (i : nat) :
  assign_loop ndim k shape !! i =
  (λ size,
     {| d_role :=
          if k + Z.of_nat i =? 0 then view_x
          else if k + Z.of_nat i =? 1 then view_y
          else if (k + Z.of_nat i =? 2) && (2 <? ndim) then scroll
          else fixed;
        d_index := size `div` 2;
        d_size := size |}) <$> shape !! i.
Proof.
  revert k i. induction shape as [| size rest IH]; intros k i; [done |].
  destruct i as [| i]; simpl.
  - by rewrite Z.add_0_r.
  - rewrite IH. by replace (k + 1 + Z.of_nat i) with (k + Z.of_nat (S i)) by lia.
Qed.

Lemma assign_loop_length (ndim k : Z) (shape : list Z) :
  length (assign_loop ndim k shape) = length shape.
Proof. revert k. induction shape; intros k; simpl; [done | by rewrite IHshape]. Qed.

(** C6. For a shape of at least two axes the construction succeeds and the
    dimension list has one entry per axis: position 0 is [view_x],
    position 1 is [view_y], position 2 (present exactly when [ndim > 2]) is
    [scroll], every later position is [fixed], every index is
    [size // 2], and the cached scroll position is 2 or, for two axes, -1
    (no dimension scrolls).  For fewer than two axes the construction
    raises the [ValueError] the interface calls [InvalidShapeError]. *)
Theorem initial_roles_C6 (shape : list Z) :
  ((2 ≤ length shape)%nat →
     ∃ s, NDArrayViewer_init shape = Ok s
          ∧ length (dims s) = length shape
          ∧ (∀ (i : nat) (size : Z), shape !! i = Some size →
               dims s !! i = Some {| d_role := initial_role i;
                                     d_index := size `div` 2;
                                     d_size := size |})
          ∧ scroll_dim_idx s = (if decide (length shape = 2%nat) then -1 else 2)
          ∧ (length shape = 2%nat → count_role scroll (dims s) = 0%nat))
  ∧ ((length shape < 2)%nat →
     NDArrayViewer_init shape =
     Raise (ValueError ("Input data must have at least 2 dimensions, but got "
                          ++ str_of_Z (Z.of_nat (length shape)) ++ "."))).
Proof.
  split; intros Hn; unfold NDArrayViewer_init.
  - destruct (Z.of_nat (length shape) <? 2) eqn:E; [apply Z.ltb_lt in E; lia |].
    apply Z.ltb_ge in E. eexists. split; [done |].
    unfold _assign_initial_roles; simpl.
    split; [apply assign_loop_length |].
    assert (Hlk : ∀ (i : nat) (size : Z), shape !! i = Some size →
              assign_loop (Z.of_nat (length shape)) 0 shape !! i =
              Some {| d_role := initial_role i; d_index := size `div` 2;
                      d_size := size |}).
    { intros i size Hi. rewrite assign_loop_lookup, Hi. simpl. f_equal. f_equal.
      apply lookup_lt_Some in Hi.
      destruct i as [| [| [| i]]]; simpl; try done.
      - destruct (2 <? Z.of_nat (length shape)) eqn:E2; [done |].
        apply Z.ltb_ge in E2. lia.
      - repeat (case_match; try lia); done. }
    split; [exact Hlk |]. split.
    + unfold scroll_index_of. case_decide as Hlen.
      * destruct shape as [| a [| b [| c rest]]]; simpl in *; try lia; try done.
      * destruct shape as [| a [| b [| c rest]]]; simpl in *; try lia.
        destruct (2 <? _) eqn:E2; [done | apply Z.ltb_ge in E2; lia].
    + intros Hlen.
      destruct shape as [| a [| b [| c rest]]]; simpl in *; try lia; try done.
  - destruct (Z.of_nat (length shape) <? 2) eqn:E; [done |].
    apply Z.ltb_ge in E. lia.
Qed.

Lemma initial_roles_C6_witness :
  ∃ s, NDArrayViewer_init [8; 8; 5; 3] = Ok s
       ∧ length (dims s) = 4%nat
       ∧ (∀ (i : nat) (size : Z), [8; 8; 5; 3] !! i = Some size →
            dims s !! i = Some {| d_role := initial_role i;
                                  d_index := size `div` 2;
                                  d_size := size |})
       ∧ scroll_dim_idx s = 2
       ∧ (4%nat = 2%nat → count_role scroll (dims s) = 0%nat).
Proof.
  apply (proj1 (initial_roles_C6 [8; 8; 5; 3])). simpl. lia.
Defined.

(** The state built by the constructor satisfies the invariant set as soon
    as every axis is non-empty. *)
Lemma assign_loop_counts (ndim k : Z) (shape : list Z) :
  2 ≤ k →
  count_role view_x (assign_loop ndim k shape) = 0%nat
  ∧ count_role view_y (assign_loop ndim k shape) = 0%nat
  ∧ count_role view_grid (assign_loop ndim k shape) = 0%nat
  ∧ (count_role scroll (assign_loop ndim k shape) ≤ 1)%nat
  ∧ (3 ≤ k → count_role scroll (assign_loop ndim k shape) = 0%nat).
Proof.
  revert k. induction shape as [| size rest IH]; intros k Hk; simpl.
  - split_and!; done || lia.
  - destruct (IH (k + 1) ltac:(lia)) as (Hx & Hy & Hg & _ & Hs).
    replace (k =? 0) with false by (symmetry; apply Z.eqb_neq; lia).
    replace (k =? 1) with false by (symmetry; apply Z.eqb_neq; lia).
    destruct (decide (k = 2)) as [-> | Hne].
    + specialize (Hs ltac:(lia)). simpl.
      destruct (2 <? ndim); simpl; rewrite Hx, Hy, Hg, Hs; split_and!; lia.
    + replace (k =? 2) with false by (symmetry; apply Z.eqb_neq; lia).
      specialize (Hs ltac:(lia)). simpl. rewrite Hx, Hy, Hg, Hs.
      split_and!; lia.
Qed.

Lemma assign_loop_index_ok (ndim k : Z) (shape : list Z) :
  Forall (λ size, 0 < size) shape → Forall index_ok (assign_loop ndim k shape).
Proof.
  intros H. revert k. induction H as [| size rest Hsize Hrest IH]; intros k;
    simpl; constructor; [| apply IH].
  unfold index_ok. simpl. split.
  - apply Z.div_pos; lia.
  - apply Z.div_lt; lia.
Qed.

Lemma NDArrayViewer_init_Inv (shape : list Z) :
  (2 ≤ length shape)%nat → Forall (λ size, 0 < size) shape →
  ∃ s, NDArrayViewer_init shape = Ok s ∧ Inv s.
Proof.
  intros Hlen Hpos. unfold NDArrayViewer_init.
  destruct (Z.of_nat (length shape) <? 2) eqn:E; [apply Z.ltb_lt in E; lia |].
  eexists. split; [done |]. clear E.
  unfold _assign_initial_roles.
  generalize (Z.of_nat (length shape)). intros ndim.
  pose proof (assign_loop_index_ok ndim 0 shape Hpos) as Hok.
  destruct shape as [| a [| b rest]]; simpl in Hlen; try lia.
  destruct (assign_loop_counts ndim 2 rest ltac:(lia)) as (Hx & Hy & Hg & Hs & _).
  simpl in Hok |- *. change (0 + 1 + 1) with 2 in *.
  split; simpl; rewrite ?Hx, ?Hy, ?Hg; try done; lia.
Qed.

(** * Counting roles *)

Lemma count_role_lookup (r : Role) (ds : list Dim) (i : nat) (d : Dim) :
  ds !! i = Some d → d_role d = r → (0 < count_role r ds)%nat.
Proof.
  revert i. induction ds as [| a rest IH]; intros i Hi Hr; [done |].
  destruct i as [| i]; simpl in *.
  - simplify_eq. rewrite decide_True by done. lia.
  - specialize (IH _ Hi Hr). lia.
Qed.

Lemma count_role_zero (r : Role) (ds : list Dim) :
  count_role r ds = 0%nat ↔ find_role r ds = None.
Proof.
  rewrite find_role_None. split.
  - intros H0 i d Hi Hr. pose proof (count_role_lookup _ _ _ _ Hi Hr). lia.
  - induction ds as [| a rest IH]; intros H; [done |]. simpl.
    rewrite decide_False; [| by apply (H 0%nat a)].
    rewrite IH; [done |]. intros i d Hi. by apply (H (S i) d).
Qed.

Lemma count_role_find (r : Role) (ds : list Dim) :
  (0 < count_role r ds)%nat →
  ∃ i d, find_role r ds = Some i ∧ ds !! i = Some d ∧ d_role d = r.
Proof.
  intros Hc. destruct (find_role r ds) as [i |] eqn:E.
  - pose proof E as E'. apply find_role_Some in E' as (d & ? & ? & _). eauto.
  - apply count_role_zero in E. lia.
Qed.

Lemma count_role_insert (r : Role) (ds : list Dim) (k : nat) (d d' : Dim) :
  ds !! k = Some d →
  (count_role r (<[k := d']> ds) + (if decide (d_role d = r) then 1 else 0)
   = count_role r ds + (if decide (d_role d' = r) then 1 else 0))%nat.
Proof.
  revert k. induction ds as [| a rest IH]; intros k Hk; [done |].
  destruct k as [| k]; simpl in *.
  - simplify_eq. lia.
  - specialize (IH _ Hk). lia.
Qed.

(** With at most one holder of a role, positions holding it coincide. *)
Lemma count_role_unique (r : Role) (ds : list Dim) (i j : nat) (d d' : Dim) :
  (count_role r ds ≤ 1)%nat →
  ds !! i = Some d → d_role d = r →
  ds !! j = Some d' → d_role d' = r → i = j.
Proof.
  revert i j. induction ds as [| a rest IH]; intros i j Hc Hi Hr Hj Hr'; [done |].
  simpl in Hc. destruct i as [| i], j as [| j]; simpl in *; simplify_eq; try done.
  - rewrite decide_True in Hc by done.
    pose proof (count_role_lookup _ _ _ _ Hj Hr'). lia.
  - rewrite decide_True in Hc by done.
    pose proof (count_role_lookup _ _ _ _ Hi eq_refl). lia.
  - f_equal. eapply IH; eauto. lia.
Qed.

Lemma index_ok_geometry (ds ds' : list Dim) :
  map geometry ds' = map geometry ds → Forall index_ok ds → Forall index_ok ds'.
Proof.
  revert ds'. induction ds as [| a rest IH]; intros [| a' rest'] Hg Hf;
    simpl in *; try done.
  inversion Hf as [| ? ? Ha Hrest]; subst.
  assert (Hhd : geometry a' = geometry a) by congruence.
  assert (Htl : map geometry rest' = map geometry rest) by congruence.
  constructor; [| by apply IH].
  unfold index_ok, geometry in *.
  assert (d_index a' = d_index a) as -> by congruence.
  assert (d_size a' = d_size a) as -> by congruence.
  done.
Qed.

Lemma geometry_insert (ds : list Dim) (k : nat) (d : Dim) (r : Role) :
  ds !! k = Some d → map geometry (<[k := set_role r d]> ds) = map geometry ds.
Proof.
  revert k. induction ds as [| a rest IH]; intros k Hk; [done |].
  destruct k as [| k]; simpl in *.
  - by simplify_eq.
  - f_equal. by apply IH.
Qed.

(** * The re-partition loop *)

Lemma first_nonview_cons (d : Dim) (rest : list Dim) :
  first_nonview (d :: rest) =
  if is_view (d_role d) then S <$> first_nonview rest else Some 0%nat.
Proof.
  unfold first_nonview. simpl.
  destruct (is_view (d_role d)) eqn:E.
  - rewrite decide_False by congruence.
    by destruct (list_find _ rest) as [[? ?] |].
  - by rewrite decide_True.
Qed.

Lemma scroll_fixed_loop_length (f : bool) (ds : list Dim) :
  length (scroll_fixed_loop f ds) = length ds.
Proof.
  revert f. induction ds as [| d rest IH]; intros f; [done |]. simpl.
  destruct (is_view (d_role d)), f; simpl; by rewrite IH.
Qed.

Lemma scroll_fixed_loop_true_lookup (ds : list Dim) (i : nat) :
  scroll_fixed_loop true ds !! i =
  (λ d, if is_view (d_role d) then d else set_role fixed d) <$> ds !! i.
Proof.
  revert i. induction ds as [| d rest IH]; intros i; [done |]. simpl.
  destruct i as [| i]; destruct (is_view (d_role d)) eqn:E; simpl;
    rewrite ?E, ?IH; done.
Qed.

Lemma scroll_fixed_loop_false_lookup (ds : list Dim) (i : nat) :
  scroll_fixed_loop false ds !! i =
  (λ d, if is_view (d_role d) then d
        else if decide (first_nonview ds = Some i) then set_role scroll d
        else set_role fixed d) <$> ds !! i.
Proof.
  revert i. induction ds as [| d rest IH]; intros i; [done |].
  rewrite first_nonview_cons. simpl.
  destruct (is_view (d_role d)) eqn:E; simpl.
  - destruct i as [| i]; simpl; [by rewrite E |].
    rewrite IH. destruct (rest !! i) as [d' |]; [| done]. simpl.
    destruct (is_view (d_role d')); [done |].
    destruct (first_nonview rest) as [k |]; simpl; repeat case_decide;
      simplify_eq; done.
  - destruct i as [| i]; simpl; [by rewrite E |].
    rewrite scroll_fixed_loop_true_lookup.
    destruct (rest !! i) as [d' |]; [| done]. simpl.
    destruct (is_view (d_role d')); done.
Qed.

Lemma scroll_fixed_loop_count_view (r : Role) (f : bool) (ds : list Dim) :
  is_view r = true →
  count_role r (scroll_fixed_loop f ds) = count_role r ds.
Proof.
  intros Hr. revert f. induction ds as [| d rest IH]; intros f; [done |]. simpl.
  destruct (is_view (d_role d)) eqn:E; simpl.
  - by rewrite IH.
  - assert (d_role d ≠ r) by (intros Heq; rewrite Heq in E; congruence).
    destruct f; simpl; rewrite IH; repeat case_decide; subst;
      try done; vm_compute in Hr; done.
Qed.

Lemma scroll_fixed_loop_true_count (ds : list Dim) :
  count_role scroll (scroll_fixed_loop true ds) = 0%nat.
Proof.
  induction ds as [| d rest IH]; [done |]. simpl.
  destruct (is_view (d_role d)) eqn:E; simpl; rewrite IH.
  - rewrite decide_False; [done |].
    intros Hs. rewrite Hs in E. vm_compute in E. done.
  - done.
Qed.

Lemma scroll_fixed_loop_count_scroll (f : bool) (ds : list Dim) :
  (count_role scroll (scroll_fixed_loop f ds) ≤ 1)%nat.
Proof.
  destruct f; [rewrite scroll_fixed_loop_true_count; lia |].
  induction ds as [| d rest IH]; simpl; [lia |].
  destruct (is_view (d_role d)) eqn:E; simpl.
  - rewrite decide_False; [apply IH |].
    intros Hs. rewrite Hs in E. vm_compute in E. done.
  - rewrite scroll_fixed_loop_true_count. lia.
Qed.

Lemma scroll_fixed_loop_geometry (f : bool) (ds : list Dim) :
  map geometry (scroll_fixed_loop f ds) = map geometry ds.
Proof.
  revert f. induction ds as [| d rest IH]; intros f; [done |]. simpl.
  destruct (is_view (d_role d)), f; simpl; by rewrite IH.
Qed.

Lemma reassign_scroll_and_fixed_Inv (s : Viewer) :
  count_role view_x (dims s) = 1%nat →
  count_role view_y (dims s) = 1%nat →
  (count_role view_grid (dims s) ≤ 1)%nat →
  Forall index_ok (dims s) →
  Inv (_reassign_scroll_and_fixed s).
Proof.
  intros Hx Hy Hg Hi. split; simpl.
  - by rewrite scroll_fixed_loop_count_view.
  - by rewrite scroll_fixed_loop_count_view.
  - by rewrite scroll_fixed_loop_count_view.
  - apply scroll_fixed_loop_count_scroll.
  - eapply index_ok_geometry; [apply scroll_fixed_loop_geometry | done].
  - done.
Qed.

(** * Choosing the view axes *)



Lemma all_roles_loop_geometry (x y k : Z) (ds : list Dim) :
  map geometry (all_roles_loop x y k ds) = map geometry ds.
Proof. revert k. induction ds; intros k; simpl; [done | by rewrite IHds]. Qed.

Lemma all_roles_loop_count_x (x y k : Z) (ds : list Dim) :
  count_role view_x (all_roles_loop x y k ds) =
  if decide (k ≤ x < k + Z.of_nat (length ds)) then 1%nat else 0%nat.
Proof.
  revert k. induction ds as [| d rest IH]; intros k; simpl.
  - case_decide; [lia | done].
  - rewrite IH. destruct (k =? x) eqn:E1; simpl.
    + apply Z.eqb_eq in E1. repeat case_decide; try lia; done.
    + apply Z.eqb_neq in E1.
      destruct (k =? y); simpl; repeat case_decide; try lia; done.
Qed.

Lemma all_roles_loop_count_y (x y k : Z) (ds : list Dim) :
  x ≠ y →
  count_role view_y (all_roles_loop x y k ds) =
  if decide (k ≤ y < k + Z.of_nat (length ds)) then 1%nat else 0%nat.
Proof.
  intros Hxy. revert k. induction ds as [| d rest IH]; intros k; simpl.
  - case_decide; [lia | done].
  - rewrite IH. destruct (k =? x) eqn:E1; simpl.
    + apply Z.eqb_eq in E1. repeat case_decide; try lia; done.
    + destruct (k =? y) eqn:E2; simpl.
      * apply Z.eqb_eq in E2. repeat case_decide; try lia; done.
      * apply Z.eqb_neq in E2. repeat case_decide; try lia; done.
Qed.

Lemma all_roles_loop_count_grid (x y k : Z) (ds : list Dim) :
  count_role view_grid (all_roles_loop x y k ds) = 0%nat.
Proof.
  revert k. induction ds as [| d rest IH]; intros k; simpl; [done |].
  rewrite IH. destruct (k =? x); [done |]. destruct (k =? y); done.
Qed.

Lemma reassign_all_roles_dims (x y : Z) (s : Viewer) :
  dims (_reassign_all_roles x y s) =
  scroll_fixed_loop false (all_roles_loop x y 0 (dims s)).
Proof.
  unfold _reassign_all_roles. simpl. by rewrite stop_if_playing_dims.
Qed.

Lemma reassign_all_roles_no_grid (x y : Z) (s : Viewer) :
  count_role view_grid (dims (_reassign_all_roles x y s)) = 0%nat.
Proof.
  rewrite reassign_all_roles_dims.
  rewrite scroll_fixed_loop_count_view by done.
  apply all_roles_loop_count_grid.
Qed.

Lemma reassign_all_roles_Inv (x y : Z) (s : Viewer) :
  valid_dim s x → valid_dim s y → x ≠ y →
  Forall index_ok (dims s) →
  Inv (_reassign_all_roles x y s).
Proof.
  unfold valid_dim. intros Hx Hy Hxy Hi. unfold _reassign_all_roles.
  apply reassign_scroll_and_fixed_Inv; simpl; rewrite stop_if_playing_dims.
  - rewrite all_roles_loop_count_x. by rewrite decide_True by lia.
  - rewrite all_roles_loop_count_y by done. by rewrite decide_True by lia.
  - rewrite all_roles_loop_count_grid. lia.
  - eapply index_ok_geometry; [apply all_roles_loop_geometry | done].
Qed.


(** Under the invariant both view roles are found, at distinct positions. *)
Lemma Inv_view_positions (s : Viewer) :
  Inv s →
  ∃ x y : nat,
    find_role view_x (dims s) = Some x ∧ find_role view_y (dims s) = Some y
    ∧ x ≠ y ∧ (x < length (dims s))%nat ∧ (y < length (dims s))%nat.
Proof.
  intros HI.
  destruct (count_role_find view_x (dims s)) as (x & dx & Hfx & Hdx & Hrx);
    [rewrite (inv_x _ HI); lia |].
  destruct (count_role_find view_y (dims s)) as (y & dy & Hfy & Hdy & Hry);
    [rewrite (inv_y _ HI); lia |].
  exists x, y. repeat split; try done.
  - intros ->. rewrite Hdx in Hdy. simplify_eq. congruence.
  - by eapply lookup_lt_Some.
  - by eapply lookup_lt_Some.
Qed.

Lemma set_view_dimension_from_button_Ok (n axis : Z) (s : Viewer) :
  Inv s → valid_dim s n → axis = 0 ∨ axis = 1 →
  ∃ x y, valid_dim s x ∧ valid_dim s y ∧ x ≠ y
         ∧ _set_view_dimension_from_button n axis s = Ok (_reassign_all_roles x y s).
Proof.
  intros HI Hn Hax.
  destruct (Inv_view_positions s HI) as (x & y & Hfx & Hfy & Hxy & Hx & Hy).
  unfold _set_view_dimension_from_button, next_role. rewrite Hfx, Hfy. simpl.
  unfold valid_dim in *.
  destruct Hax as [-> | ->]; simpl.
  - destruct (n =? Z.of_nat y) eqn:E; simpl.
    + exists (Z.of_nat y), (Z.of_nat x). repeat split; try lia; done.
    + apply Z.eqb_neq in E. exists n, (Z.of_nat y). repeat split; try lia; done.
  - destruct (n =? Z.of_nat x) eqn:E; simpl.
    + exists (Z.of_nat y), (Z.of_nat x). repeat split; try lia; done.
    + apply Z.eqb_neq in E. exists (Z.of_nat x), n. repeat split; try lia; done.
Qed.

(** C10. Every call of [_reassign_all_roles], and so every request the
    prompt accepts and every view-button press, leaves no dimension with the
    role [view_grid], whichever dimension held it before. *)
Theorem set_view_axes_clears_grid_C10 :
  (∀ (x_idx y_idx : Z) (s : Viewer),
     count_role view_grid (dims (_reassign_all_roles x_idx y_idx s)) = 0%nat
     ∧ ∀ (i : nat) (d : Dim),
         dims (_reassign_all_roles x_idx y_idx s) !! i = Some d →
         d_role d ≠ view_grid)
  ∧ (∀ (parts : list (option Z)) (s s' : Viewer),
       view_dims_from_parts parts s = Ok s' →
       count_role view_grid (dims s') = 0%nat)
  ∧ (∀ (new_dim_idx axis : Z) (s s' : Viewer),
       _set_view_dimension_from_button new_dim_idx axis s = Ok s' →
       count_role view_grid (dims s') = 0%nat).
Proof.
  split; [| split].
  - intros x y s. split; [apply reassign_all_roles_no_grid |].
    intros i d Hd Hr.
    pose proof (count_role_lookup _ _ _ _ Hd Hr) as Hc.
    rewrite reassign_all_roles_no_grid in Hc. lia.
  - intros parts s s'. unfold view_dims_from_parts.
    destruct parts as [| p0 [| p1 [| ? ?]]]; try done.
    destruct p0 as [x |], p1 as [y |]; simpl; try done.
    repeat (case_match; try done).
    intros [= <-]. apply reassign_all_roles_no_grid.
  - intros n axis s s'. unfold _set_view_dimension_from_button, next_role.
    destruct (find_role view_x (dims s)); simpl; [| done].
    destruct (find_role view_y (dims s)); simpl; [| done].
    repeat (case_match; try done); intros [= <-];
      apply reassign_all_roles_no_grid.
Qed.

Lemma set_view_axes_clears_grid_C10_witness :
  view_dims_from_parts [Some 1; Some 0] example_grid_state
  = Ok example_grid_state_swapped
  ∧ count_role view_grid (dims example_grid_state_swapped) = 0%nat.
Proof.
  split; [reflexivity |].
  apply (proj1 (proj2 set_view_axes_clears_grid_C10)
           [Some 1; Some 0] example_grid_state example_grid_state_swapped).
  reflexivity.
Defined.

(** * Grid toggle and scroll selection *)

Lemma lookup_map {A B : Type} (f : A → B) (l : list A) (i : nat) :
  map f l !! i = f <$> l !! i.
Proof.
  revert i. induction l as [| a l IH]; intros [| i]; simpl; try done.
Qed.

Lemma count_role_insert_other (r : Role) (ds : list Dim) (k : nat) (d d' : Dim) :
  ds !! k = Some d → d_role d ≠ r → d_role d' ≠ r →
  count_role r (<[k := d']> ds) = count_role r ds.
Proof.
  intros Hk H1 H2. pose proof (count_role_insert r ds k d d' Hk) as H.
  rewrite !decide_False in H by done. lia.
Qed.

Lemma set_role_at_Ok (ds : list Dim) (i : Z) (r : Role) (k : nat) (d : Dim) :
  list_pos ds i = Some k → ds !! k = Some d →
  set_role_at ds i r = Ok (<[k := set_role r d]> ds).
Proof.
  intros Hp Hk. unfold set_role_at, getitem, setitem. rewrite Hp, Hk. simpl.
  by rewrite ?Hp.
Qed.

Lemma list_pos_length {A B : Type} (l : list A) (l' : list B) (i : Z) :
  length l = length l' → list_pos l i = list_pos l' i.
Proof. intros H. unfold list_pos. by rewrite H. Qed.

Lemma clear_grid_count_grid (ds : list Dim) :
  count_role view_grid (clear_grid ds) = 0%nat.
Proof.
  unfold clear_grid. induction ds as [| d rest IH]; simpl; [done |].
  rewrite IH. destruct (decide (d_role d = view_grid)) as [E | E]; simpl.
  - done.
  - by rewrite decide_False.
Qed.

Lemma clear_grid_count (r : Role) (ds : list Dim) :
  r ≠ view_grid → r ≠ fixed →
  count_role r (clear_grid ds) = count_role r ds.
Proof.
  intros H1 H2. unfold clear_grid.
  induction ds as [| d rest IH]; simpl; [done |].
  rewrite IH. destruct (decide (d_role d = view_grid)) as [E | E]; simpl; [| done].
  rewrite E. by rewrite !decide_False by done.
Qed.

Lemma clear_grid_geometry (ds : list Dim) :
  map geometry (clear_grid ds) = map geometry ds.
Proof.
  unfold clear_grid. induction ds as [| d rest IH]; simpl; [done |].
  rewrite IH. by destruct (decide (d_role d = view_grid)).
Qed.

Lemma toggle_grid_dimension_Inv (dim_idx : Z) (s : Viewer) :
  Inv s → valid_dim s dim_idx →
  ∃ s', _toggle_grid_dimension dim_idx s = Ok s' ∧ Inv s'.
Proof.
  intros HI Hv. apply stop_if_playing_Inv in HI.
  unfold valid_dim in Hv. rewrite <- stop_if_playing_dims in Hv.
  unfold _toggle_grid_dimension.
  set (s0 := stop_if_playing s) in *. destruct HI as [Hx Hy Hg Hs Hi Hc].
  destruct (getitem_valid _ _ Hv) as (d & Hd & ->). simpl.
  pose proof (list_pos_valid _ _ Hv) as Hp.
  case_decide as Hrole.
  - rewrite (set_role_at_Ok _ _ _ _ _ Hp Hd). simpl.
    eexists. split; [done |].
    apply reassign_scroll_and_fixed_Inv; simpl.
    + rewrite (count_role_insert_other _ _ _ _ _ Hd); [done | congruence | done].
    + rewrite (count_role_insert_other _ _ _ _ _ Hd); [done | congruence | done].
    + pose proof (count_role_insert view_grid _ _ _ (set_role scroll d) Hd) as H.
      rewrite Hrole in H. simpl in H. lia.
    + eapply index_ok_geometry; [by apply geometry_insert | done].
  - destruct (is_view (d_role d)) eqn:Ev; simpl.
    + exists s0. split; [done |]. by split.
    + assert (Hd' : clear_grid (dims s0) !! Z.to_nat dim_idx = Some d).
      { unfold clear_grid. rewrite lookup_map, Hd. simpl.
        by rewrite decide_False. }
      assert (Hp' : list_pos (clear_grid (dims s0)) dim_idx
                    = Some (Z.to_nat dim_idx)).
      { rewrite <- Hp. apply list_pos_length. unfold clear_grid.
        by rewrite length_map. }
      rewrite (set_role_at_Ok _ _ _ _ _ Hp' Hd'). simpl.
      eexists. split; [done |].
      apply is_view_false in Ev.
      apply reassign_scroll_and_fixed_Inv; simpl.
      * rewrite (count_role_insert_other _ _ _ _ _ Hd');
          [by rewrite clear_grid_count | destruct Ev; congruence | done].
      * rewrite (count_role_insert_other _ _ _ _ _ Hd');
          [by rewrite clear_grid_count | destruct Ev; congruence | done].
      * pose proof (count_role_insert view_grid _ _ _ (set_role view_grid d) Hd')
          as H.
        rewrite clear_grid_count_grid in H. simpl in H. lia.
      * eapply index_ok_geometry; [by apply geometry_insert |].
        eapply index_ok_geometry; [apply clear_grid_geometry | done].
Qed.

Lemma set_scroll_dimension_Inv (new_scroll_idx : Z) (s : Viewer) :
  Inv s → valid_dim s new_scroll_idx →
  ∃ s', _set_scroll_dimension new_scroll_idx s = Ok s' ∧ Inv s'.
Proof.
  intros HI Hv. apply stop_if_playing_Inv in HI.
  unfold valid_dim in Hv. rewrite <- stop_if_playing_dims in Hv.
  unfold _set_scroll_dimension.
  set (s0 := stop_if_playing s) in *. pose proof HI as [Hx Hy Hg Hs Hi Hc].
  destruct (getitem_valid _ _ Hv) as (d & Hd & ->). simpl.
  pose proof (list_pos_valid _ _ Hv) as Hp.
  destruct (is_view (d_role d)) eqn:Ev; [by exists s0 |].
  destruct (scroll_dim_idx s0 =? new_scroll_idx) eqn:Eold; [by exists s0 |].
  apply Z.eqb_neq in Eold. apply is_view_false in Ev.
  assert (Hfinish : ∀ ds1 : list Dim,
            ds1 !! Z.to_nat new_scroll_idx = Some d →
            length ds1 = length (dims s0) →
            count_role view_x ds1 = 1%nat →
            count_role view_y ds1 = 1%nat →
            (count_role view_grid ds1 ≤ 1)%nat →
            count_role scroll ds1 = 0%nat →
            Forall index_ok ds1 →
            ∃ s', (ds ← set_role_at ds1 new_scroll_idx scroll;
                   Ok (_update_scroll_dim_index (with_dims ds s0))) = Ok s'
                  ∧ Inv s').
  { intros ds1 Hd1 Hlen H1 H2 H3 H4 H5.
    assert (Hp1 : list_pos ds1 new_scroll_idx = Some (Z.to_nat new_scroll_idx)).
    { rewrite <- Hp. by apply list_pos_length. }
    rewrite (set_role_at_Ok _ _ _ _ _ Hp1 Hd1). simpl.
    eexists. split; [done |]. split; simpl.
    - rewrite (count_role_insert_other _ _ _ _ _ Hd1);
        [done | destruct Ev; congruence | done].
    - rewrite (count_role_insert_other _ _ _ _ _ Hd1);
        [done | destruct Ev; congruence | done].
    - rewrite (count_role_insert_other _ _ _ _ _ Hd1);
        [done | destruct Ev; congruence | done].
    - pose proof (count_role_insert scroll _ _ _ (set_role scroll d) Hd1) as H.
      simpl in H. lia.
    - eapply index_ok_geometry; [by apply geometry_insert | done].
    - done. }
  rewrite Hc in Eold |- *. unfold scroll_index_of in *.
  destruct (find_role scroll (dims s0)) as [o |] eqn:Ef; simpl.
  - replace (Z.of_nat o =? -1) with false by (symmetry; apply Z.eqb_neq; lia).
    simpl. apply find_role_Some in Ef as (d_old & Ho & Hro & _).
    assert (Hpo : list_pos (dims s0) (Z.of_nat o) = Some o).
    { rewrite list_pos_valid; [by rewrite Nat2Z.id |].
      apply lookup_lt_Some in Ho. lia. }
    rewrite (set_role_at_Ok _ _ _ _ _ Hpo Ho). simpl.
    apply Hfinish.
    + rewrite list_lookup_insert_ne; [done | lia].
    + apply length_insert.
    + rewrite (count_role_insert_other _ _ _ _ _ Ho); [done | congruence | done].
    + rewrite (count_role_insert_other _ _ _ _ _ Ho); [done | congruence | done].
    + rewrite (count_role_insert_other _ _ _ _ _ Ho); [done | congruence | done].
    + pose proof (count_role_insert scroll _ _ _ (set_role fixed d_old) Ho) as H.
      simpl in H. rewrite decide_True in H by done. lia.
    + eapply index_ok_geometry; [by apply geometry_insert | done].
  - apply Hfinish; try done. by apply count_role_zero.
Qed.

Lemma cyclable_from_bounds (k : Z) (ds : list Dim) :
  Forall (λ t, k ≤ t < k + Z.of_nat (length ds)) (cyclable_from k ds).
Proof.
  revert k. induction ds as [| d rest IH]; intros k; simpl; [constructor |].
  assert (Forall (λ t, k ≤ t < k + Z.of_nat (S (length rest)))
            (cyclable_from (k + 1) rest)).
  { eapply Forall_impl; [| exact (IH (k + 1))]. simpl. intros; lia. }
  destruct (is_view (d_role d)); simpl; [done |].
  constructor; [lia | done].
Qed.

Lemma py_index_from_cases (k : Z) (l : list Z) (v : Z) :
  (∃ p, py_index_from k l v = Ok p ∧ k ≤ p < k + Z.of_nat (length l))
  ∨ py_index_from k l v = Raise (ValueError "is not in list").
Proof.
  revert k. induction l as [| a rest IH]; intros k; simpl; [by right |].
  destruct (a =? v).
  - left. exists k. split; [done | lia].
  - destruct (IH (k + 1)) as [(p & Hp & Hb) | Hr]; [left | by right].
    exists p. split; [done | lia].
Qed.

Lemma getitem_elem_of {A : Type} (l : list A) (i : Z) :
  0 ≤ i < Z.of_nat (length l) → ∃ a, getitem l i = Ok a ∧ a ∈ l.
Proof.
  intros Hi. destruct (getitem_valid l i Hi) as (a & Ha & Hg).
  exists a. split; [done |]. by eapply list_elem_of_lookup_2.
Qed.

Lemma change_scroll_dimension_by_cycle_Inv (direction : string) (s : Viewer) :
  Inv s →
  ∃ s', _change_scroll_dimension_by_cycle direction s = Ok s' ∧ Inv s'.
Proof.
  intros HI. apply stop_if_playing_Inv in HI.
  unfold _change_scroll_dimension_by_cycle.
  set (s0 := stop_if_playing s) in *.
  set (cyc := cyclable_from 0 (dims s0)).
  destruct (Z.of_nat (length cyc) <? 2) eqn:Elen; [by exists s0 |].
  apply Z.ltb_ge in Elen.
  assert (Htarget : ∀ p, 0 ≤ p < Z.of_nat (length cyc) →
            ∃ s', (target ← getitem cyc p; _set_scroll_dimension target s0) = Ok s'
                  ∧ Inv s').
  { intros p Hp. destruct (getitem_elem_of cyc p Hp) as (t & -> & Ht). simpl.
    apply set_scroll_dimension_Inv; [done |].
    pose proof (cyclable_from_bounds 0 (dims s0)) as Hb.
    rewrite Forall_forall in Hb. apply list_elem_of_In in Ht.
    specialize (Hb t Ht).
    unfold valid_dim. lia. }
  destruct (py_index_from_cases 0 cyc (scroll_dim_idx s0))
    as [(p & -> & Hp) | ->]; simpl.
  - set (step := if String.eqb direction "next" then 1 else -1).
    destruct (Htarget ((p + step) `mod` Z.of_nat (length cyc)))
      as (s' & Hs' & HI'); [apply Z.mod_pos_bound; lia |].
    exists s'. split; [| done]. rewrite Hs'. done.
  - apply Htarget. lia.
Qed.

(** * The re-partition policy *)

Lemma scroll_fixed_loop_first_nonview (f : bool) (ds : list Dim) :
  first_nonview (scroll_fixed_loop f ds) = first_nonview ds.
Proof.
  revert f. induction ds as [| d rest IH]; intros f; [done |]. simpl.
  destruct (is_view (d_role d)) eqn:E; simpl.
  - by rewrite !first_nonview_cons, E, IH.
  - destruct f; simpl; rewrite !first_nonview_cons, E; simpl; done.
Qed.

Lemma reassign_scroll_and_fixed_lookup (s : Viewer) (i : nat) (d : Dim) :
  dims s !! i = Some d →
  dims (_reassign_scroll_and_fixed s) !! i =
  Some (if is_view (d_role d) then d
        else if decide (first_nonview (dims s) = Some i) then set_role scroll d
        else set_role fixed d).
Proof.
  intros Hd. simpl. by rewrite scroll_fixed_loop_false_lookup, Hd.
Qed.

Lemma reassign_scroll_and_fixed_partitioned (s : Viewer) :
  partitioned (dims (_reassign_scroll_and_fixed s)).
Proof.
  intros i d. simpl. rewrite scroll_fixed_loop_first_nonview.
  rewrite scroll_fixed_loop_false_lookup.
  destruct (dims s !! i) as [d0 |]; simpl; [| done].
  destruct (is_view (d_role d0)) eqn:E.
  - intros [= <-]. congruence.
  - case_decide; intros [= <-]; done.
Qed.

(** C3. [_reassign_scroll_and_fixed] walks the dimensions in ascending
    order and leaves every view role ([view_x], [view_y], [view_grid])
    alone; the first dimension without a view role becomes [scroll] and
    every later one without a view role becomes [fixed].  The grid toggle,
    whenever it changes a role, and [_reassign_all_roles] end with this
    re-partition.  For shape (8, 8, 5, 3) the initial roles are
    [view_x, view_y, scroll, fixed] and toggling the grid on dimension 3
    gives [view_x, view_y, scroll, view_grid]. *)
Theorem repartition_policy_C3 :
  (∀ s : Viewer,
     length (dims (_reassign_scroll_and_fixed s)) = length (dims s)
     ∧ (∀ (i : nat) (d : Dim), dims s !! i = Some d →
          dims (_reassign_scroll_and_fixed s) !! i =
          Some (if is_view (d_role d) then d
                else if decide (first_nonview (dims s) = Some i)
                     then set_role scroll d
                     else set_role fixed d))
     ∧ partitioned (dims (_reassign_scroll_and_fixed s)))
  ∧ (∀ (dim_idx : Z) (s s' : Viewer) (d : Dim),
       getitem (dims s) dim_idx = Ok d →
       d_role d ≠ view_x → d_role d ≠ view_y →
       _toggle_grid_dimension dim_idx s = Ok s' →
       partitioned (dims s'))
  ∧ (∀ (x_idx y_idx : Z) (s : Viewer),
       partitioned (dims (_reassign_all_roles x_idx y_idx s)))
  ∧ NDArrayViewer_init [8; 8; 5; 3] = Ok example_initial_state
  ∧ _toggle_grid_dimension 3 example_initial_state = Ok example_toggled_state.
Proof.
  split; [| split; [| split; [| split]]].
  - intros s. split; [| split].
    + simpl. apply scroll_fixed_loop_length.
    + apply reassign_scroll_and_fixed_lookup.
    + apply reassign_scroll_and_fixed_partitioned.
  - intros dim_idx s s' d Hd Hx Hy. unfold _toggle_grid_dimension.
    rewrite stop_if_playing_dims, Hd. simpl.
    case_decide as Hg.
    + destruct (set_role_at _ _ _); simpl; [| done].
      intros [= <-]. apply reassign_scroll_and_fixed_partitioned.
    + destruct (is_view (d_role d)) eqn:Ev; simpl.
      * apply is_view_spec in Ev. destruct Ev as [? | [? | ?]]; done.
      * destruct (set_role_at _ _ _); simpl; [| done].
        intros [= <-]. apply reassign_scroll_and_fixed_partitioned.
  - intros x y s. apply reassign_scroll_and_fixed_partitioned.
  - reflexivity.
  - reflexivity.
Qed.

Lemma repartition_policy_C3_witness :
  partitioned (dims example_toggled_state).
Proof.
  apply (proj1 (proj2 repartition_policy_C3) 3 example_initial_state
           example_toggled_state (mkDim fixed 1 3));
    [reflexivity | discriminate | discriminate | reflexivity].
Defined.

(** * The invariant set is preserved *)

Lemma view_dims_from_parts_valid (x y : Z) (s : Viewer) :
  valid_dim s x → valid_dim s y → x ≠ y →
  view_dims_from_parts [Some x; Some y] s = Ok (_reassign_all_roles x y s).
Proof.
  unfold valid_dim. intros Hx Hy Hxy. unfold view_dims_from_parts. simpl.
  replace (0 <=? x) with true by (symmetry; apply Z.leb_le; lia).
  replace (x <? Z.of_nat (length (dims s))) with true
    by (symmetry; apply Z.ltb_lt; lia).
  replace (0 <=? y) with true by (symmetry; apply Z.leb_le; lia).
  replace (y <? Z.of_nat (length (dims s))) with true
    by (symmetry; apply Z.ltb_lt; lia).
  simpl. by replace (x =? y) with false by (symmetry; apply Z.eqb_neq; lia).
Qed.

(** C4. Started in a state that satisfies the invariant set (one [view_x],
    one [view_y], at most one [view_grid], at most one [scroll], every
    index within its size, and the cached scroll position in step with the
    roles), each role operation called with positions of the dimension list
    returns normally and its result satisfies the invariant set again:
    setting the view axes to two different positions (directly, through the
    prompt, or through a view button), toggling the grid, choosing the
    scroll dimension, and cycling it. *)
Theorem role_operations_keep_invariants_C4 (s : Viewer) :
  Inv s →
  (∀ x_idx y_idx : Z,
     valid_dim s x_idx → valid_dim s y_idx → x_idx ≠ y_idx →
     Inv (_reassign_all_roles x_idx y_idx s)
     ∧ view_dims_from_parts [Some x_idx; Some y_idx] s
       = Ok (_reassign_all_roles x_idx y_idx s))
  ∧ (∀ new_dim_idx axis : Z,
       valid_dim s new_dim_idx → axis = 0 ∨ axis = 1 →
       ∃ s', _set_view_dimension_from_button new_dim_idx axis s = Ok s' ∧ Inv s')
  ∧ (∀ dim_idx : Z,
       valid_dim s dim_idx →
       ∃ s', _toggle_grid_dimension dim_idx s = Ok s' ∧ Inv s')
  ∧ (∀ new_scroll_idx : Z,
       valid_dim s new_scroll_idx →
       ∃ s', _set_scroll_dimension new_scroll_idx s = Ok s' ∧ Inv s')
  ∧ (∀ direction : string,
       ∃ s', _change_scroll_dimension_by_cycle direction s = Ok s' ∧ Inv s').
Proof.
  intros HI. split; [| split; [| split; [| split]]].
  - intros x y Hx Hy Hxy. split.
    + apply reassign_all_roles_Inv; try done. apply (inv_index _ HI).
    + by apply view_dims_from_parts_valid.
  - intros n axis Hn Hax.
    destruct (set_view_dimension_from_button_Ok n axis s HI Hn Hax)
      as (x & y & Hx & Hy & Hxy & ->).
    eexists. split; [done |].
    apply reassign_all_roles_Inv; try done. apply (inv_index _ HI).
  - intros i Hi. by apply toggle_grid_dimension_Inv.
  - intros i Hi. by apply set_scroll_dimension_Inv.
  - intros direction. by apply change_scroll_dimension_by_cycle_Inv.
Qed.

Lemma example_initial_state_Inv : Inv example_initial_state.
Proof.
  split; simpl; try done; try lia.
  repeat constructor; simpl; lia.
Qed.

Lemma role_operations_keep_invariants_C4_witness :
  ∃ s', _toggle_grid_dimension 3 example_initial_state = Ok s' ∧ Inv s'.
Proof.
  apply (proj1 (proj2 (proj2
           (role_operations_keep_invariants_C4 example_initial_state
              example_initial_state_Inv)))).
  unfold valid_dim. simpl. lia.
Defined.

(** * Swapping the view axes *)







(** * Rejected requests *)




(** * Shape of an extracted slice *)

Lemma map_insert {A B : Type} (f : A → B) (l : list A) (k : nat) (a : A) :
  map f (<[k := a]> l) = <[k := f a]> (map f l).
Proof.
  revert k. induction l as [| b l IH]; intros [| k]; simpl; try done.
  by rewrite IH.
Qed.

Lemma index_shape_default (ds : list Dim) :
  Forall index_ok ds →
  index_shape (map d_size ds) (default_slicer ds) = Ok (view_sizes ds).
Proof.
  unfold default_slicer.
  induction 1 as [| d rest Hd Hrest IH]; [done |]. simpl.
  destruct (is_view (d_role d)); simpl.
  - by rewrite IH.
  - unfold index_ok in Hd.
    replace (- d_size d <=? d_index d) with true by (symmetry; apply Z.leb_le; lia).
    replace (d_index d <? d_size d) with true by (symmetry; apply Z.ltb_lt; lia).
    done.
Qed.

Lemma view_sizes_none (ds : list Dim) :
  (∀ r, is_view r = true → count_role r ds = 0%nat) → view_sizes ds = [].
Proof.
  induction ds as [| d rest IH]; intros H; [done |]. simpl.
  destruct (is_view (d_role d)) eqn:E.
  - specialize (H _ E). simpl in H. rewrite decide_True in H by done. lia.
  - apply IH. intros r Hr. specialize (H r Hr). simpl in H. lia.
Qed.

Lemma view_sizes_single (r : Role) (ds : list Dim) (k : nat) (d : Dim) :
  (∀ r', is_view r' = true → r' ≠ r → count_role r' ds = 0%nat) →
  count_role r ds = 1%nat →
  ds !! k = Some d → d_role d = r → is_view r = true →
  view_sizes ds = [d_size d].
Proof.
  intros Hothers Hone Hk Hr Hv. revert k Hothers Hone Hk.
  induction ds as [| a rest IH]; intros k Hothers Hone Hk; [done |].
  simpl in Hone. destruct k as [| k]; simpl in Hk.
  - injection Hk as ->. simpl. rewrite Hr, Hv. f_equal.
    rewrite decide_True in Hone by done.
    apply view_sizes_none. intros r' Hr'.
    destruct (decide (r' = r)) as [-> | Hne]; [lia |].
    specialize (Hothers r' Hr' Hne). simpl in Hothers. lia.
  - pose proof (count_role_lookup _ _ _ _ Hk Hr) as Hpos.
    destruct (decide (d_role a = r)) as [E | E]; [lia |].
    simpl. destruct (is_view (d_role a)) eqn:Ea.
    + specialize (Hothers _ Ea E). simpl in Hothers.
      rewrite decide_True in Hothers by done. lia.
    + apply (IH k); try done; try lia.
      intros r' Hr' Hne. specialize (Hothers r' Hr' Hne). simpl in Hothers. lia.
Qed.

Lemma view_sizes_xy (ds : list Dim) (i j : nat) (dx dy : Dim) :
  count_role view_x ds = 1%nat →
  count_role view_y ds = 1%nat →
  count_role view_grid ds = 0%nat →
  ds !! i = Some dx → d_role dx = view_x →
  ds !! j = Some dy → d_role dy = view_y →
  view_sizes ds = if Z.of_nat j <? Z.of_nat i
                  then [d_size dy; d_size dx]
                  else [d_size dx; d_size dy].
Proof.
  revert i j. induction ds as [| a rest IH]; intros i j Hx Hy Hg Hi Hrx Hj Hry;
    [done |].
  simpl in Hx, Hy, Hg.
  destruct i as [| i], j as [| j]; simpl in Hi, Hj; simplify_eq.
  - congruence.
  - replace (Z.of_nat (S j) <? Z.of_nat 0) with false
      by (symmetry; apply Z.ltb_ge; lia).
    simpl. rewrite Hrx. simpl. f_equal.
    rewrite Hrx in *. simpl in *.
    apply (view_sizes_single view_y rest j dy); try done; try lia.
    intros r' Hr' Hne. destruct r'; try done; lia.
  - replace (Z.of_nat 0 <? Z.of_nat (S i)) with true
      by (symmetry; apply Z.ltb_lt; lia).
    simpl. rewrite Hry. simpl. f_equal.
    rewrite Hry in *. simpl in *.
    apply (view_sizes_single view_x rest i dx); try done; try lia.
    intros r' Hr' Hne. destruct r'; try done; lia.
  - pose proof (count_role_lookup _ _ _ _ Hi Hrx).
    pose proof (count_role_lookup _ _ _ _ Hj Hry).
    destruct (decide (d_role a = view_x)); [lia |].
    destruct (decide (d_role a = view_y)); [lia |].
    destruct (decide (d_role a = view_grid)); [lia |].
    assert (Ea : is_view (d_role a) = false)
      by (destruct (d_role a); done).
    simpl. rewrite Ea.
    rewrite (IH i j); try done; try lia.
    replace (Z.of_nat (S j) <? Z.of_nat (S i)) with (Z.of_nat j <? Z.of_nat i);
      [done |].
    destruct (Z.of_nat j <? Z.of_nat i) eqn:E; symmetry.
    + apply Z.ltb_lt in E. apply Z.ltb_lt. lia.
    + apply Z.ltb_ge in E. apply Z.ltb_ge. lia.
Qed.

(** Positions of the view roles under unique holders. *)
Lemma find_role_unique (r : Role) (ds : list Dim) (i : nat) (d : Dim) :
  (count_role r ds ≤ 1)%nat → ds !! i = Some d → d_role d = r →
  find_role r ds = Some i.
Proof.
  intros Hc Hd Hr. apply find_role_Some. exists d. split_and!; try done.
  intros j d' Hj Hlt Hr'.
  pose proof (count_role_unique r ds i j d d' Hc Hd Hr Hj Hr'). lia.
Qed.

(** Pinning the grid dimension leaves exactly the two view axes. *)
Lemma pinned_counts (ds : list Dim) (g : nat) (dg : Dim) (i : Z) :
  ds !! g = Some dg → d_role dg = view_grid →
  count_role view_x (<[g := pinned i dg]> ds) = count_role view_x ds
  ∧ count_role view_y (<[g := pinned i dg]> ds) = count_role view_y ds
  ∧ (count_role view_grid (<[g := pinned i dg]> ds) + 1
     = count_role view_grid ds)%nat.
Proof.
  intros Hg Hr. split_and!.
  - by rewrite (count_role_insert_other _ _ _ _ _ Hg) by (done || congruence).
  - by rewrite (count_role_insert_other _ _ _ _ _ Hg) by (done || congruence).
  - pose proof (count_role_insert view_grid _ _ _ (pinned i dg) Hg) as H.
    rewrite Hr in H. simpl in H. lia.
Qed.

Lemma tile_slicer_pinned (ds : list Dim) (g : nat) (dg : Dim) (i : Z) :
  ds !! g = Some dg →
  tile_slicer ds g i = default_slicer (<[g := pinned i dg]> ds)
  ∧ map d_size (<[g := pinned i dg]> ds) = map d_size ds.
Proof.
  intros Hg. unfold tile_slicer, default_slicer. rewrite !map_insert. simpl.
  split; [done |]. apply list_insert_id. by rewrite lookup_map, Hg.
Qed.

Lemma index_shape_tile (ds : list Dim) (g i j : nat) (dg dx dy : Dim) (k : Z) :
  count_role view_x ds = 1%nat →
  count_role view_y ds = 1%nat →
  (count_role view_grid ds ≤ 1)%nat →
  Forall index_ok ds →
  ds !! g = Some dg → d_role dg = view_grid →
  ds !! i = Some dx → d_role dx = view_x →
  ds !! j = Some dy → d_role dy = view_y →
  0 ≤ k < d_size dg →
  index_shape (map d_size ds) (tile_slicer ds g k) =
  Ok (if Z.of_nat j <? Z.of_nat i
      then [d_size dy; d_size dx]
      else [d_size dx; d_size dy]).
Proof.
  intros Hx Hy Hgc Hok Hg Hrg Hi Hrx Hj Hry Hk.
  destruct (tile_slicer_pinned ds g dg k Hg) as [-> Hsz].
  rewrite <- Hsz.
  destruct (pinned_counts ds g dg k Hg Hrg) as (Hx' & Hy' & Hg').
  assert (g ≠ i) by (intros ->; congruence).
  assert (g ≠ j) by (intros ->; congruence).
  rewrite index_shape_default.
  - f_equal. apply view_sizes_xy; try done; try lia.
    + by rewrite list_lookup_insert_ne.
    + by rewrite list_lookup_insert_ne.
  - apply Forall_insert; [done |]. unfold index_ok, pinned. simpl. lia.
Qed.

(** * Rendering *)

Section RenderProofs.

Context {V : Type} (zero : V).

Lemma get_single_slice_unfold (s : Viewer) (arr : ndarray V) (i j : nat)
    (override : option (list Slicer)) :
  find_role view_x (dims s) = Some i →
  find_role view_y (dims s) = Some j →
  _get_single_slice s arr override =
  (sub ← nd_getitem arr (slicer_or override (dims s));
   Ok (if Z.of_nat j <? Z.of_nat i then T sub else sub)).
Proof.
  intros Hi Hj. unfold _get_single_slice, next_role. rewrite Hi, Hj. simpl.
  destruct (nd_getitem arr _); simpl; [| done].
  by destruct (Z.of_nat j <? Z.of_nat i).
Qed.

Lemma T_shape (a : ndarray V) : shape (T a) = rev (shape a).
Proof. done. Qed.

Lemma T_item (a : ndarray V) (p q : Z) : item (T a) [p; q] = item a [q; p].
Proof. done. Qed.

(** C2. The slice is transposed exactly when the position of the
    [view_y] dimension is smaller than the position of the [view_x]
    dimension, whatever slicer is used: the default one of the plain path
    or the pinned one of a mosaic tile.  Transposing swaps the two
    coordinates. *)
Theorem orientation_rule_C2 (s : Viewer) (arr : ndarray V) (i j : nat)
    (dx dy : Dim) :
  Inv s →
  shape arr = map d_size (dims s) →
  dims s !! i = Some dx → d_role dx = view_x →
  dims s !! j = Some dy → d_role dy = view_y →
  (∃ sub,
     nd_getitem arr (default_slicer (dims s)) = Ok sub
     ∧ _get_single_slice s arr None
       = Ok (if Z.of_nat j <? Z.of_nat i then T sub else sub)
     ∧ (find_role view_grid (dims s) = None →
        _get_display_image zero s arr
        = Ok (if Z.of_nat j <? Z.of_nat i then T sub else sub)))
  ∧ (∀ (e : Slicer) (sl : list Slicer) (sub : ndarray V),
       nd_getitem arr (e :: sl) = Ok sub →
       _get_single_slice s arr (Some (e :: sl))
       = Ok (if Z.of_nat j <? Z.of_nat i then T sub else sub))
  ∧ (∀ (sub : ndarray V) (p q : Z),
       shape (T sub) = rev (shape sub)
       ∧ dtype (T sub) = dtype sub
       ∧ item (T sub) [p; q] = item sub [q; p]).
Proof.
  intros HI Hshape Hi Hrx Hj Hry.
  assert (Hfx : find_role view_x (dims s) = Some i).
  { eapply find_role_unique; eauto. rewrite (inv_x _ HI). lia. }
  assert (Hfy : find_role view_y (dims s) = Some j).
  { eapply find_role_unique; eauto. rewrite (inv_y _ HI). lia. }
  split_and!.
  - assert (Hsub : ∃ sub, nd_getitem arr (default_slicer (dims s)) = Ok sub).
    { unfold nd_getitem. rewrite Hshape.
      rewrite index_shape_default by apply (inv_index _ HI). simpl. eauto. }
    destruct Hsub as [sub Hsub]. exists sub.
    assert (Hsingle : _get_single_slice s arr None
              = Ok (if Z.of_nat j <? Z.of_nat i then T sub else sub)).
    { rewrite (get_single_slice_unfold s arr i j None Hfx Hfy). simpl.
      by rewrite Hsub. }
    split_and!; try done.
    intros Hnone. unfold _get_display_image. by rewrite Hnone.
  - intros e sl sub Hsub.
    rewrite (get_single_slice_unfold s arr i j _ Hfx Hfy). simpl.
    by rewrite Hsub.
  - intros sub p q. done.
Qed.

(** The shape of a slice whose extraction leaves the two view axes. *)
Lemma get_single_slice_shape (s : Viewer) (arr : ndarray V) (i j : nat)
    (dx dy : Dim) (override : option (list Slicer)) :
  find_role view_x (dims s) = Some i →
  find_role view_y (dims s) = Some j →
  index_shape (shape arr) (slicer_or override (dims s))
  = Ok (if Z.of_nat j <? Z.of_nat i
        then [d_size dy; d_size dx]
        else [d_size dx; d_size dy]) →
  ∃ tile, _get_single_slice s arr override = Ok tile
          ∧ shape tile = [d_size dx; d_size dy]
          ∧ dtype tile = dtype arr.
Proof.
  intros Hfx Hfy Hsh.
  rewrite (get_single_slice_unfold s arr i j _ Hfx Hfy).
  unfold nd_getitem. rewrite Hsh. simpl.
  destruct (Z.of_nat j <? Z.of_nat i); eexists; split_and!; done.
Qed.

Lemma slicer_or_tile (ds : list Dim) (g : nat) (k : Z) :
  (g < length ds)%nat →
  slicer_or (Some (tile_slicer ds g k)) ds = tile_slicer ds g k.
Proof.
  intros Hg. unfold slicer_or.
  destruct (tile_slicer ds g k) as [| e l] eqn:E; [| done].
  apply (f_equal length) in E. unfold tile_slicer, default_slicer in E.
  rewrite length_insert, length_map in E. simpl in E. lia.
Qed.

(** Under the invariant set every size is positive. *)
Lemma Inv_size_pos (s : Viewer) (k : nat) (d : Dim) :
  Inv s → dims s !! k = Some d → 0 < d_size d.
Proof.
  intros HI Hk. pose proof (inv_index _ HI) as Hf.
  rewrite Forall_lookup in Hf. specialize (Hf _ _ Hk).
  unfold index_ok in Hf. lia.
Qed.

Lemma plain_slice_spec (s : Viewer) (arr : ndarray V) (i j : nat)
    (dx dy : Dim) :
  Inv s → shape arr = map d_size (dims s) →
  count_role view_grid (dims s) = 0%nat →
  dims s !! i = Some dx → d_role dx = view_x →
  dims s !! j = Some dy → d_role dy = view_y →
  ∃ img, _get_single_slice s arr None = Ok img
         ∧ shape img = [d_size dx; d_size dy]
         ∧ dtype img = dtype arr.
Proof.
  intros HI Hshape Hg Hi Hrx Hj Hry.
  apply (get_single_slice_shape s arr i j).
  - eapply find_role_unique; eauto. rewrite (inv_x _ HI). lia.
  - eapply find_role_unique; eauto. rewrite (inv_y _ HI). lia.
  - simpl. rewrite Hshape, index_shape_default by apply (inv_index _ HI).
    f_equal. apply view_sizes_xy; try done;
      [apply (inv_x _ HI) | apply (inv_y _ HI)].
Qed.

Lemma tile_slice_spec (s : Viewer) (arr : ndarray V) (g i j : nat)
    (dg dx dy : Dim) (k : Z) :
  Inv s → shape arr = map d_size (dims s) →
  dims s !! g = Some dg → d_role dg = view_grid →
  dims s !! i = Some dx → d_role dx = view_x →
  dims s !! j = Some dy → d_role dy = view_y →
  0 ≤ k < d_size dg →
  ∃ tile, _get_single_slice s arr (Some (tile_slicer (dims s) g k)) = Ok tile
          ∧ shape tile = [d_size dx; d_size dy]
          ∧ dtype tile = dtype arr.
Proof.
  intros HI Hshape Hg Hrg Hi Hrx Hj Hry Hk.
  apply (get_single_slice_shape s arr i j).
  - eapply find_role_unique; eauto. rewrite (inv_x _ HI). lia.
  - eapply find_role_unique; eauto. rewrite (inv_y _ HI). lia.
  - rewrite slicer_or_tile by (by eapply lookup_lt_Some).
    rewrite Hshape.
    apply (index_shape_tile _ g i j dg); try done;
      [apply (inv_x _ HI) | apply (inv_y _ HI) | apply (inv_grid _ HI)
      | apply (inv_index _ HI)].
Qed.

End RenderProofs.

(** * Mosaic layout *)

Lemma best_rows_from_spec (n : Z) (k : nat) :
  1 ≤ best_rows_from n k
  ∧ best_rows_from n k ≤ Z.max 1 (Z.of_nat k)
  ∧ n `mod` best_rows_from n k = 0
  ∧ ∀ d, best_rows_from n k < d ≤ Z.of_nat k → n `mod` d ≠ 0.
Proof.
  induction k as [| k (IH1 & IH2 & IH3 & IH4)].
  - simpl. split_and!; try lia. apply Z.mod_1_r.
  - cbn [best_rows_from].
    destruct (n `mod` Z.of_nat (S k) =? 0) eqn:E.
    + apply Z.eqb_eq in E. split_and!; try lia.
    + apply Z.eqb_neq in E. split_and!; try lia.
      intros d Hd. destruct (decide (d = Z.of_nat (S k))) as [-> | Hne]; [done |].
      apply IH4. lia.
Qed.

Lemma calculate_grid_layout_spec (n rows cols : Z) :
  0 < n → _calculate_grid_layout n = (rows, cols) →
  rows = best_rows_from n (Z.to_nat (Z.sqrt n))
  ∧ 0 < rows ∧ rows ≤ Z.sqrt n ∧ rows * rows ≤ n
  ∧ (rows | n)
  ∧ (∀ d, 0 < d → (d | n) → d * d ≤ n → d ≤ rows)
  ∧ cols = n `div` rows ∧ rows * cols = n ∧ 0 < cols.
Proof.
  intros Hn. unfold _calculate_grid_layout.
  replace (n =? 0) with false by (symmetry; apply Z.eqb_neq; lia).
  intros [= <- <-].
  set (k := Z.to_nat (Z.sqrt n)).
  destruct (best_rows_from_spec n k) as (H1 & H2 & H3 & H4).
  set (rows := best_rows_from n k) in *.
  pose proof (Z.sqrt_spec n ltac:(lia)) as Hsq. simpl in Hsq.
  assert (Hs1 : 1 ≤ Z.sqrt n).
  { apply Z.sqrt_le_square; lia. }
  assert (Hk : Z.of_nat k = Z.sqrt n) by (unfold k; lia).
  assert (Hdiv : (rows | n)) by (apply Z.mod_divide; [lia | done]).
  assert (Hmul : rows * (n `div` rows) = n).
  { pose proof (Z.div_mod n rows ltac:(lia)). lia. }
  assert (Hmax : ∀ d, 0 < d → (d | n) → d * d ≤ n → d ≤ rows).
  { intros d Hd Hdn Hdd.
    destruct (decide (d ≤ rows)) as [| Hgt]; [done |]. exfalso.
    apply (H4 d).
    - split; [lia |]. rewrite Hk. apply Z.sqrt_le_square; lia.
    - apply Z.mod_divide; [lia | done]. }
  split_and!; try done; try lia; nia.
Qed.

Lemma in_block_disjoint (h w cols i i' r c : Z) :
  0 < cols →
  in_block h w cols i r c → in_block h w cols i' r c → i = i'.
Proof.
  unfold in_block. intros Hc [Hr1 Hc1] [Hr2 Hc2].
  pose proof (Z.div_mod i cols ltac:(lia)) as Hi.
  pose proof (Z.div_mod i' cols ltac:(lia)) as Hi'.
  assert (i `div` cols = i' `div` cols) as Hq by nia.
  assert (i `mod` cols = i' `mod` cols) as Hm by nia.
  rewrite Hq, Hm in Hi. lia.
Qed.

Lemma tile_position (rows cols i : Z) :
  0 < cols → 0 ≤ i < rows * cols →
  0 ≤ i `div` cols < rows ∧ 0 ≤ i `mod` cols < cols.
Proof.
  intros Hc Hi. split.
  - split; [apply Z.div_pos; lia |].
    apply Z.div_lt_upper_bound; lia.
  - apply Z.mod_pos_bound. lia.
Qed.

Section MosaicProofs.

Context {V : Type} (zero : V).

Lemma nd_setitem_block_tile (G tile : ndarray V) (h w rows cols r c : Z) :
  shape G = [rows * h; cols * w] → shape tile = [h; w] →
  0 < h → 0 < w → 0 ≤ r < rows → 0 ≤ c < cols →
  ∃ G1,
    nd_setitem_block G (r * h) ((r + 1) * h) (c * w) ((c + 1) * w) tile = Ok G1
    ∧ shape G1 = shape G ∧ dtype G1 = dtype G
    ∧ (∀ r' c', r * h ≤ r' < (r + 1) * h → c * w ≤ c' < (c + 1) * w →
         item G1 [r'; c'] = item tile [r' - r * h; c' - c * w])
    ∧ (∀ r' c', ¬ (r * h ≤ r' < (r + 1) * h ∧ c * w ≤ c' < (c + 1) * w) →
         item G1 [r'; c'] = item G [r'; c']).
Proof.
  intros HG Ht Hh Hw Hr Hc. unfold nd_setitem_block. rewrite HG, Ht.
  assert (E1 : slice_bound (rows * h) (r * h) = r * h).
  { unfold slice_bound.
    replace (r * h <? 0) with false by (symmetry; apply Z.ltb_ge; nia). nia. }
  assert (E2 : slice_bound (rows * h) ((r + 1) * h) = (r + 1) * h).
  { unfold slice_bound.
    replace ((r + 1) * h <? 0) with false by (symmetry; apply Z.ltb_ge; nia).
    nia. }
  assert (E3 : slice_bound (cols * w) (c * w) = c * w).
  { unfold slice_bound.
    replace (c * w <? 0) with false by (symmetry; apply Z.ltb_ge; nia). nia. }
  assert (E4 : slice_bound (cols * w) ((c + 1) * w) = (c + 1) * w).
  { unfold slice_bound.
    replace ((c + 1) * w <? 0) with false by (symmetry; apply Z.ltb_ge; nia).
    nia. }
  rewrite E1, E2, E3, E4.
  replace (Z.max 0 ((r + 1) * h - r * h)) with h by lia.
  replace (Z.max 0 ((c + 1) * w - c * w)) with w by lia.
  unfold broadcast_axis. rewrite !Z.eqb_refl.
  eexists. split; [reflexivity |]. simpl. split_and!; try done.
  - intros r' c' Hr' Hc'.
    replace (r * h <=? r') with true by (symmetry; apply Z.leb_le; lia).
    replace (r' <? r * h + h) with true by (symmetry; apply Z.ltb_lt; lia).
    replace (c * w <=? c') with true by (symmetry; apply Z.leb_le; lia).
    replace (c' <? c * w + w) with true by (symmetry; apply Z.ltb_lt; lia).
    done.
  - intros r' c' Hout.
    destruct (r * h <=? r') eqn:B1; [| done].
    destruct (r' <? r * h + h) eqn:B2; [| done].
    destruct (c * w <=? c') eqn:B3; [| done].
    destruct (c' <? c * w + w) eqn:B4; [| done].
    exfalso. apply Hout.
    apply Z.leb_le in B1, B3. apply Z.ltb_lt in B2, B4. lia.
Qed.

Lemma grid_loop_spec (s : Viewer) (arr : ndarray V) (g : nat)
    (h w rows cols n : Z) :
  (g < length (dims s))%nat → 0 < h → 0 < w → 0 < cols → rows * cols = n →
  (∀ i, 0 ≤ i < n →
     ∃ tile, _get_single_slice s arr (Some (tile_slicer (dims s) g i)) = Ok tile
             ∧ shape tile = [h; w]) →
  ∀ (m k : nat) (sl : list Slicer) (G : ndarray V),
    Z.of_nat k + Z.of_nat m = n →
    (∃ e, sl = <[g := e]> (default_slicer (dims s))) →
    shape G = [rows * h; cols * w] →
    ∃ G',
      grid_loop s arr (Z.of_nat g) h w cols (map Z.of_nat (seq k m)) sl G = Ok G'
      ∧ shape G' = shape G ∧ dtype G' = dtype G
      ∧ (∀ i tile a b,
           Z.of_nat k ≤ i < n →
           _get_single_slice s arr (Some (tile_slicer (dims s) g i)) = Ok tile →
           0 ≤ a < h → 0 ≤ b < w →
           item G' [(i `div` cols) * h + a; (i `mod` cols) * w + b]
           = item tile [a; b])
      ∧ (∀ r c, (∀ i, Z.of_nat k ≤ i < n → ¬ in_block h w cols i r c) →
           item G' [r; c] = item G [r; c]).
Proof.
  intros Hg Hh Hw Hcols Hn Htile.
  induction m as [| m IH]; intros k sl G Hkm Hsl HG.
  - simpl. exists G. split_and!; try done. intros i tile a b Hi. lia.
  - cbn [seq map grid_loop].
    destruct Hsl as [e ->].
    assert (Hpos : list_pos (<[g := e]> (default_slicer (dims s))) (Z.of_nat g)
                   = Some g).
    { rewrite list_pos_valid; [by rewrite Nat2Z.id |].
      rewrite length_insert. unfold default_slicer. rewrite length_map. lia. }
    unfold setitem at 1. rewrite Hpos. rewrite list_insert_insert_eq.
    fold (tile_slicer (dims s) g (Z.of_nat k)).
    destruct (Htile (Z.of_nat k) ltac:(lia)) as (tile & Htk & Hts).
    cbn [mbind result_bind]. rewrite Htk. cbn [mbind result_bind].
    assert (Hki : 0 ≤ Z.of_nat k < rows * cols) by lia.
    destruct (tile_position rows cols (Z.of_nat k) Hcols Hki) as [Hr Hc].
    destruct (nd_setitem_block_tile G tile h w rows cols
                (Z.of_nat k `div` cols) (Z.of_nat k `mod` cols)
                HG Hts Hh Hw Hr Hc)
      as (G1 & HG1 & Hsh1 & Hdt1 & Hin1 & Hout1).
    rewrite HG1. cbn [mbind result_bind].
    destruct (IH (S k) (tile_slicer (dims s) g (Z.of_nat k)) G1)
      as (G' & HG' & Hsh' & Hdt' & Hin' & Hout').
    { lia. }
    { by eexists. }
    { by rewrite Hsh1. }
    exists G'. split; [exact HG' |].
    split; [congruence |]. split; [congruence |]. split.
    + intros i tile' a b Hi Hti Ha Hb.
      destruct (decide (i = Z.of_nat k)) as [-> | Hne].
      * rewrite Hout'.
        -- rewrite Hin1 by lia. rewrite Htk in Hti. injection Hti as <-.
           f_equal. f_equal; [lia |]. f_equal. lia.
        -- intros i' Hi' Hblock.
           assert (in_block h w cols (Z.of_nat k)
                     (Z.of_nat k `div` cols * h + a)
                     (Z.of_nat k `mod` cols * w + b)) as Hblock_k.
           { unfold in_block. lia. }
           pose proof (in_block_disjoint _ _ _ _ _ _ _ Hcols Hblock Hblock_k).
           lia.
      * apply Hin'; try done. lia.
    + intros r c Hfree. rewrite Hout'.
      * apply Hout1. intros Hblock. apply (Hfree (Z.of_nat k)); [lia |].
        unfold in_block. lia.
      * intros i Hi. apply Hfree. lia.
Qed.

Lemma build_grid_image_spec (s : Viewer) (arr : ndarray V) (g i j : nat)
    (dg dx dy : Dim) (rows cols : Z) :
  Inv s → shape arr = map d_size (dims s) →
  dims s !! g = Some dg → d_role dg = view_grid →
  dims s !! i = Some dx → d_role dx = view_x →
  dims s !! j = Some dy → d_role dy = view_y →
  _calculate_grid_layout (d_size dg) = (rows, cols) →
  ∃ img,
    _build_grid_image zero s arr (Z.of_nat g) = Ok img
    ∧ shape img = [rows * d_size dx; cols * d_size dy]
    ∧ dtype img = dtype arr
    ∧ ∀ k, 0 ≤ k < d_size dg →
        ∃ tile,
          _get_single_slice s arr (Some (tile_slicer (dims s) g k)) = Ok tile
          ∧ shape tile = [d_size dx; d_size dy]
          ∧ dtype tile = dtype arr
          ∧ ∀ a b, 0 ≤ a < d_size dx → 0 ≤ b < d_size dy →
              item img [(k `div` cols) * d_size dx + a;
                        (k `mod` cols) * d_size dy + b]
              = item tile [a; b].
Proof.
  intros HI Hshape Hg Hrg Hi Hrx Hj Hry Hlayout.
  pose proof (Inv_size_pos s g dg HI Hg) as Hn.
  pose proof (Inv_size_pos s i dx HI Hi) as Hh.
  pose proof (Inv_size_pos s j dy HI Hj) as Hw.
  destruct (calculate_grid_layout_spec _ _ _ Hn Hlayout)
    as (_ & Hrows & _ & _ & _ & _ & _ & Hmul & Hcols).
  pose proof (lookup_lt_Some _ _ _ Hg) as Hglt.
  assert (Htile : ∀ k, 0 ≤ k < d_size dg →
            ∃ tile,
              _get_single_slice s arr (Some (tile_slicer (dims s) g k)) = Ok tile
              ∧ shape tile = [d_size dx; d_size dy]
              ∧ dtype tile = dtype arr).
  { intros k Hk. by apply (tile_slice_spec s arr g i j dg dx dy k). }
  unfold _build_grid_image.
  assert (Hget : getitem (dims s) (Z.of_nat g) = Ok dg).
  { apply getitem_Ok. exists g. split; [| done].
    rewrite list_pos_valid by lia. by rewrite Nat2Z.id. }
  rewrite Hget. cbn [mbind result_bind].
  assert (Hset : setitem (default_slicer (dims s)) (Z.of_nat g) (int_index 0)
                 = Ok (tile_slicer (dims s) g 0)).
  { unfold setitem. rewrite list_pos_valid; [by rewrite Nat2Z.id |].
    unfold default_slicer. rewrite length_map. lia. }
  rewrite Hset. cbn [mbind result_bind].
  destruct (Htile 0 ltac:(lia)) as (t0 & Ht0 & Hs0 & Hd0).
  rewrite Ht0. cbn [mbind result_bind].
  unfold unpack_shape2. rewrite Hs0. cbn [mbind result_bind].
  rewrite Hlayout.
  assert (Hz : np_zeros zero [rows * d_size dx; cols * d_size dy] (dtype arr)
               = Ok {| dtype := dtype arr;
                       shape := [rows * d_size dx; cols * d_size dy];
                       item := λ _, zero |}).
  { unfold np_zeros. simpl.
    replace (0 <=? rows * d_size dx) with true by (symmetry; apply Z.leb_le; nia).
    by replace (0 <=? cols * d_size dy) with true
      by (symmetry; apply Z.leb_le; nia). }
  rewrite Hz. cbn [mbind result_bind].
  destruct (grid_loop_spec s arr g (d_size dx) (d_size dy) rows cols (d_size dg)
              Hglt Hh Hw Hcols Hmul
              ltac:(intros k Hk; destruct (Htile k Hk) as (t & ? & ? & ?); eauto)
              (Z.to_nat (d_size dg)) 0%nat (tile_slicer (dims s) g 0)
              {| dtype := dtype arr;
                 shape := [rows * d_size dx; cols * d_size dy];
                 item := λ _, zero |})
    as (img & Himg & Hsh & Hdt & Hin & _).
  { lia. }
  { by eexists. }
  { done. }
  exists img. unfold py_range. split; [exact Himg |].
  split; [by rewrite Hsh |]. split; [by rewrite Hdt |].
  intros k Hk. destruct (Htile k Hk) as (tile & Htk & Hts & Hdk).
  exists tile. split_and!; try done.
  intros a b Ha Hb. apply Hin; try done; lia.
Qed.

(** C5. With the grid on a dimension of size [n], the layout has
    [rows] the largest divisor of [n] whose square is at most [n] (the
    downward search from the integer square root) and [cols = n / rows];
    the mosaic has shape [(rows * h, cols * w)] and the dtype of the
    active array, and tile [k], the slice with the grid dimension held at
    [k], fills the block whose corner is
    [((k // cols) * h, (k % cols) * w)].  Sizes 12 and 7 give layouts
    (3, 4) and (1, 7). *)
Theorem mosaic_layout_C5 (s : Viewer) (arr : ndarray V) (g i j : nat)
    (dg dx dy : Dim) (rows cols : Z) :
  Inv s → shape arr = map d_size (dims s) →
  dims s !! g = Some dg → d_role dg = view_grid →
  dims s !! i = Some dx → d_role dx = view_x →
  dims s !! j = Some dy → d_role dy = view_y →
  _calculate_grid_layout (d_size dg) = (rows, cols) →
  (rows = best_rows_from (d_size dg) (Z.to_nat (Z.sqrt (d_size dg)))
   ∧ 0 < rows ∧ rows ≤ Z.sqrt (d_size dg) ∧ rows * rows ≤ d_size dg
   ∧ (rows | d_size dg)
   ∧ (∀ d, 0 < d → (d | d_size dg) → d * d ≤ d_size dg → d ≤ rows)
   ∧ cols = d_size dg `div` rows ∧ rows * cols = d_size dg)
  ∧ (∃ img,
       _get_display_image zero s arr = Ok img
       ∧ shape img = [rows * d_size dx; cols * d_size dy]
       ∧ dtype img = dtype arr
       ∧ ∀ k, 0 ≤ k < d_size dg →
           ∃ tile,
             _get_single_slice s arr (Some (tile_slicer (dims s) g k)) = Ok tile
             ∧ shape tile = [d_size dx; d_size dy]
             ∧ ∀ a b, 0 ≤ a < d_size dx → 0 ≤ b < d_size dy →
                 item img [(k `div` cols) * d_size dx + a;
                           (k `mod` cols) * d_size dy + b]
                 = item tile [a; b])
  ∧ _calculate_grid_layout 12 = (3, 4)
  ∧ _calculate_grid_layout 7 = (1, 7).
Proof.
  intros HI Hshape Hg Hrg Hi Hrx Hj Hry Hlayout.
  pose proof (Inv_size_pos s g dg HI Hg) as Hn.
  split; [| split; [| split; reflexivity]].
  - destruct (calculate_grid_layout_spec _ _ _ Hn Hlayout)
      as (? & ? & ? & ? & ? & ? & ? & ? & ?).
    split_and!; done.
  - destruct (build_grid_image_spec s arr g i j dg dx dy rows cols
                HI Hshape Hg Hrg Hi Hrx Hj Hry Hlayout)
      as (img & Himg & Hsh & Hdt & Htiles).
    exists img. split_and!; try done.
    + unfold _get_display_image.
      rewrite (find_role_unique view_grid (dims s) g dg (inv_grid _ HI) Hg Hrg).
      exact Himg.
    + intros k Hk. destruct (Htiles k Hk) as (tile & ? & ? & ? & ?).
      exists tile. split_and!; done.
Qed.

(** C1, as the code has it.  The rendered array has one row per index of
    the [view_x] dimension and one column per index of the [view_y]
    dimension: shape [(size view_x, size view_y)] on the plain path, and
    [(rows * size view_x, cols * size view_y)] for a mosaic of layout
    [(rows, cols)]. *)
Theorem render_shape_C1 (s : Viewer) (arr : ndarray V) (i j : nat)
    (dx dy : Dim) :
  Inv s → shape arr = map d_size (dims s) →
  dims s !! i = Some dx → d_role dx = view_x →
  dims s !! j = Some dy → d_role dy = view_y →
  ∃ img,
    _get_display_image zero s arr = Ok img
    ∧ dtype img = dtype arr
    ∧ match find_role view_grid (dims s) with
      | None => shape img = [d_size dx; d_size dy]
      | Some g =>
          ∃ dg rows cols,
            dims s !! g = Some dg
            ∧ _calculate_grid_layout (d_size dg) = (rows, cols)
            ∧ shape img = [rows * d_size dx; cols * d_size dy]
      end.
Proof.
  intros HI Hshape Hi Hrx Hj Hry. unfold _get_display_image.
  destruct (find_role view_grid (dims s)) as [g |] eqn:Hfg.
  - apply find_role_Some in Hfg as (dg & Hg & Hrg & _).
    destruct (_calculate_grid_layout (d_size dg)) as [rows cols] eqn:Hlayout.
    destruct (build_grid_image_spec s arr g i j dg dx dy rows cols
                HI Hshape Hg Hrg Hi Hrx Hj Hry Hlayout)
      as (img & Himg & Hsh & Hdt & _).
    exists img. split_and!; try done. by exists dg, rows, cols.
  - apply count_role_zero in Hfg.
    destruct (plain_slice_spec s arr i j dx dy HI Hshape Hfg Hi Hrx Hj Hry)
      as (img & Himg & Hsh & Hdt).
    by exists img.
Qed.

End MosaicProofs.

Lemma example_grid_state_Inv : Inv example_grid_state.
Proof.
  split; simpl; try done; try lia.
  repeat constructor; simpl; lia.
Qed.

Lemma example_2d_state_Inv : Inv example_2d_state.
Proof.
  split; simpl; try done; try lia.
  repeat constructor; simpl; lia.
Qed.

Lemma mosaic_layout_C5_witness :
  ∃ img,
    _get_display_image 0 example_grid_state example_4d_array = Ok img
    ∧ shape img = [2 * 2; 2 * 3]
    ∧ dtype img = float32
    ∧ ∀ k, 0 ≤ k < 4 →
        ∃ tile,
          _get_single_slice example_grid_state example_4d_array
            (Some (tile_slicer (dims example_grid_state) 2 k)) = Ok tile
          ∧ shape tile = [2; 3]
          ∧ ∀ a b, 0 ≤ a < 2 → 0 ≤ b < 3 →
              item img [(k `div` 2) * 2 + a; (k `mod` 2) * 3 + b]
              = item tile [a; b].
Proof.
  apply (proj1 (proj2
           (mosaic_layout_C5 0 example_grid_state example_4d_array
              2 0 1 (mkDim view_grid 2 4) (mkDim view_x 1 2) (mkDim view_y 1 3)
              2 2 example_grid_state_Inv eq_refl eq_refl eq_refl eq_refl
              eq_refl eq_refl eq_refl eq_refl))).
Defined.

Lemma render_shape_C1_witness :
  ∃ img,
    _get_display_image 0 example_2d_state example_2d_array = Ok img
    ∧ dtype img = float32
    ∧ shape img = [2; 3].
Proof.
  apply (render_shape_C1 0 example_2d_state example_2d_array 0 1
           (mkDim view_x 1 2) (mkDim view_y 1 3)
           example_2d_state_Inv eq_refl eq_refl eq_refl eq_refl eq_refl).
Defined.

(** C1, as stated, fails: for shape (2, 3) with [view_x] on dimension 0
    (size 2) and [view_y] on dimension 1 (size 3) the rendered array has
    2 rows and 3 columns, not 3 rows (the [view_y] size) and 2 columns (the
    [view_x] size). *)
Lemma render_shape_C1_counterexample :
  NDArrayViewer_init [2; 3] = Ok example_2d_state
  ∧ Inv example_2d_state
  ∧ shape example_2d_array = map d_size (dims example_2d_state)
  ∧ dims example_2d_state !! 0%nat = Some (mkDim view_x 1 2)
  ∧ dims example_2d_state !! 1%nat = Some (mkDim view_y 1 3)
  ∧ find_role view_grid (dims example_2d_state) = None
  ∧ ∃ img,
      _get_display_image 0 example_2d_state example_2d_array = Ok img
      ∧ shape img = [2; 3]
      ∧ shape img ≠ [d_size (mkDim view_y 1 3); d_size (mkDim view_x 1 2)].
Proof.
  split; [reflexivity |].
  split; [apply example_2d_state_Inv |].
  split_and!; try reflexivity.
  eexists. split; [reflexivity |]. split; [reflexivity | discriminate].
Qed.

Lemma orientation_rule_C2_witness :
  ∃ sub,
    nd_getitem example_2d_array (default_slicer (dims example_2d_state)) = Ok sub
    ∧ _get_single_slice example_2d_state example_2d_array None
      = Ok (if Z.of_nat 1 <? Z.of_nat 0 then T sub else sub)
    ∧ (find_role view_grid (dims example_2d_state) = None →
       _get_display_image 0 example_2d_state example_2d_array
       = Ok (if Z.of_nat 1 <? Z.of_nat 0 then T sub else sub)).
Proof.
  apply (proj1
           (orientation_rule_C2 0 example_2d_state example_2d_array 0 1
              (mkDim view_x 1 2) (mkDim view_y 1 3)
              example_2d_state_Inv eq_refl eq_refl eq_refl eq_refl eq_refl)).
Defined.

(** * Further properties of the role engine *)

(** The constructor establishes the invariants: for an array with at least
    two axes, none of them empty, [NDArrayViewer.__init__] returns a state
    with exactly one [view_x] and one [view_y] dimension, at most one grid
    and one scroll dimension, every index within its axis, and the cached
    scroll position in step with the roles. *)
Theorem init_establishes_invariants (shape : list Z) :
  (2 ≤ length shape)%nat → Forall (λ size, 0 < size) shape →
  ∃ s, NDArrayViewer_init shape = Ok s ∧ Inv s.
Proof. apply NDArrayViewer_init_Inv. Qed.

Lemma init_establishes_invariants_witness :
  ∃ s, NDArrayViewer_init [8; 8; 5; 3] = Ok s ∧ Inv s.
Proof.
  apply (init_establishes_invariants [8; 8; 5; 3]).
  - simpl. lia.
  - repeat constructor.
Defined.

Lemma stop_if_playing_is_playing (s : Viewer) :
  is_playing (stop_if_playing s) = false.
Proof.
  unfold stop_if_playing, _toggle_playback.
  destruct (is_playing s) eqn:E; [| done]. simpl. done.
Qed.

Lemma set_role_same (d : Dim) (r : Role) : d_role d = r → set_role r d = d.
Proof. intros <-. by destruct d. Qed.

Lemma find_role_cons (r : Role) (d : Dim) (rest : list Dim) :
  find_role r (d :: rest) =
  if decide (d_role d = r) then Some 0%nat else S <$> find_role r rest.
Proof.
  unfold find_role. simpl. case_decide; [done |].
  by destruct (list_find _ rest) as [[? ?] |].
Qed.

Lemma find_role_roles (r : Role) (ds ds' : list Dim) :
  map d_role ds' = map d_role ds → find_role r ds' = find_role r ds.
Proof.
  revert ds'. induction ds as [| d rest IH]; intros [| d' rest'] H;
    simpl in H; try done.
  rewrite !find_role_cons.
  assert (d_role d' = d_role d) as -> by congruence.
  rewrite (IH rest') by congruence. done.
Qed.

Lemma count_role_roles (r : Role) (ds ds' : list Dim) :
  map d_role ds' = map d_role ds → count_role r ds' = count_role r ds.
Proof.
  revert ds'. induction ds as [| d rest IH]; intros [| d' rest'] H;
    simpl in H; try done.
  simpl. assert (d_role d' = d_role d) as -> by congruence.
  rewrite (IH rest') by congruence. done.
Qed.

(** ** The re-partition is idempotent *)

Lemma scroll_fixed_loop_true_idem (ds : list Dim) :
  scroll_fixed_loop true (scroll_fixed_loop true ds) = scroll_fixed_loop true ds.
Proof.
  induction ds as [| d rest IH]; [done |]. simpl.
  destruct (is_view (d_role d)) eqn:E; simpl; rewrite ?E; simpl; by rewrite IH.
Qed.

Lemma scroll_fixed_loop_false_idem (ds : list Dim) :
  scroll_fixed_loop false (scroll_fixed_loop false ds) = scroll_fixed_loop false ds.
Proof.
  induction ds as [| d rest IH]; [done |]. simpl.
  destruct (is_view (d_role d)) eqn:E; simpl; rewrite ?E; simpl.
  - by rewrite IH.
  - by rewrite scroll_fixed_loop_true_idem.
Qed.

(** Running [_reassign_scroll_and_fixed] a second time changes nothing, and
    it changes nothing at all in a state whose non-view dimensions already
    are one leading [scroll] followed by [fixed] ones and whose cached
    scroll position is in step. *)
Theorem reassign_scroll_and_fixed_idempotent :
  (∀ s : Viewer,
     _reassign_scroll_and_fixed (_reassign_scroll_and_fixed s)
     = _reassign_scroll_and_fixed s)
  ∧ (∀ s : Viewer,
       partitioned (dims s) → scroll_dim_idx s = scroll_index_of (dims s) →
       _reassign_scroll_and_fixed s = s).
Proof.
  split.
  - intros s. unfold _reassign_scroll_and_fixed, _update_scroll_dim_index. simpl.
    by rewrite scroll_fixed_loop_false_idem.
  - intros [ds idx playing] Hp Hc. simpl in *.
    assert (Hds : scroll_fixed_loop false ds = ds).
    { apply list_eq. intros i. rewrite scroll_fixed_loop_false_lookup.
      destruct (ds !! i) as [d |] eqn:Hd; simpl; [| done]. f_equal.
      destruct (is_view (d_role d)) eqn:E; [done |].
      specialize (Hp i d Hd E).
      case_decide; by apply set_role_same. }
    unfold _reassign_scroll_and_fixed, _update_scroll_dim_index. simpl.
    rewrite Hds. by rewrite Hc.
Qed.

Lemma reassign_scroll_and_fixed_idempotent_witness :
  _reassign_scroll_and_fixed example_initial_state = example_initial_state.
Proof.
  apply (proj2 reassign_scroll_and_fixed_idempotent example_initial_state).
  - exact (reassign_scroll_and_fixed_partitioned example_initial_state).
  - reflexivity.
Defined.

(** ** What choosing the scroll dimension does *)

Lemma scroll_cache_lookup (s : Viewer) (j : nat) (dj : Dim) :
  Inv s → dims s !! j = Some dj → d_role dj = scroll →
  scroll_dim_idx s = Z.of_nat j.
Proof.
  intros HI Hj Hr. rewrite (inv_cache _ HI). unfold scroll_index_of.
  by rewrite (find_role_unique scroll (dims s) j dj (inv_scroll _ HI) Hj Hr).
Qed.

Lemma set_scroll_dimension_spec (s : Viewer) (new_scroll_idx : Z)
    (d : Dim) :
  Inv s → valid_dim s new_scroll_idx →
  dims s !! Z.to_nat new_scroll_idx = Some d →
  is_view (d_role d) = false →
  ∃ s',
    _set_scroll_dimension new_scroll_idx s = Ok s'
    ∧ scroll_dim_idx s' = new_scroll_idx
    ∧ is_playing s' = false
    ∧ ∀ (j : nat) (dj : Dim),
        dims s !! j = Some dj →
        dims s' !! j =
        Some (if decide (j = Z.to_nat new_scroll_idx) then set_role scroll dj
              else if decide (d_role dj = scroll) then set_role fixed dj
              else dj).
Proof.
  intros HI Hv Hd Hnv.
  pose proof (stop_if_playing_Inv s HI) as HI0.
  pose proof (stop_if_playing_is_playing s) as Hplay.
  unfold valid_dim in Hv. rewrite <- stop_if_playing_dims in Hv, Hd.
  setoid_rewrite <- (stop_if_playing_dims s).
  unfold _set_scroll_dimension.
  set (s0 := stop_if_playing s) in *. clearbody s0. clear HI s.
  set (k := Z.to_nat new_scroll_idx) in *.
  assert (Hget : getitem (dims s0) new_scroll_idx = Ok d).
  { apply getitem_Ok. exists k. split; [by apply list_pos_valid | done]. }
  rewrite Hget. cbn [mbind result_bind]. rewrite Hnv.
  pose proof (list_pos_valid _ _ Hv) as Hp. fold k in Hp.
  destruct (scroll_dim_idx s0 =? new_scroll_idx) eqn:Eold.
  - apply Z.eqb_eq in Eold. exists s0. split_and!; try done.
    intros j dj Hj. rewrite Hj. f_equal.
    assert (Hfs : find_role scroll (dims s0) = Some k).
    { pose proof (inv_cache _ HI0) as Hc. unfold scroll_index_of in Hc.
      destruct (find_role scroll (dims s0)) as [o |]; [| lia].
      f_equal. unfold k. lia. }
    apply find_role_Some in Hfs as (d' & Hd' & Hr' & _).
    case_decide as Hjk.
    + subst j. rewrite Hd' in Hj. injection Hj as ->.
      symmetry. by apply set_role_same.
    + rewrite decide_False; [done |]. intros Hr.
      apply Hjk. symmetry.
      apply (count_role_unique scroll (dims s0) k j d' dj);
        try done. apply (inv_scroll _ HI0).
  - apply Z.eqb_neq in Eold.
    assert (Hfin : ∀ ds1 : list Dim,
              length ds1 = length (dims s0) →
              ds1 !! k = Some d →
              (∀ j dj, j ≠ k → dims s0 !! j = Some dj →
                 ds1 !! j = Some (if decide (d_role dj = scroll)
                                  then set_role fixed dj else dj)) →
              ∃ s',
                (ds ← set_role_at ds1 new_scroll_idx scroll;
                 Ok (_update_scroll_dim_index (with_dims ds s0))) = Ok s'
                ∧ scroll_dim_idx s' = new_scroll_idx
                ∧ is_playing s' = false
                ∧ ∀ j dj, dims s0 !! j = Some dj →
                    dims s' !! j =
                    Some (if decide (j = k) then set_role scroll dj
                          else if decide (d_role dj = scroll)
                               then set_role fixed dj else dj)).
    { intros ds1 Hlen Hk1 Hothers.
      assert (Hp1 : list_pos ds1 new_scroll_idx = Some k).
      { rewrite <- Hp. by apply list_pos_length. }
      rewrite (set_role_at_Ok _ _ _ _ _ Hp1 Hk1). cbn [mbind result_bind].
      eexists. split; [done |].
      assert (Hlook : ∀ j dj, dims s0 !! j = Some dj →
                <[k := set_role scroll d]> ds1 !! j =
                Some (if decide (j = k) then set_role scroll dj
                      else if decide (d_role dj = scroll)
                           then set_role fixed dj else dj)).
      { intros j dj Hj. case_decide as Hjk.
        - subst j. rewrite list_lookup_insert_eq.
          + rewrite Hd in Hj. by injection Hj as ->.
          + rewrite Hlen. by eapply lookup_lt_Some.
        - rewrite list_lookup_insert_ne by done. by apply Hothers. }
      split_and!; try done. simpl. unfold scroll_index_of.
      assert (Hfind : find_role scroll (<[k := set_role scroll d]> ds1) = Some k).
      { apply find_role_Some. exists (set_role scroll d). split_and!; try done.
        - specialize (Hlook k d Hd). by rewrite decide_True in Hlook.
        - intros j d' Hj Hlt.
          assert (is_Some (dims s0 !! j)) as [dj Hdj].
          { apply lookup_lt_is_Some_2. apply lookup_lt_Some in Hd. lia. }
          specialize (Hlook j dj Hdj). rewrite Hj in Hlook.
          rewrite decide_False in Hlook by lia.
          injection Hlook as ->. by case_decide. }
      rewrite Hfind. unfold k. lia. }
    pose proof (inv_cache _ HI0) as Hc. rewrite Hc in Eold |- *.
    unfold scroll_index_of in *.
    destruct (find_role scroll (dims s0)) as [o |] eqn:Ef.
    + replace (Z.of_nat o =? -1) with false by (symmetry; apply Z.eqb_neq; lia).
      cbn [negb]. apply find_role_Some in Ef as (d_old & Ho & Hro & _).
      assert (Hpo : list_pos (dims s0) (Z.of_nat o) = Some o).
      { rewrite list_pos_valid; [by rewrite Nat2Z.id |].
        apply lookup_lt_Some in Ho. lia. }
      rewrite (set_role_at_Ok _ _ _ _ _ Hpo Ho). cbn [mbind result_bind].
      assert (Hok : o ≠ k) by (unfold k; lia).
      apply Hfin.
      * apply length_insert.
      * by rewrite list_lookup_insert_ne.
      * intros j dj Hjk Hj.
        destruct (decide (j = o)) as [-> | Hjo].
        -- rewrite list_lookup_insert_eq by (by eapply lookup_lt_Some).
           rewrite Ho in Hj. injection Hj as ->. by rewrite decide_True.
        -- rewrite list_lookup_insert_ne by done. rewrite Hj.
           rewrite decide_False; [done |]. intros Hr. apply Hjo.
           apply (count_role_unique scroll (dims s0) j o dj d_old);
             try done. apply (inv_scroll _ HI0).
    + replace (-1 =? -1) with true by done. cbn [negb].
      apply Hfin; try done.
      intros j dj Hjk Hj. rewrite Hj. rewrite decide_False; [done |].
      rewrite find_role_None in Ef. by eapply Ef.
Qed.

(** Choosing a dimension without a view role as the scroll dimension makes
    it [scroll], turns the former scroll dimension into [fixed], leaves
    every other dimension, every index and every size as it was, stops the
    playback and records the new position. *)
Theorem set_scroll_dimension_moves_scroll (s : Viewer) (new_scroll_idx : Z)
    (d : Dim) :
  Inv s → valid_dim s new_scroll_idx →
  dims s !! Z.to_nat new_scroll_idx = Some d →
  is_view (d_role d) = false →
  ∃ s',
    _set_scroll_dimension new_scroll_idx s = Ok s'
    ∧ scroll_dim_idx s' = new_scroll_idx
    ∧ is_playing s' = false
    ∧ ∀ (j : nat) (dj : Dim),
        dims s !! j = Some dj →
        dims s' !! j =
        Some (if decide (j = Z.to_nat new_scroll_idx) then set_role scroll dj
              else if decide (d_role dj = scroll) then set_role fixed dj
              else dj).
Proof. apply set_scroll_dimension_spec. Qed.

Lemma set_scroll_dimension_moves_scroll_witness :
  ∃ s',
    _set_scroll_dimension 3 example_initial_state = Ok s'
    ∧ scroll_dim_idx s' = 3
    ∧ is_playing s' = false
    ∧ ∀ (j : nat) (dj : Dim),
        dims example_initial_state !! j = Some dj →
        dims s' !! j =
        Some (if decide (j = Z.to_nat 3) then set_role scroll dj
              else if decide (d_role dj = scroll) then set_role fixed dj
              else dj).
Proof.
  apply (set_scroll_dimension_moves_scroll example_initial_state 3
           (mkDim fixed 1 3) example_initial_state_Inv).
  - unfold valid_dim. simpl. lia.
  - reflexivity.
  - reflexivity.
Defined.

(** ** What the grid toggle does *)

(** Toggling the grid on a [scroll] or [fixed] dimension makes it the one
    grid dimension; toggling it on the grid dimension leaves no grid
    dimension; toggling it on a view axis only stops the playback.  In
    every case the dimensions holding [view_x] and [view_y] and all indices
    and sizes stay as they were. *)
Theorem toggle_grid_dimension_effect (s : Viewer) (dim_idx : Z) (d : Dim) :
  Inv s → valid_dim s dim_idx →
  dims s !! Z.to_nat dim_idx = Some d →
  ∃ s',
    _toggle_grid_dimension dim_idx s = Ok s'
    ∧ (is_view (d_role d) = false →
       find_role view_grid (dims s') = Some (Z.to_nat dim_idx)
       ∧ count_role view_grid (dims s') = 1%nat)
    ∧ (d_role d = view_grid → find_role view_grid (dims s') = None)
    ∧ (d_role d = view_x ∨ d_role d = view_y → s' = stop_if_playing s)
    ∧ (∀ (j : nat) (dj : Dim),
         dims s !! j = Some dj → d_role dj = view_x ∨ d_role dj = view_y →
         dims s' !! j = Some dj)
    ∧ map geometry (dims s') = map geometry (dims s).
Proof.
  intros HI Hv Hd.
  destruct (toggle_grid_dimension_Inv dim_idx s HI Hv) as (s' & Hs' & HI').
  exists s'. split; [done |].
  pose proof (stop_if_playing_Inv s HI) as HI0.
  unfold valid_dim in Hv. rewrite <- stop_if_playing_dims in Hv, Hd.
  setoid_rewrite <- (stop_if_playing_dims s).
  unfold _toggle_grid_dimension in Hs'.
  set (s0 := stop_if_playing s) in *. clearbody s0. clear HI s.
  set (k := Z.to_nat dim_idx) in *.
  assert (Hget : getitem (dims s0) dim_idx = Ok d).
  { apply getitem_Ok. exists k. split; [by apply list_pos_valid | done]. }
  pose proof (list_pos_valid _ _ Hv) as Hp. fold k in Hp.
  rewrite Hget in Hs'. cbn [mbind result_bind] in Hs'.
  case_decide as Hrole.
  - rewrite (set_role_at_Ok _ _ _ _ _ Hp Hd) in Hs'.
    cbn [mbind result_bind] in Hs'. injection Hs' as <-.
    split_and!.
    + intros Hnv. rewrite Hrole in Hnv. done.
    + intros _. apply count_role_zero. simpl.
      rewrite scroll_fixed_loop_count_view by done.
      pose proof (count_role_insert view_grid _ _ _ (set_role scroll d) Hd) as H.
      rewrite Hrole in H. simpl in H.
      pose proof (inv_grid _ HI0). lia.
    + intros [Hx | Hy]; congruence.
    + intros j dj Hj Hxy. simpl. rewrite scroll_fixed_loop_false_lookup.
      assert (j ≠ k) by (intros ->; destruct Hxy; congruence).
      rewrite list_lookup_insert_ne by done. rewrite Hj. simpl.
      by destruct Hxy as [-> | ->].
    + simpl. rewrite scroll_fixed_loop_geometry. by apply geometry_insert.
  - destruct (is_view (d_role d)) eqn:Ev; simpl in Hs'.
    + injection Hs' as <-. split_and!; done.
    + assert (Hd' : clear_grid (dims s0) !! k = Some d).
      { unfold clear_grid. rewrite lookup_map, Hd. simpl.
        by rewrite decide_False. }
      assert (Hp' : list_pos (clear_grid (dims s0)) dim_idx = Some k).
      { rewrite <- Hp. apply list_pos_length. unfold clear_grid.
        by rewrite length_map. }
      rewrite (set_role_at_Ok _ _ _ _ _ Hp' Hd') in Hs'.
      cbn [mbind result_bind] in Hs'. injection Hs' as <-.
      assert (Hk : dims (_reassign_scroll_and_fixed
                           (with_dims (<[k := set_role view_grid d]>
                                         (clear_grid (dims s0))) s0)) !! k
                   = Some (set_role view_grid d)).
      { simpl. rewrite scroll_fixed_loop_false_lookup.
        rewrite list_lookup_insert_eq; [done |].
        unfold clear_grid. rewrite length_map. by eapply lookup_lt_Some. }
      split_and!.
      * intros _. split.
        -- by apply (find_role_unique view_grid _ k (set_role view_grid d)
                       (inv_grid _ HI')).
        -- pose proof (count_role_lookup view_grid _ _ _ Hk eq_refl).
           pose proof (inv_grid _ HI'). lia.
      * intros Hg. done.
      * intros [Hx | Hy]; rewrite ?Hx, ?Hy in Ev; done.
      * intros j dj Hj Hxy. simpl. rewrite scroll_fixed_loop_false_lookup.
        assert (j ≠ k).
        { intros ->. rewrite Hd in Hj. injection Hj as <-.
          destruct Hxy as [Hx | Hy]; rewrite ?Hx, ?Hy in Ev; done. }
        rewrite list_lookup_insert_ne by done.
        unfold clear_grid. rewrite lookup_map, Hj. simpl.
        rewrite decide_False by (destruct Hxy; congruence).
        destruct Hxy as [Hx | Hy]; rewrite ?Hx, ?Hy; done.
      * simpl. rewrite scroll_fixed_loop_geometry.
        rewrite (geometry_insert _ _ _ _ Hd'). apply clear_grid_geometry.
Qed.

Lemma toggle_grid_dimension_effect_witness :
  ∃ s',
    _toggle_grid_dimension 3 example_initial_state = Ok s'
    ∧ (is_view fixed = false →
       find_role view_grid (dims s') = Some (Z.to_nat 3)
       ∧ count_role view_grid (dims s') = 1%nat)
    ∧ (fixed = view_grid → find_role view_grid (dims s') = None)
    ∧ (fixed = view_x ∨ fixed = view_y → s' = stop_if_playing example_initial_state)
    ∧ (∀ (j : nat) (dj : Dim),
         dims example_initial_state !! j = Some dj →
         d_role dj = view_x ∨ d_role dj = view_y →
         dims s' !! j = Some dj)
    ∧ map geometry (dims s') = map geometry (dims example_initial_state).
Proof.
  apply (toggle_grid_dimension_effect example_initial_state 3 (mkDim fixed 1 3)
           example_initial_state_Inv).
  - unfold valid_dim. simpl. lia.
  - reflexivity.
Defined.

(** ** Playback *)

Lemma reassign_all_roles_is_playing (x y : Z) (s : Viewer) :
  is_playing (_reassign_all_roles x y s) = false.
Proof. unfold _reassign_all_roles. simpl. apply stop_if_playing_is_playing. Qed.

Lemma toggle_grid_dimension_is_playing (i : Z) (s s' : Viewer) :
  _toggle_grid_dimension i s = Ok s' → is_playing s' = false.
Proof.
  unfold _toggle_grid_dimension.
  destruct (getitem _ _) as [d |]; cbn [mbind result_bind]; [| done].
  pose proof (stop_if_playing_is_playing s).
  case_decide.
  - destruct (set_role_at _ _ _); cbn [mbind result_bind]; [| done].
    by intros [= <-].
  - destruct (is_view (d_role d)); simpl.
    + by intros [= <-].
    + destruct (set_role_at _ _ _); cbn [mbind result_bind]; [| done].
      by intros [= <-].
Qed.

Lemma set_scroll_dimension_is_playing (i : Z) (s s' : Viewer) :
  _set_scroll_dimension i s = Ok s' → is_playing s' = false.
Proof.
  unfold _set_scroll_dimension.
  destruct (getitem _ _) as [d |]; cbn [mbind result_bind]; [| done].
  pose proof (stop_if_playing_is_playing s).
  destruct (is_view (d_role d)); [by intros [= <-] |].
  destruct (_ =? _); [by intros [= <-] |].
  destruct (if negb _ then _ else _); cbn [mbind result_bind]; [| done].
  destruct (set_role_at _ _ _); cbn [mbind result_bind]; [| done].
  by intros [= <-].
Qed.

Lemma try_except_ValueError_Ok {A : Type} (body handler : result A) (a : A) :
  try_except_ValueError body handler = Ok a → body = Ok a ∨ handler = Ok a.
Proof. unfold try_except_ValueError. destruct body as [| []]; auto. Qed.

Lemma bind_Ok {A B : Type} (m : result A) (k : A → result B) (b : B) :
  m ≫= k = Ok b ↔ ∃ a, m = Ok a ∧ k a = Ok b.
Proof.
  destruct m as [a | e]; cbn [mbind result_bind]; split.
  - eauto.
  - by intros (a' & [= <-] & H).
  - done.
  - by intros (a' & ? & _).
Qed.

Lemma change_scroll_dimension_by_cycle_is_playing (dir : string) (s s' : Viewer) :
  _change_scroll_dimension_by_cycle dir s = Ok s' → is_playing s' = false.
Proof.
  unfold _change_scroll_dimension_by_cycle.
  pose proof (stop_if_playing_is_playing s).
  destruct (_ <? 2); [by intros [= <-] |].
  intros [Hb | Hh]%try_except_ValueError_Ok.
  - apply bind_Ok in Hb as (p & _ & Hb).
    apply bind_Ok in Hb as (t & _ & Hb).
    by eapply set_scroll_dimension_is_playing.
  - apply bind_Ok in Hh as (t & _ & Hh).
    by eapply set_scroll_dimension_is_playing.
Qed.

(** Every operation that changes a role ends with the playback stopped,
    and the playback can only be started while some dimension scrolls: a
    state that is playing has a scroll position, and the timer tick keeps
    it so. *)
Theorem role_changes_stop_playback :
  (∀ x y s, is_playing (_reassign_all_roles x y s) = false)
  ∧ (∀ i s s', _toggle_grid_dimension i s = Ok s' → is_playing s' = false)
  ∧ (∀ i s s', _set_scroll_dimension i s = Ok s' → is_playing s' = false)
  ∧ (∀ dir s s',
       _change_scroll_dimension_by_cycle dir s = Ok s' → is_playing s' = false)
  ∧ (∀ s, is_playing (_toggle_playback s) = true →
          is_playing s = false ∧ scroll_dim_idx s ≠ -1)
  ∧ (∀ loop s s',
       _advance_slice loop s = Ok s' →
       is_playing s' = true → scroll_dim_idx s' ≠ -1).
Proof.
  split_and!.
  - apply reassign_all_roles_is_playing.
  - apply toggle_grid_dimension_is_playing.
  - apply set_scroll_dimension_is_playing.
  - apply change_scroll_dimension_by_cycle_is_playing.
  - intros s. unfold _toggle_playback.
    destruct (is_playing s); simpl; [done |].
    destruct (scroll_dim_idx s =? -1) eqn:E; simpl; [done |].
    apply Z.eqb_neq in E. done.
  - intros loop s s'. unfold _advance_slice, store_index.
    destruct (scroll_dim_idx s =? -1) eqn:E.
    + intros [= <-]. unfold _toggle_playback.
      destruct (is_playing s) eqn:Ep; simpl; [done |].
      rewrite E. simpl. done.
    + apply Z.eqb_neq in E.
      destruct (getitem _ _) as [d |]; cbn [mbind result_bind]; [| done].
      assert (Hstore : ∀ v,
                (ds ← setitem (dims s) (scroll_dim_idx s) (set_index v d);
                 Ok (with_dims ds s)) = Ok s' →
                is_playing s' = true → scroll_dim_idx s' ≠ -1).
      { intros v. destruct (setitem _ _ _); cbn [mbind result_bind]; [| done].
        intros [= <-]. simpl. done. }
      destruct (_ <? _); [destruct loop |]; try apply Hstore.
      intros [= <-]. unfold _toggle_playback.
      destruct (is_playing s) eqn:Ep; simpl; [done |].
      destruct (scroll_dim_idx s =? -1); simpl; done.
Qed.

Lemma role_changes_stop_playback_witness :
  is_playing {| dims := dims example_initial_state;
                scroll_dim_idx := 2; is_playing := false |} = false
  ∧ scroll_dim_idx {| dims := dims example_initial_state;
                      scroll_dim_idx := 2; is_playing := false |} ≠ -1.
Proof.
  apply (proj1 (proj2 (proj2 (proj2 (proj2 role_changes_stop_playback))))
           {| dims := dims example_initial_state;
              scroll_dim_idx := 2; is_playing := false |}).
  reflexivity.
Defined.

(** ** Index changes *)

Lemma set_index_roles (ds : list Dim) (k : nat) (d : Dim) (v : Z) :
  ds !! k = Some d → map d_role (<[k := set_index v d]> ds) = map d_role ds.
Proof.
  intros Hk. rewrite map_insert. apply list_insert_id.
  by rewrite lookup_map, Hk.
Qed.

Lemma store_index_spec (s : Viewer) (i v : Z) (d : Dim) :
  Inv s → valid_dim s i → dims s !! Z.to_nat i = Some d →
  0 ≤ v < d_size d →
  store_index i v s = Ok (with_dims (<[Z.to_nat i := set_index v d]> (dims s)) s)
  ∧ Inv (with_dims (<[Z.to_nat i := set_index v d]> (dims s)) s).
Proof.
  intros HI Hv Hd Hrange. unfold valid_dim in Hv. split.
  - unfold store_index, getitem, setitem.
    rewrite (list_pos_valid _ _ Hv), Hd. done.
  - pose proof (set_index_roles (dims s) _ d v Hd) as Hroles.
    destruct HI as [Hx Hy Hg Hs Hi Hc]. split; simpl.
    + by rewrite (count_role_roles _ _ _ Hroles).
    + by rewrite (count_role_roles _ _ _ Hroles).
    + by rewrite (count_role_roles _ _ _ Hroles).
    + by rewrite (count_role_roles _ _ _ Hroles).
    + apply Forall_insert; [done |]. unfold index_ok. simpl. done.
    + unfold scroll_index_of. by rewrite (find_role_roles _ _ _ Hroles).
Qed.

(** The position the cache names holds the scroll dimension. *)
Lemma scroll_cache_position (s : Viewer) :
  Inv s → scroll_dim_idx s ≠ -1 →
  ∃ (k : nat) (d : Dim),
    scroll_dim_idx s = Z.of_nat k ∧ dims s !! k = Some d ∧ d_role d = scroll
    ∧ valid_dim s (Z.of_nat k).
Proof.
  intros HI Hne. pose proof (inv_cache _ HI) as Hc. unfold scroll_index_of in Hc.
  destruct (find_role scroll (dims s)) as [k |] eqn:E; [| done].
  apply find_role_Some in E as (d & Hd & Hr & _).
  exists k, d. split_and!; try done.
  unfold valid_dim. apply lookup_lt_Some in Hd. lia.
Qed.





(** The keys "j" and "k" move the index of the scroll dimension one step
    up or down and stop at the last and at the first index; no other
    dimension, role or size changes. *)
Theorem key_press_steps_scroll_index (s : Viewer) (k : nat) (d : Dim)
    (answer : dialog_answer) :
  Inv s → scroll_dim_idx s = Z.of_nat k → dims s !! k = Some d →
  _on_key_press "j" answer s
  = Ok (with_dims (<[k := set_index (Z.min (d_size d - 1) (d_index d + 1)) d]>
                     (dims s)) (stop_if_playing s))
  ∧ _on_key_press "k" answer s
    = Ok (with_dims (<[k := set_index (Z.max 0 (d_index d - 1)) d]> (dims s))
            (stop_if_playing s))
  ∧ (d_index d = d_size d - 1 →
     _on_key_press "j" answer s = Ok (stop_if_playing s))
  ∧ (d_index d = 0 → _on_key_press "k" answer s = Ok (stop_if_playing s)).
Proof.
  intros HI Hk Hd.
  pose proof (stop_if_playing_Inv s HI) as HI0.
  pose proof (inv_index _ HI) as Hok. rewrite Forall_lookup in Hok.
  specialize (Hok _ _ Hd). unfold index_ok in Hok.
  assert (Hv : valid_dim (stop_if_playing s) (Z.of_nat k)).
  { unfold valid_dim. rewrite stop_if_playing_dims.
    apply lookup_lt_Some in Hd. lia. }
  assert (Hd0 : dims (stop_if_playing s) !! Z.to_nat (Z.of_nat k) = Some d).
  { by rewrite Nat2Z.id, stop_if_playing_dims. }
  assert (Hget : getitem (dims (stop_if_playing s)) (Z.of_nat k) = Ok d).
  { apply getitem_Ok. exists k. split; [| by rewrite stop_if_playing_dims].
    rewrite list_pos_valid by done. by rewrite Nat2Z.id. }
  assert (Hj : _on_key_press "j" answer s
               = Ok (with_dims
                       (<[k := set_index (Z.min (d_size d - 1) (d_index d + 1)) d]>
                          (dims s)) (stop_if_playing s))).
  { unfold _on_key_press. cbn [existsb String.eqb Ascii.eqb Bool.eqb orb].
    rewrite stop_if_playing_scroll, Hk.
    replace (Z.of_nat k =? -1) with false by (symmetry; apply Z.eqb_neq; lia).
    cbn [negb andb orb]. rewrite Hget. cbn [mbind result_bind].
    destruct (store_index_spec (stop_if_playing s) (Z.of_nat k)
                (Z.min (d_size d - 1) (d_index d + 1)) d HI0 Hv Hd0
                ltac:(lia)) as [-> _].
    by rewrite Nat2Z.id, stop_if_playing_dims. }
  assert (Hkk : _on_key_press "k" answer s
                = Ok (with_dims
                        (<[k := set_index (Z.max 0 (d_index d - 1)) d]> (dims s))
                        (stop_if_playing s))).
  { unfold _on_key_press. cbn [existsb String.eqb Ascii.eqb Bool.eqb orb].
    rewrite stop_if_playing_scroll, Hk.
    replace (Z.of_nat k =? -1) with false by (symmetry; apply Z.eqb_neq; lia).
    cbn [negb andb orb]. rewrite Hget. cbn [mbind result_bind].
    destruct (store_index_spec (stop_if_playing s) (Z.of_nat k)
                (Z.max 0 (d_index d - 1)) d HI0 Hv Hd0 ltac:(lia)) as [-> _].
    by rewrite Nat2Z.id, stop_if_playing_dims. }
  assert (Hid : ∀ v, v = d_index d →
            with_dims (<[k := set_index v d]> (dims s)) (stop_if_playing s)
            = stop_if_playing s).
  { intros v ->. rewrite list_insert_id.
    - rewrite <- stop_if_playing_dims. by destruct (stop_if_playing s).
    - rewrite Hd. by destruct d. }
  split_and!; try done.
  - intros Hmax. rewrite Hj. f_equal. apply Hid. lia.
  - intros Hmin. rewrite Hkk. f_equal. apply Hid. lia.
Qed.

Lemma key_press_steps_scroll_index_witness :
  _on_key_press "j" Dismissed example_initial_state
  = Ok (with_dims (<[2%nat := set_index (Z.min (5 - 1) (2 + 1)) (mkDim scroll 2 5)]>
                     (dims example_initial_state))
          (stop_if_playing example_initial_state)).
Proof.
  apply (key_press_steps_scroll_index example_initial_state 2 (mkDim scroll 2 5)
           Dismissed example_initial_state_Inv eq_refl eq_refl).
Defined.

(** ** Sliders *)

(** Moving a slider within its range [0 .. size - 1] stores the value as
    the index of a dimension without a view role and is ignored for a view
    axis; pressing the slider of a [fixed] dimension makes it the scroll
    dimension and pressing any other slider changes no role.  The invariant
    set survives both. *)
Theorem slider_events_keep_invariants (s : Viewer) (dim_idx value : Z) (d : Dim) :
  Inv s → valid_dim s dim_idx →
  dims s !! Z.to_nat dim_idx = Some d →
  0 ≤ value < d_size d →
  (∃ s', _on_slider_moved dim_idx value s = Ok s' ∧ Inv s'
         ∧ dims s' = (if is_view (d_role d) then dims s
                      else <[Z.to_nat dim_idx := set_index value d]> (dims s)))
  ∧ (∃ s', _on_slider_pressed dim_idx s = Ok s' ∧ Inv s'
           ∧ (d_role d = fixed → scroll_dim_idx s' = dim_idx)
           ∧ (d_role d ≠ fixed → s' = stop_if_playing s)).
Proof.
  intros HI Hv Hd Hrange.
  pose proof (stop_if_playing_Inv s HI) as HI0.
  assert (Hv0 : valid_dim (stop_if_playing s) dim_idx).
  { unfold valid_dim in *. by rewrite stop_if_playing_dims. }
  assert (Hd0 : dims (stop_if_playing s) !! Z.to_nat dim_idx = Some d).
  { by rewrite stop_if_playing_dims. }
  assert (Hget : getitem (dims (stop_if_playing s)) dim_idx = Ok d).
  { apply getitem_Ok. exists (Z.to_nat dim_idx). split; [| done].
    by apply list_pos_valid. }
  split.
  - unfold _on_slider_moved. rewrite Hget. cbn [mbind result_bind].
    destruct (is_view (d_role d)) eqn:Ev; simpl.
    + eexists. split_and!; try done. apply stop_if_playing_dims.
    + destruct (store_index_spec _ _ value d HI0 Hv0 Hd0 Hrange) as [-> HI'].
      eexists. split_and!; try done. simpl. by rewrite stop_if_playing_dims.
  - unfold _on_slider_pressed. rewrite Hget. cbn [mbind result_bind].
    case_decide as Hr.
    + assert (Hnv : is_view (d_role d) = false) by (by rewrite Hr).
      destruct (set_scroll_dimension_spec _ _ d HI0 Hv0 Hd0 Hnv)
        as (s' & Hs' & Hidx & _).
      destruct (set_scroll_dimension_Inv dim_idx _ HI0 Hv0) as (s'' & Hs'' & HI').
      rewrite Hs' in Hs''. injection Hs'' as <-.
      exists s'. split_and!; done.
    + eexists. split_and!; done.
Qed.

Lemma slider_events_keep_invariants_witness :
  ∃ s', _on_slider_moved 3 2 example_initial_state = Ok s' ∧ Inv s'
        ∧ dims s' = (if is_view fixed then dims example_initial_state
                     else <[Z.to_nat 3 := set_index 2 (mkDim fixed 1 3)]>
                            (dims example_initial_state)).
Proof.
  apply (proj1 (slider_events_keep_invariants example_initial_state 3 2
                  (mkDim fixed 1 3) example_initial_state_Inv
                  ltac:(unfold valid_dim; simpl; lia) eq_refl
                  ltac:(simpl; lia))).
Defined.

(** ** The playback tick *)

Lemma advance_slice_step (loop : bool) (s : Viewer) (k : nat) (d : Dim) :
  Inv s → scroll_dim_idx s = Z.of_nat k → dims s !! k = Some d →
  (d_index d + 1 < d_size d →
   _advance_slice loop s
   = Ok (with_dims (<[k := set_index (d_index d + 1) d]> (dims s)) s))
  ∧ (d_index d + 1 = d_size d →
     _advance_slice true s
     = Ok (with_dims (<[k := set_index 0 d]> (dims s)) s)
     ∧ _advance_slice false s = Ok (_toggle_playback s)).
Proof.
  intros HI Hk Hd.
  pose proof (inv_index _ HI) as Hok. rewrite Forall_lookup in Hok.
  specialize (Hok _ _ Hd). unfold index_ok in Hok.
  assert (Hv : valid_dim s (Z.of_nat k)).
  { unfold valid_dim. apply lookup_lt_Some in Hd. lia. }
  assert (Hd0 : dims s !! Z.to_nat (Z.of_nat k) = Some d) by (by rewrite Nat2Z.id).
  assert (Hget : getitem (dims s) (Z.of_nat k) = Ok d).
  { apply getitem_Ok. exists k. split; [| done].
    rewrite list_pos_valid by done. by rewrite Nat2Z.id. }
  assert (Hstore : ∀ v, 0 ≤ v < d_size d →
            store_index (Z.of_nat k) v s
            = Ok (with_dims (<[k := set_index v d]> (dims s)) s)).
  { intros v Hvr. destruct (store_index_spec s _ v d HI Hv Hd0 Hvr) as [-> _].
    by rewrite Nat2Z.id. }
  unfold _advance_slice. rewrite Hk.
  replace (Z.of_nat k =? -1) with false by (symmetry; apply Z.eqb_neq; lia).
  rewrite Hget. cbn [mbind result_bind]. split.
  - intros Hlt.
    replace (d_size d - 1 <? d_index d + 1) with false
      by (symmetry; apply Z.ltb_ge; lia).
    apply Hstore. lia.
  - intros Heq.
    replace (d_size d - 1 <? d_index d + 1) with true
      by (symmetry; apply Z.ltb_lt; lia).
    split; [apply Hstore; lia | done].
Qed.

Lemma advance_many_loop (n : nat) (s : Viewer) (k : nat) (d : Dim) :
  Inv s → scroll_dim_idx s = Z.of_nat k → dims s !! k = Some d →
  advance_many true n s
  = Ok (with_dims
          (<[k := set_index ((d_index d + Z.of_nat n) `mod` d_size d) d]> (dims s))
          s).
Proof.
  revert s d. induction n as [| n IH]; intros s d HI Hk Hd.
  - pose proof (inv_index _ HI) as Hok. rewrite Forall_lookup in Hok.
    specialize (Hok _ _ Hd). unfold index_ok in Hok.
    simpl. rewrite Z.add_0_r, Z.mod_small by done.
    rewrite list_insert_id; [by destruct s |]. rewrite Hd. by destruct d.
  - pose proof (inv_index _ HI) as Hok. rewrite Forall_lookup in Hok.
    specialize (Hok _ _ Hd). unfold index_ok in Hok.
    assert (Hv : valid_dim s (Z.of_nat k)).
    { unfold valid_dim. apply lookup_lt_Some in Hd. lia. }
    assert (Hd0 : dims s !! Z.to_nat (Z.of_nat k) = Some d)
      by (by rewrite Nat2Z.id).
    set (v1 := (d_index d + 1) `mod` d_size d).
    assert (Hv1 : 0 ≤ v1 < d_size d) by (apply Z.mod_pos_bound; lia).
    assert (Hstep : _advance_slice true s
                    = Ok (with_dims (<[k := set_index v1 d]> (dims s)) s)).
    { destruct (advance_slice_step true s k d HI Hk Hd) as [Hlt Heq].
      destruct (decide (d_index d + 1 < d_size d)) as [H | H].
      - rewrite (Hlt H). unfold v1. by rewrite Z.mod_small by lia.
      - assert (Hend : d_index d + 1 = d_size d) by lia.
        destruct (Heq Hend) as [-> _]. unfold v1.
        by rewrite Hend, Z.mod_same by lia. }
    cbn [advance_many]. rewrite Hstep. cbn [mbind result_bind].
    destruct (store_index_spec s _ v1 d HI Hv Hd0 Hv1) as [_ HI'].
    rewrite Nat2Z.id in HI'.
    rewrite (IH _ (set_index v1 d) HI').
    + simpl. rewrite list_insert_insert_eq. unfold with_dims. simpl.
      do 3 f_equal. unfold set_index. simpl. f_equal. unfold v1.
      rewrite Zplus_mod_idemp_l. f_equal. lia.
    + done.
    + simpl. apply list_lookup_insert_eq. by eapply lookup_lt_Some.
Qed.

(** With the loop box checked, a tick moves the scroll index one step and
    wraps from the last index to 0, so as many ticks as the dimension is
    long bring the viewer back to the state it started from.  With the box
    unchecked, a tick at the last index leaves the index alone and toggles
    the playback off. *)
Theorem advance_slice_wraps_or_stops (s : Viewer) (k : nat) (d : Dim) :
  Inv s → scroll_dim_idx s = Z.of_nat k → dims s !! k = Some d →
  (∀ n : nat,
     advance_many true n s
     = Ok (with_dims
             (<[k := set_index ((d_index d + Z.of_nat n) `mod` d_size d) d]>
                (dims s)) s))
  ∧ advance_many true (Z.to_nat (d_size d)) s = Ok s
  ∧ (d_index d + 1 = d_size d →
     _advance_slice false s = Ok (_toggle_playback s)
     ∧ dims (_toggle_playback s) = dims s
     ∧ (is_playing s = true → is_playing (_toggle_playback s) = false)).
Proof.
  intros HI Hk Hd.
  pose proof (inv_index _ HI) as Hok. rewrite Forall_lookup in Hok.
  specialize (Hok _ _ Hd). unfold index_ok in Hok.
  split_and!.
  - intros n. by apply advance_many_loop.
  - rewrite (advance_many_loop _ s k d HI Hk Hd).
    rewrite Z2Nat.id by lia.
    replace (d_index d + d_size d) with (d_index d + 1 * d_size d) by lia.
    rewrite Z.mod_add by lia. rewrite Z.mod_small by done.
    rewrite list_insert_id; [by destruct s |]. rewrite Hd. by destruct d.
  - intros Hend. destruct (advance_slice_step false s k d HI Hk Hd) as [_ Heq].
    destruct (Heq Hend) as [_ ->]. split_and!; try done.
    + unfold _toggle_playback. destruct (is_playing s); simpl; [done |].
      by destruct (_ =? _).
    + intros Hp. unfold _toggle_playback. by rewrite Hp.
Qed.

Lemma advance_slice_wraps_or_stops_witness :
  advance_many true (Z.to_nat 5) example_initial_state = Ok example_initial_state.
Proof.
  apply (proj1 (proj2 (advance_slice_wraps_or_stops example_initial_state 2
                         (mkDim scroll 2 5) example_initial_state_Inv
                         eq_refl eq_refl))).
Defined.

(** ** Cycling the scroll dimension *)

Lemma stop_if_playing_id (s : Viewer) : is_playing s = false → stop_if_playing s = s.
Proof. intros H. unfold stop_if_playing. by rewrite H. Qed.

Lemma cyclable_from_lookup (k : Z) (ds : list Dim) (p : nat) (t : Z) :
  cyclable_from k ds !! p = Some t →
  ∃ (j : nat) (d : Dim),
    t = k + Z.of_nat j ∧ ds !! j = Some d ∧ is_view (d_role d) = false.
Proof.
  revert k p. induction ds as [| a rest IH]; intros k p; simpl; [done |].
  destruct (is_view (d_role a)) eqn:E; simpl.
  - intros H. destruct (IH _ _ H) as (j & d & -> & Hj & Hd).
    exists (S j), d. split_and!; try done. lia.
  - destruct p as [| p]; simpl.
    + intros [= <-]. exists 0%nat, a. split_and!; try done. lia.
    + intros H. destruct (IH _ _ H) as (j & d & -> & Hj & Hd).
      exists (S j), d. split_and!; try done. lia.
Qed.

Lemma cyclable_from_elem (k : Z) (ds : list Dim) (j : nat) (d : Dim) :
  ds !! j = Some d → is_view (d_role d) = false →
  (k + Z.of_nat j) ∈ cyclable_from k ds.
Proof.
  revert k j. induction ds as [| a rest IH]; intros k j Hj Hd; [done |].
  simpl. destruct j as [| j]; simpl in Hj.
  - injection Hj as ->. rewrite Hd. simpl. rewrite Z.add_0_r. apply list_elem_of_here.
  - specialize (IH (k + 1) j Hj Hd).
    replace (k + Z.of_nat (S j)) with (k + 1 + Z.of_nat j) by lia.
    destruct (is_view (d_role a)); simpl; [done |].
    by apply list_elem_of_further.
Qed.

Lemma cyclable_from_NoDup (k : Z) (ds : list Dim) : NoDup (cyclable_from k ds).
Proof.
  revert k. induction ds as [| a rest IH]; intros k; simpl; [constructor |].
  destruct (is_view (d_role a)); simpl; [apply IH |].
  constructor; [| apply IH].
  intros Hin. apply list_elem_of_lookup in Hin as [p Hp].
  apply cyclable_from_lookup in Hp as (j & d & Hk & _). lia.
Qed.

Lemma cyclable_from_view_eq (k : Z) (ds ds' : list Dim) :
  map (λ d, is_view (d_role d)) ds' = map (λ d, is_view (d_role d)) ds →
  cyclable_from k ds' = cyclable_from k ds.
Proof.
  revert k ds'. induction ds as [| a rest IH]; intros k [| a' rest'] H;
    simpl in H; try done.
  simpl. assert (is_view (d_role a') = is_view (d_role a)) as -> by congruence.
  rewrite (IH (k + 1) rest') by congruence. done.
Qed.

Lemma py_index_from_NoDup (k : Z) (l : list Z) (p : nat) (v : Z) :
  NoDup l → l !! p = Some v → py_index_from k l v = Ok (k + Z.of_nat p).
Proof.
  revert k p. induction l as [| a rest IH]; intros k p Hnd Hp; [done |].
  inversion Hnd as [| ? ? Hnotin Hnd']; subst. simpl.
  destruct p as [| p]; simpl in Hp.
  - injection Hp as ->. rewrite Z.eqb_refl. f_equal. lia.
  - destruct (a =? v) eqn:E.
    + apply Z.eqb_eq in E. subst a. exfalso. apply Hnotin.
      by eapply list_elem_of_lookup_2.
    + rewrite (IH (k + 1) p Hnd' Hp). f_equal. lia.
Qed.

Lemma set_scroll_dimension_length (i : Z) (s s' : Viewer) :
  _set_scroll_dimension i s = Ok s' → length (dims s') = length (dims s).
Proof.
  unfold _set_scroll_dimension. rewrite <- (stop_if_playing_dims s).
  destruct (getitem _ _) as [d |]; cbn [mbind result_bind]; [| done].
  destruct (is_view (d_role d)); [by intros [= <-] |].
  destruct (_ =? _); [by intros [= <-] |].
  assert (Hlen : ∀ ds j r ds', set_role_at ds j r = Ok ds' →
            length ds' = length ds).
  { intros ds j r ds'. unfold set_role_at, setitem.
    destruct (getitem ds j); cbn [mbind result_bind]; [| done].
    destruct (list_pos ds j); [| done]. intros [= <-]. apply length_insert. }
  destruct (negb _).
  - destruct (set_role_at _ _ fixed) as [ds1 |] eqn:E1;
      cbn [mbind result_bind]; [| done].
    destruct (set_role_at ds1 _ scroll) as [ds2 |] eqn:E2;
      cbn [mbind result_bind]; [| done].
    intros [= <-]. simpl. rewrite (Hlen _ _ _ _ E2). by rewrite (Hlen _ _ _ _ E1).
  - cbn [mbind result_bind].
    destruct (set_role_at _ _ scroll) as [ds2 |] eqn:E2;
      cbn [mbind result_bind]; [| done].
    intros [= <-]. simpl. by rewrite (Hlen _ _ _ _ E2).
Qed.

(** One step of the cycle from a state that is not playing and scrolls. *)
Lemma cycle_step (dir : string) (s : Viewer) (o p : nat) :
  Inv s → is_playing s = false →
  scroll_dim_idx s = Z.of_nat o →
  cyclable_from 0 (dims s) !! p = Some (Z.of_nat o) →
  (2 ≤ length (cyclable_from 0 (dims s)))%nat →
  ∃ (q t : nat) (dt : Dim) (s' : Viewer),
    Z.of_nat q = (Z.of_nat p + (if String.eqb dir "next" then 1 else -1))
                 `mod` Z.of_nat (length (cyclable_from 0 (dims s)))
    ∧ cyclable_from 0 (dims s) !! q = Some (Z.of_nat t)
    ∧ dims s !! t = Some dt ∧ is_view (d_role dt) = false
    ∧ _change_scroll_dimension_by_cycle dir s = Ok s'
    ∧ _set_scroll_dimension (Z.of_nat t) s = Ok s'.
Proof.
  intros HI Hplay Hscroll Hp Hlen.
  unfold _change_scroll_dimension_by_cycle.
  rewrite (stop_if_playing_id s Hplay).
  set (cyc := cyclable_from 0 (dims s)) in *.
  replace (Z.of_nat (length cyc) <? 2) with false
    by (symmetry; apply Z.ltb_ge; lia).
  rewrite Hscroll.
  rewrite (py_index_from_NoDup 0 cyc p _ (cyclable_from_NoDup 0 (dims s)) Hp).
  cbn [mbind result_bind]. rewrite Z.add_0_l.
  set (step := if String.eqb dir "next" then 1 else -1).
  set (qz := (Z.of_nat p + step) `mod` Z.of_nat (length cyc)).
  assert (Hq : 0 ≤ qz < Z.of_nat (length cyc)) by (apply Z.mod_pos_bound; lia).
  destruct (getitem_valid cyc qz Hq) as (tz & Htz & Hget).
  destruct (cyclable_from_lookup _ _ _ _ Htz) as (t & dt & -> & Ht & Hdt).
  rewrite Z.add_0_l in *.
  assert (Hvt : valid_dim s (Z.of_nat t)).
  { unfold valid_dim. apply lookup_lt_Some in Ht. lia. }
  destruct (set_scroll_dimension_Inv (Z.of_nat t) s HI Hvt) as (s' & Hs' & _).
  exists (Z.to_nat qz), t, dt, s'. split_and!; try done.
  - lia.
  - rewrite Hget. cbn [mbind result_bind]. rewrite Hs'. done.
Qed.

Lemma cycle_round_trip (dir1 dir2 : string) (s : Viewer) :
  (if String.eqb dir1 "next" then 1 else -1)
  + (if String.eqb dir2 "next" then 1 else -1) = 0 →
  Inv s → scroll_dim_idx s ≠ -1 →
  ∃ s1, _change_scroll_dimension_by_cycle dir1 s = Ok s1
        ∧ _change_scroll_dimension_by_cycle dir2 s1 = Ok (stop_if_playing s).
Proof.
  intros Hsteps HI Hne.
  pose proof (stop_if_playing_Inv s HI) as HI0.
  pose proof (stop_if_playing_is_playing s) as Hplay.
  assert (Hcyc : ∀ dir, _change_scroll_dimension_by_cycle dir s
                        = _change_scroll_dimension_by_cycle dir (stop_if_playing s)).
  { intros dir. unfold _change_scroll_dimension_by_cycle.
    by rewrite (stop_if_playing_id (stop_if_playing s)). }
  rewrite Hcyc. rewrite <- stop_if_playing_scroll in Hne.
  set (s0 := stop_if_playing s) in *. clearbody s0. clear HI Hcyc s.
  destruct (decide (2 ≤ length (cyclable_from 0 (dims s0)))%nat) as [Hlen | Hlen].
  2:{ assert (Hsmall : ∀ dir, _change_scroll_dimension_by_cycle dir s0 = Ok s0).
      { intros dir. unfold _change_scroll_dimension_by_cycle.
        rewrite (stop_if_playing_id s0 Hplay).
        by replace (Z.of_nat (length (cyclable_from 0 (dims s0))) <? 2) with true
          by (symmetry; apply Z.ltb_lt; lia). }
      exists s0. by rewrite !Hsmall. }
  destruct (scroll_cache_position s0 HI0 Hne) as (o & d_o & Ho & Hdo & Hro & Hvo).
  assert (Hin : Z.of_nat o ∈ cyclable_from 0 (dims s0)).
  { replace (Z.of_nat o) with (0 + Z.of_nat o) by lia.
    apply (cyclable_from_elem 0 _ o d_o); [done | by rewrite Hro]. }
  apply list_elem_of_lookup in Hin as [p Hp].
  destruct (cycle_step dir1 s0 o p HI0 Hplay Ho Hp Hlen)
    as (q & t & dt & s1 & Hq & Hcq & Ht & Hdt & Hc1 & Hs1).
  exists s1. split; [done |].
  assert (Hvt : valid_dim s0 (Z.of_nat t)).
  { unfold valid_dim. apply lookup_lt_Some in Ht. lia. }
  destruct (set_scroll_dimension_Inv (Z.of_nat t) s0 HI0 Hvt) as (s1' & Hs1' & HI1).
  rewrite Hs1 in Hs1'. injection Hs1' as <-.
  destruct (set_scroll_dimension_spec s0 (Z.of_nat t) dt HI0 Hvt
              ltac:(by rewrite Nat2Z.id) Hdt) as (s1' & Hs1' & Hidx1 & Hplay1 & Hlook1).
  rewrite Hs1 in Hs1'. injection Hs1' as <-.
  rewrite Nat2Z.id in Hlook1.
  pose proof (set_scroll_dimension_length _ _ _ Hs1) as Hlen1.
  assert (Hpq : p ≠ q).
  { intros ->. revert Hq. set (n := Z.of_nat (length (cyclable_from 0 (dims s0)))).
    assert (Hpn : 0 ≤ Z.of_nat q < n).
    { apply lookup_lt_Some in Hp. unfold n. lia. }
    destruct (String.eqb dir1 "next"); intros Hq.
    - destruct (decide (Z.of_nat q + 1 < n)).
      + rewrite Z.mod_small in Hq by lia. lia.
      + replace (Z.of_nat q + 1) with n in Hq by lia.
        rewrite Z.mod_same in Hq by lia. unfold n in *. lia.
    - destruct (decide (0 ≤ Z.of_nat q + -1)).
      + rewrite Z.mod_small in Hq by lia. lia.
      + replace (Z.of_nat q + -1) with (n - 1 + -1 * n) in Hq by lia.
        rewrite Z.mod_add in Hq by lia. rewrite Z.mod_small in Hq by lia.
        unfold n in *. lia. }
  assert (Hot : o ≠ t).
  { intros ->. apply Hpq.
    apply (NoDup_lookup _ _ _ _ (cyclable_from_NoDup 0 (dims s0)) Hp Hcq). }
  assert (Hunique : ∀ j dj, dims s0 !! j = Some dj → d_role dj = scroll → j = o).
  { intros j dj Hj Hr.
    apply (count_role_unique scroll (dims s0) j o dj d_o (inv_scroll _ HI0)
             Hj Hr Hdo Hro). }
  assert (Hview : map (λ d, is_view (d_role d)) (dims s1)
                  = map (λ d, is_view (d_role d)) (dims s0)).
  { apply list_eq. intros j. rewrite !lookup_map.
    destruct (dims s0 !! j) as [dj |] eqn:Hj.
    - rewrite (Hlook1 j dj Hj). simpl. f_equal.
      case_decide as Hjt.
      + subst j. rewrite Ht in Hj. injection Hj as <-. by rewrite Hdt.
      + case_decide as Hr; [by rewrite Hr | done].
    - rewrite (proj2 (lookup_ge_None _ _)); [done |].
      rewrite Hlen1. by apply lookup_ge_None. }
  pose proof (cyclable_from_view_eq 0 _ _ Hview) as Hcyc1.
  assert (Ht1 : dims s1 !! t = Some (set_role scroll dt)).
  { rewrite (Hlook1 t dt Ht). by rewrite decide_True. }
  assert (Ho1 : dims s1 !! o = Some (set_role fixed d_o)).
  { rewrite (Hlook1 o d_o Hdo). rewrite decide_False by done.
    by rewrite decide_True. }
  destruct (cycle_step dir2 s1 t q HI1 Hplay1 Hidx1
              ltac:(by rewrite Hcyc1) ltac:(by rewrite Hcyc1))
    as (p' & o' & do' & s2 & Hp' & Hcp' & Ho' & Hdo' & Hc2 & Hs2).
  rewrite Hcyc1 in Hp', Hcp'.
  assert (Hpp : p' = p).
  { apply Nat2Z.inj. rewrite Hp', Hq.
    set (n := Z.of_nat (length (cyclable_from 0 (dims s0)))) in *.
    rewrite Zplus_mod_idemp_l.
    replace (Z.of_nat p + (if String.eqb dir1 "next" then 1 else -1)
             + (if String.eqb dir2 "next" then 1 else -1))
      with (Z.of_nat p) by lia.
    apply Z.mod_small. apply lookup_lt_Some in Hp. unfold n. lia. }
  subst p'. rewrite Hp in Hcp'. injection Hcp' as Hoo. apply Nat2Z.inj in Hoo.
  subst o'. rewrite Hc2. f_equal.
  assert (Hvo1 : valid_dim s1 (Z.of_nat o)).
  { unfold valid_dim in *. rewrite Hlen1. done. }
  destruct (set_scroll_dimension_spec s1 (Z.of_nat o) do' HI1 Hvo1
              ltac:(by rewrite Nat2Z.id) Hdo')
    as (s2' & Hs2' & Hidx2 & Hplay2 & Hlook2).
  rewrite Hs2 in Hs2'. injection Hs2' as <-.
  rewrite Nat2Z.id in Hlook2.
  pose proof (set_scroll_dimension_length _ _ _ Hs2) as Hlen2.
  assert (Hdims : dims s2 = dims s0).
  { apply list_eq. intros j.
    destruct (dims s0 !! j) as [dj |] eqn:Hj.
    - pose proof (Hlook1 j dj Hj) as H1.
      rewrite (Hlook2 j _ H1). f_equal.
      destruct (decide (j = o)) as [-> | Hjo].
      + rewrite Hdo in Hj. injection Hj as <-.
        rewrite decide_False by done. rewrite decide_True by done.
        by destruct d_o; simpl in *; subst.
      + destruct (decide (j = t)) as [-> | Hjt].
        * rewrite Ht in Hj. injection Hj as <-. simpl.
          assert (Hfixed : d_role dt = fixed).
          { apply is_view_false in Hdt as [Hs | Hf]; [| done].
            exfalso. apply Hot. symmetry. by apply (Hunique t dt). }
          by destruct dt; simpl in *; subst.
        * assert (Hns : d_role dj ≠ scroll).
          { intros Hr. by apply Hjo, (Hunique j dj). }
          repeat (rewrite (decide_False (P := d_role dj = scroll)) by done).
          rewrite ?decide_False by done. done.
    - rewrite (proj2 (lookup_ge_None _ _)); [done |].
      rewrite Hlen2, Hlen1. by apply lookup_ge_None. }
  destruct s2 as [ds2 idx2 play2], s0 as [ds0 idx0 play0]. simpl in *.
  by subst.
Qed.

(** Cycling the scroll dimension forward and then backward, or backward
    and then forward, restores every role and the scroll position. *)
Theorem cycle_next_prev_round_trip (s : Viewer) :
  Inv s → scroll_dim_idx s ≠ -1 →
  (∃ s1, _change_scroll_dimension_by_cycle "next" s = Ok s1
         ∧ _change_scroll_dimension_by_cycle "prev" s1 = Ok (stop_if_playing s))
  ∧ (∃ s1, _change_scroll_dimension_by_cycle "prev" s = Ok s1
           ∧ _change_scroll_dimension_by_cycle "next" s1 = Ok (stop_if_playing s)).
Proof.
  intros HI Hne. split; by apply cycle_round_trip.
Qed.

Lemma cycle_next_prev_round_trip_witness :
  ∃ s1, _change_scroll_dimension_by_cycle "next" example_initial_state = Ok s1
        ∧ _change_scroll_dimension_by_cycle "prev" s1
          = Ok (stop_if_playing example_initial_state).
Proof.
  apply (proj1 (cycle_next_prev_round_trip example_initial_state
                  example_initial_state_Inv ltac:(discriminate))).
Defined.

(** ** The grid key *)

Lemma clear_grid_id (ds : list Dim) :
  count_role view_grid ds = 0%nat → clear_grid ds = ds.
Proof.
  unfold clear_grid. induction ds as [| d rest IH]; simpl; [done |].
  destruct (decide (d_role d = view_grid)); [lia |].
  intros H. by rewrite IH by lia.
Qed.

Lemma scroll_fixed_loop_view_map (f : bool) (ds : list Dim) :
  map (λ d, is_view (d_role d)) (scroll_fixed_loop f ds)
  = map (λ d, is_view (d_role d)) ds.
Proof.
  revert f. induction ds as [| d rest IH]; intros f; [done |]. simpl.
  destruct (is_view (d_role d)) eqn:E; simpl.
  - by rewrite E, IH.
  - destruct f; simpl; by rewrite IH.
Qed.

Lemma first_nonview_view_eq (ds ds' : list Dim) :
  map (λ d, is_view (d_role d)) ds' = map (λ d, is_view (d_role d)) ds →
  first_nonview ds' = first_nonview ds.
Proof.
  revert ds'. induction ds as [| a rest IH]; intros [| a' rest'] H;
    simpl in H; try done.
  rewrite !first_nonview_cons.
  assert (is_view (d_role a') = is_view (d_role a)) as -> by congruence.
  by rewrite (IH rest') by congruence.
Qed.

Lemma grid_key_round_trip (answer answer' : dialog_answer) (s : Viewer) :
  Inv s → count_role view_grid (dims s) = 0%nat →
  partitioned (dims s) → scroll_dim_idx s ≠ -1 →
  ∃ s1, _on_key_press "g" answer s = Ok s1
        ∧ find_role view_grid (dims s1) = Some (Z.to_nat (scroll_dim_idx s))
        ∧ _on_key_press "g" answer' s1 = Ok (stop_if_playing s).
Proof.
  intros HI Hnog Hpart Hne.
  pose proof (stop_if_playing_Inv s HI) as HI0.
  pose proof (stop_if_playing_is_playing s) as Hplay.
  assert (Hkey : ∀ a s', _on_key_press "g" a s'
            = match find_role view_grid (dims (stop_if_playing s')) with
              | Some g => _toggle_grid_dimension (Z.of_nat g) (stop_if_playing s')
              | None =>
                  if negb (scroll_dim_idx (stop_if_playing s') =? -1)
                  then _toggle_grid_dimension
                         (scroll_dim_idx (stop_if_playing s')) (stop_if_playing s')
                  else Ok (stop_if_playing s')
              end).
  { intros a s'. unfold _on_key_press.
    cbn [existsb String.eqb Ascii.eqb Bool.eqb orb andb].
    by rewrite andb_false_r. }
  rewrite Hkey. rewrite <- (stop_if_playing_scroll s) in Hne.
  replace (scroll_dim_idx s) with (scroll_dim_idx (stop_if_playing s))
    by apply stop_if_playing_scroll.
  rewrite <- (stop_if_playing_dims s) in Hnog, Hpart.
  set (s0 := stop_if_playing s) in *. clearbody s0. clear HI s.
  destruct (scroll_cache_position s0 HI0 Hne) as (o & d_o & Ho & Hdo & Hro & Hvo).
  rewrite (proj1 (count_role_zero _ _) Hnog).
  replace (scroll_dim_idx s0 =? -1) with false
    by (symmetry; apply Z.eqb_neq; lia).
  cbn [negb]. rewrite Ho, Nat2Z.id.
  (* first press *)
  assert (Hget : getitem (dims s0) (Z.of_nat o) = Ok d_o).
  { apply getitem_Ok. exists o. split; [| done].
    rewrite list_pos_valid by done. by rewrite Nat2Z.id. }
  assert (Hpos : list_pos (dims s0) (Z.of_nat o) = Some o).
  { rewrite list_pos_valid by done. by rewrite Nat2Z.id. }
  set (A := <[o := set_role view_grid d_o]> (dims s0)).
  set (s1 := _reassign_scroll_and_fixed (with_dims A s0)).
  assert (Hs1 : _toggle_grid_dimension (Z.of_nat o) s0 = Ok s1).
  { unfold _toggle_grid_dimension. rewrite (stop_if_playing_id s0 Hplay).
    rewrite Hget. cbn [mbind result_bind].
    rewrite decide_False by congruence. rewrite Hro. cbn [is_view negb].
    replace (negb (is_view scroll)) with true by done.
    rewrite (clear_grid_id _ Hnog).
    rewrite (set_role_at_Ok _ _ _ _ _ Hpos Hdo). done. }
  exists s1. split; [done |].
  assert (Hlt : (o < length (dims s0))%nat) by (by eapply lookup_lt_Some).
  assert (Ho1 : dims s1 !! o = Some (set_role view_grid d_o)).
  { simpl. rewrite scroll_fixed_loop_false_lookup. unfold A.
    by rewrite list_lookup_insert_eq. }
  destruct (toggle_grid_dimension_Inv (Z.of_nat o) s0 HI0 Hvo) as (s1' & Hs1' & HI1).
  rewrite Hs1 in Hs1'. injection Hs1' as <-.
  assert (Hfg : find_role view_grid (dims s1) = Some o).
  { by apply (find_role_unique view_grid _ o (set_role view_grid d_o)
                (inv_grid _ HI1)). }
  split; [done |].
  (* second press *)
  rewrite Hkey. rewrite (stop_if_playing_id s1) by done. rewrite Hfg.
  assert (Hget1 : getitem (dims s1) (Z.of_nat o) = Ok (set_role view_grid d_o)).
  { apply getitem_Ok. exists o. split; [| done].
    rewrite list_pos_valid; [by rewrite Nat2Z.id |].
    apply lookup_lt_Some in Ho1. lia. }
  assert (Hpos1 : list_pos (dims s1) (Z.of_nat o) = Some o).
  { rewrite list_pos_valid; [by rewrite Nat2Z.id |].
    apply lookup_lt_Some in Ho1. lia. }
  unfold _toggle_grid_dimension. rewrite (stop_if_playing_id s1) by done.
  rewrite Hget1. cbn [mbind result_bind]. rewrite decide_True by done.
  rewrite (set_role_at_Ok _ _ _ _ _ Hpos1 Ho1). cbn [mbind result_bind].
  f_equal.
  replace (set_role scroll (set_role view_grid d_o)) with d_o
    by (destruct d_o; simpl in *; by subst).
  set (B := <[o := d_o]> (dims s1)).
  assert (HviewB : map (λ d, is_view (d_role d)) B
                   = map (λ d, is_view (d_role d)) (dims s0)).
  { unfold B. rewrite map_insert. simpl.
    rewrite scroll_fixed_loop_view_map. unfold A. rewrite map_insert.
    rewrite list_insert_insert_eq. apply list_insert_id.
    by rewrite lookup_map, Hdo. }
  assert (Hfirst : first_nonview (dims s0) = Some o).
  { specialize (Hpart o d_o Hdo ltac:(by rewrite Hro)).
    rewrite Hro in Hpart. by case_decide. }
  assert (HB : scroll_fixed_loop false B = dims s0).
  { apply list_eq. intros j. rewrite scroll_fixed_loop_false_lookup.
    rewrite (first_nonview_view_eq _ _ HviewB), Hfirst.
    destruct (decide (j = o)) as [-> | Hjo].
    - unfold B. rewrite list_lookup_insert_eq
        by (apply lookup_lt_Some in Ho1; lia).
      simpl. rewrite Hro. replace (is_view scroll) with false by done.
      rewrite decide_True by done. rewrite Hdo. f_equal.
      by apply set_role_same.
    - unfold B. rewrite list_lookup_insert_ne by done.
      simpl. rewrite scroll_fixed_loop_false_lookup. unfold A.
      rewrite list_lookup_insert_ne by done.
      destruct (dims s0 !! j) as [dj |] eqn:Hj; simpl; [| done]. f_equal.
      destruct (is_view (d_role dj)) eqn:Ev; [by rewrite Ev |].
      assert (Hfixed : d_role dj = fixed).
      { rewrite (Hpart j dj Hj Ev), Hfirst. by rewrite decide_False by congruence. }
      rewrite (decide_False (P := Some o = Some j)) by congruence.
      case_decide; simpl; (destruct dj; simpl in *; by subst). }
  unfold _reassign_scroll_and_fixed, _update_scroll_dim_index, with_dims.
  cbn [dims scroll_dim_idx is_playing]. fold B. rewrite HB.
  rewrite <- (inv_cache _ HI0). by destruct s0.
Qed.

(** Starting without a grid dimension, with the scroll role on the first
    dimension that has no view role and [fixed] on the others, the key "g"
    turns the scroll dimension into the grid dimension and a second "g"
    restores every role and the scroll position. *)
Theorem grid_key_twice_restores_roles (answer answer' : dialog_answer)
    (s : Viewer) :
  Inv s → count_role view_grid (dims s) = 0%nat →
  partitioned (dims s) → scroll_dim_idx s ≠ -1 →
  ∃ s1, _on_key_press "g" answer s = Ok s1
        ∧ find_role view_grid (dims s1) = Some (Z.to_nat (scroll_dim_idx s))
        ∧ _on_key_press "g" answer' s1 = Ok (stop_if_playing s).
Proof. apply grid_key_round_trip. Qed.

Lemma grid_key_twice_restores_roles_witness :
  ∃ s1, _on_key_press "g" Dismissed example_initial_state = Ok s1
        ∧ find_role view_grid (dims s1)
          = Some (Z.to_nat (scroll_dim_idx example_initial_state))
        ∧ _on_key_press "g" Dismissed s1
          = Ok (stop_if_playing example_initial_state).
Proof.
  apply (grid_key_twice_restores_roles Dismissed Dismissed example_initial_state
           example_initial_state_Inv eq_refl
           (reassign_scroll_and_fixed_partitioned example_initial_state)
           ltac:(discriminate)).
Defined.

(** * Further properties of the rendering *)

Lemma clear_grid_sizes (ds : list Dim) : map d_size (clear_grid ds) = map d_size ds.
Proof.
  unfold clear_grid. induction ds as [| d rest IH]; simpl; [done |].
  rewrite IH. by destruct (decide (d_role d = view_grid)).
Qed.

Lemma get_view_indices_clear_grid (ds : list Dim) :
  _get_view_indices ds = default_slicer (clear_grid ds).
Proof.
  unfold _get_view_indices, default_slicer, clear_grid.
  induction ds as [| d rest IH]; simpl; [done |]. rewrite IH. f_equal.
  destruct d as [r idx sz]. simpl. by destruct r.
Qed.

Lemma mosaic_cell (rows cols h w r c : Z) :
  0 < h → 0 < w → 0 < cols → 0 ≤ r < rows * h → 0 ≤ c < cols * w →
  let k := (r `div` h) * cols + c `div` w in
  0 ≤ k < rows * cols
  ∧ (k `div` cols) * h + r `mod` h = r
  ∧ (k `mod` cols) * w + c `mod` w = c
  ∧ 0 ≤ r `mod` h < h ∧ 0 ≤ c `mod` w < w.
Proof.
  intros Hh Hw Hcols Hr Hc k.
  assert (HR : 0 ≤ r `div` h < rows).
  { split; [apply Z.div_pos; lia | apply Z.div_lt_upper_bound; lia]. }
  assert (HC : 0 ≤ c `div` w < cols).
  { split; [apply Z.div_pos; lia | apply Z.div_lt_upper_bound; lia]. }
  assert (Hkd : k `div` cols = r `div` h).
  { unfold k. rewrite Z.div_add_l by lia.
    rewrite (Z.div_small (c `div` w) cols) by lia. lia. }
  assert (Hkm : k `mod` cols = c `div` w).
  { unfold k. rewrite Z.add_comm, Z.mod_add by lia. apply Z.mod_small. lia. }
  pose proof (Z.div_mod r h ltac:(lia)).
  pose proof (Z.div_mod c w ltac:(lia)).
  pose proof (Z.mod_pos_bound r h Hh).
  pose proof (Z.mod_pos_bound c w Hw).
  rewrite Hkd, Hkm. split_and!; try lia. all: unfold k; nia.
Qed.

Section MoreRenderProofs.

Context {V : Type} (zero : V).

(** Every pixel of the mosaic comes from a tile: the cell grid has exactly
    as many cells as the grid dimension has indices, so none of the zeros
    the image is created with is left.  Pixel [(r, c)] shows element
    [(r % h, c % w)] of tile [(r // h) * cols + c // w]. *)
Theorem mosaic_has_no_empty_cell (s : Viewer) (arr : ndarray V) (g i j : nat)
    (dg dx dy : Dim) (rows cols : Z) :
  Inv s → shape arr = map d_size (dims s) →
  dims s !! g = Some dg → d_role dg = view_grid →
  dims s !! i = Some dx → d_role dx = view_x →
  dims s !! j = Some dy → d_role dy = view_y →
  _calculate_grid_layout (d_size dg) = (rows, cols) →
  ∃ img,
    _get_display_image zero s arr = Ok img
    ∧ ∀ r c, 0 ≤ r < rows * d_size dx → 0 ≤ c < cols * d_size dy →
        ∃ tile,
          0 ≤ (r `div` d_size dx) * cols + c `div` d_size dy < d_size dg
          ∧ _get_single_slice s arr
              (Some (tile_slicer (dims s) g
                       ((r `div` d_size dx) * cols + c `div` d_size dy)))
            = Ok tile
          ∧ item img [r; c] = item tile [r `mod` d_size dx; c `mod` d_size dy].
Proof.
  intros HI Hshape Hg Hrg Hi Hrx Hj Hry Hlayout.
  pose proof (Inv_size_pos s g dg HI Hg) as Hn.
  pose proof (Inv_size_pos s i dx HI Hi) as Hh.
  pose proof (Inv_size_pos s j dy HI Hj) as Hw.
  destruct (calculate_grid_layout_spec _ _ _ Hn Hlayout)
    as (_ & _ & _ & _ & _ & _ & _ & Hmul & Hcols).
  destruct (build_grid_image_spec zero s arr g i j dg dx dy rows cols
              HI Hshape Hg Hrg Hi Hrx Hj Hry Hlayout)
    as (img & Himg & _ & _ & Htiles).
  exists img. split.
  - unfold _get_display_image.
    by rewrite (find_role_unique view_grid (dims s) g dg (inv_grid _ HI) Hg Hrg).
  - intros r c Hr Hc.
    destruct (mosaic_cell rows cols _ _ r c Hh Hw Hcols Hr Hc)
      as (Hk & Hrow & Hcol & Ha & Hb).
    rewrite Hmul in Hk.
    destruct (Htiles _ Hk) as (tile & Htile & _ & _ & Hpix).
    exists tile. split; [exact Hk |]. split; [exact Htile |].
    rewrite <- (Hpix _ _ Ha Hb). by rewrite Hrow, Hcol.
Qed.

(** The slicer of the cross-hair read-out keeps only the [view_x] and
    [view_y] dimensions as full ranges: it always extracts a two-axis slice,
    in axis order.  Without a grid dimension it is the slicer of the plain
    path, whose image is that slice, transposed when [view_y] comes before
    [view_x]. *)
Theorem view_indices_slice (s : Viewer) (arr : ndarray V) (i j : nat)
    (dx dy : Dim) :
  Inv s → shape arr = map d_size (dims s) →
  dims s !! i = Some dx → d_role dx = view_x →
  dims s !! j = Some dy → d_role dy = view_y →
  ∃ sl,
    nd_getitem arr (_get_view_indices (dims s)) = Ok sl
    ∧ shape sl = (if Z.of_nat j <? Z.of_nat i
                  then [d_size dy; d_size dx]
                  else [d_size dx; d_size dy])
    ∧ (count_role view_grid (dims s) = 0%nat →
       _get_view_indices (dims s) = default_slicer (dims s)
       ∧ _get_display_image zero s arr
         = Ok (if Z.of_nat j <? Z.of_nat i then T sl else sl)).
Proof.
  intros HI Hshape Hi Hrx Hj Hry.
  rewrite get_view_indices_clear_grid.
  assert (Hsh : index_shape (shape arr) (default_slicer (clear_grid (dims s)))
                = Ok (if Z.of_nat j <? Z.of_nat i
                      then [d_size dy; d_size dx]
                      else [d_size dx; d_size dy])).
  { rewrite Hshape, <- clear_grid_sizes.
    rewrite index_shape_default.
    - f_equal. apply view_sizes_xy.
      + rewrite clear_grid_count by done. apply (inv_x _ HI).
      + rewrite clear_grid_count by done. apply (inv_y _ HI).
      + apply clear_grid_count_grid.
      + unfold clear_grid. rewrite lookup_map, Hi. simpl.
        by rewrite decide_False by congruence.
      + done.
      + unfold clear_grid. rewrite lookup_map, Hj. simpl.
        by rewrite decide_False by congruence.
      + done.
    - eapply index_ok_geometry; [apply clear_grid_geometry | apply (inv_index _ HI)]. }
  unfold nd_getitem at 1. rewrite Hsh. cbn [mbind result_bind].
  eexists. split; [done |]. split; [done |].
  intros Hnog. rewrite (clear_grid_id _ Hnog). split; [done |].
  unfold _get_display_image. rewrite (proj1 (count_role_zero _ _) Hnog).
  rewrite (get_single_slice_unfold s arr i j None).
  - simpl. unfold nd_getitem. rewrite (clear_grid_id _ Hnog) in Hsh.
    rewrite Hsh. done.
  - eapply find_role_unique; eauto. rewrite (inv_x _ HI). lia.
  - eapply find_role_unique; eauto. rewrite (inv_y _ HI). lia.
Qed.

End MoreRenderProofs.

Lemma mosaic_has_no_empty_cell_witness :
  ∃ img,
    _get_display_image 0 example_grid_state example_4d_array = Ok img
    ∧ ∀ r c, 0 ≤ r < 2 * 2 → 0 ≤ c < 2 * 3 →
        ∃ tile,
          0 ≤ (r `div` 2) * 2 + c `div` 3 < 4
          ∧ _get_single_slice example_grid_state example_4d_array
              (Some (tile_slicer (dims example_grid_state) 2
                       ((r `div` 2) * 2 + c `div` 3)))
            = Ok tile
          ∧ item img [r; c] = item tile [r `mod` 2; c `mod` 3].
Proof.
  apply (mosaic_has_no_empty_cell 0 example_grid_state example_4d_array
           2 0 1 (mkDim view_grid 2 4) (mkDim view_x 1 2) (mkDim view_y 1 3)
           2 2 example_grid_state_Inv eq_refl eq_refl eq_refl eq_refl
           eq_refl eq_refl eq_refl eq_refl).
Defined.

Lemma view_indices_slice_witness :
  ∃ sl,
    nd_getitem example_4d_array (_get_view_indices (dims example_grid_state))
    = Ok sl
    ∧ shape sl = (if Z.of_nat 1 <? Z.of_nat 0 then [3; 2] else [2; 3])
    ∧ (count_role view_grid (dims example_grid_state) = 0%nat →
       _get_view_indices (dims example_grid_state)
       = default_slicer (dims example_grid_state)
       ∧ _get_display_image 0 example_grid_state example_4d_array
         = Ok (if Z.of_nat 1 <? Z.of_nat 0 then T sl else sl)).
Proof.
  apply (view_indices_slice 0 example_grid_state example_4d_array 0 1
           (mkDim view_x 1 2) (mkDim view_y 1 3)
           example_grid_state_Inv eq_refl eq_refl eq_refl eq_refl eq_refl).
Defined.

(** * The frequency view and the complex view mode *)

Lemma sorted_nodup_increasing (l : list Z) :
  Sorted.StronglySorted Z.le l → NoDup l →
  ∀ (a b : nat) (x y : Z),
    l !! a = Some x → l !! b = Some y → (a < b)%nat → x < y.
Proof.
  induction 1 as [| h rest Hs IH Hle]; intros Hnd a b x y Ha Hb Hab; [done |].
  inversion Hnd as [| ? ? Hnotin Hnd']; subst.
  destruct b as [| b]; [lia |]. simpl in Hb.
  destruct a as [| a]; simpl in Ha.
  - injection Ha as ->.
    assert (Hy : y ∈ rest) by (by eapply list_elem_of_lookup_2).
    rewrite Forall_forall in Hle. apply list_elem_of_In in Hy as Hy'.
    specialize (Hle y Hy').
    assert (x ≠ y) by (intros ->; done). lia.
  - apply (IH Hnd' a b); try done. lia.
Qed.

Lemma sorted_set_spec (l : list Z) :
  (∀ z, z ∈ sorted_set l ↔ z ∈ l)
  ∧ (∀ (a b : nat) (x y : Z),
       sorted_set l !! a = Some x → sorted_set l !! b = Some y →
       (a < b)%nat → x < y).
Proof.
  unfold sorted_set. split.
  - intros z. rewrite sorting.merge_sort_Permutation. apply elem_of_remove_dups.
  - apply sorted_nodup_increasing.
    + apply sorting.StronglySorted_merge_sort; apply _.
    + rewrite sorting.merge_sort_Permutation. apply NoDup_remove_dups.
Qed.

Lemma check_fft_dims_Ok (ndim : Z) (l : list Z) :
  check_fft_dims ndim l = Ok () ↔ Forall (λ z, 0 ≤ z < ndim) l.
Proof.
  induction l as [| d rest IH]; simpl.
  - split; [constructor | done].
  - destruct (0 <=? d) eqn:E1; simpl.
    + destruct (d <? ndim) eqn:E2; simpl.
      * rewrite IH. apply Z.leb_le in E1. apply Z.ltb_lt in E2.
        split; [by constructor | by inversion 1].
      * apply Z.ltb_ge in E2. split; [done | inversion 1; lia].
    + apply Z.leb_gt in E1. split; [done | inversion 1; lia].
Qed.

Lemma check_fft_dims_cases (ndim : Z) (l : list Z) :
  check_fft_dims ndim l = Ok ()
  ∨ ∃ d, d ∈ l ∧ ¬ (0 ≤ d < ndim)
         ∧ check_fft_dims ndim l
           = Raise (ValueError ("Dimension " ++ str_of_Z d
                                  ++ " is out of range (0-"
                                  ++ str_of_Z (ndim - 1) ++ ").")).
Proof.
  induction l as [| d rest IH]; simpl; [by left |].
  destruct (negb _) eqn:E.
  - right. exists d. split_and!; [apply list_elem_of_here | | done].
    intros [H1 H2]. apply Z.leb_le in H1. apply Z.ltb_lt in H2.
    by rewrite H1, H2 in E.
  - destruct IH as [-> | (d' & Hin & Hbad & ->)]; [by left |].
    right. exists d'. split_and!; try done. by apply list_elem_of_further.
Qed.

Lemma ints_of_parts_Some (ints : list Z) :
  ints_of_parts (map Some ints) = Ok ints.
Proof. induction ints as [| z rest IH]; simpl; [done |]. by rewrite IH. Qed.

Lemma ints_of_parts_cases (parts : list (option Z)) :
  (∃ ints, ints_of_parts parts = Ok ints ∧ parts = map Some ints)
  ∨ (None ∈ parts
     ∧ ints_of_parts parts
       = Raise (ValueError "invalid literal for int() with base 10")).
Proof.
  induction parts as [| p rest IH]; simpl; [left; by exists [] |].
  destruct p as [z |]; simpl.
  - destruct IH as [(ints & -> & ->) | (Hin & ->)].
    + left. by exists (z :: ints).
    + right. split; [by apply list_elem_of_further | done].
  - right. split; [apply list_elem_of_here | done].
Qed.

(** The frequency view is switched on exactly when the answer lists at
    least one token, every token is an integer and every integer is a
    position of the shape; the stored dimensions are then the distinct
    integers entered, in strictly increasing order.  Any other answer leaves
    the view off with a warning naming a ValueError, and toggling while the
    view is on switches it off and forgets the dimensions, whatever the
    answer. *)
Theorem fft_view_toggle (ndim : Z) (parts : list (option Z)) (f : FftView) :
  is_fft_view f = false →
  (∀ ints,
     parts = map Some ints → ints ≠ [] → Forall (λ z, 0 ≤ z < ndim) ints →
     _toggle_fft_view ndim (Entered parts) f
     = Ok ({| is_fft_view := true; fft_dims := Some (sorted_set ints) |}, None)
     ∧ (∀ z, z ∈ sorted_set ints ↔ z ∈ ints)
     ∧ (∀ (a b : nat) (x y : Z),
          sorted_set ints !! a = Some x → sorted_set ints !! b = Some y →
          (a < b)%nat → x < y))
  ∧ (∀ f' w,
       _toggle_fft_view ndim (Entered parts) f = Ok (f', w) →
       is_fft_view f' = true →
       ∃ ints, parts = map Some ints ∧ ints ≠ []
               ∧ Forall (λ z, 0 ≤ z < ndim) ints
               ∧ fft_dims f' = Some (sorted_set ints) ∧ w = None)
  ∧ (∃ f' w, _toggle_fft_view ndim (Entered parts) f = Ok (f', w)
             ∧ (is_fft_view f' = false → fft_dims f' = fft_dims f ∧ is_Some w))
  ∧ (∀ answer l,
       _toggle_fft_view ndim answer {| is_fft_view := true; fft_dims := l |}
       = Ok ({| is_fft_view := false; fft_dims := None |}, None)).
Proof.
  intros Hoff.
  assert (Hinrange : ∀ ints, Forall (λ z, 0 ≤ z < ndim) (sorted_set ints)
                             ↔ Forall (λ z, 0 ≤ z < ndim) ints).
  { intros ints. rewrite !list.Forall_forall.
    destruct (sorted_set_spec ints) as [Hmem _].
    split; intros H z Hz; apply H; by apply Hmem. }
  unfold _toggle_fft_view. rewrite Hoff. unfold _prompt_for_fft_dims.
  split_and!.
  - intros ints -> Hne Hok.
    destruct (sorted_set_spec ints) as [Hmem Hinc]. split_and!; try done.
    unfold fft_dims_from_parts. destruct ints as [| z rest]; [done |].
    cbn [map]. change (Some z :: map Some rest) with (map Some (z :: rest)).
    rewrite ints_of_parts_Some. cbn [mbind result_bind].
    rewrite (proj2 (check_fft_dims_Ok _ _)) by (by apply Hinrange).
    done.
  - intros f' w. unfold fft_dims_from_parts.
    destruct parts as [| p rest]; [by intros [= <- <-] |].
    destruct (ints_of_parts_cases (p :: rest)) as [(ints & -> & Heq) | (_ & ->)];
      cbn [mbind result_bind]; [| by intros [= <- <-]].
    destruct (check_fft_dims_cases ndim (sorted_set ints))
      as [Hck | (d & _ & _ & ->)]; cbn [mbind result_bind];
      [| by intros [= <- <-]].
    rewrite Hck. cbn [mbind result_bind]. intros [= <- <-] _.
    exists ints. split_and!; try done.
    + intros ->. done.
    + by apply Hinrange, check_fft_dims_Ok.
  - unfold fft_dims_from_parts.
    destruct parts as [| p rest]; [eexists _, _; split; [done |]; eauto |].
    destruct (ints_of_parts_cases (p :: rest)) as [(ints & -> & Heq) | (_ & ->)];
      cbn [mbind result_bind]; [| eexists _, _; split; [done |]; eauto].
    destruct (check_fft_dims_cases ndim (sorted_set ints))
      as [-> | (d & _ & _ & ->)]; cbn [mbind result_bind];
      eexists _, _; (split; [done |]); simpl; eauto. done.
  - done.
Qed.

Lemma fft_view_toggle_witness :
  _toggle_fft_view 4 (Entered [Some 3; Some 1; Some 3])
    {| is_fft_view := false; fft_dims := None |}
  = Ok ({| is_fft_view := true; fft_dims := Some (sorted_set [3; 1; 3]) |}, None)
  ∧ (∀ z, z ∈ sorted_set [3; 1; 3] ↔ z ∈ [3; 1; 3])
  ∧ (∀ (a b : nat) (x y : Z),
       sorted_set [3; 1; 3] !! a = Some x → sorted_set [3; 1; 3] !! b = Some y →
       (a < b)%nat → x < y).
Proof.
  apply (proj1 (fft_view_toggle 4 [Some 3; Some 1; Some 3]
                  {| is_fft_view := false; fft_dims := None |} eq_refl)
           [3; 1; 3] eq_refl).
  - discriminate.
  - apply Forall_cons_2; [lia |]. apply Forall_cons_2; [lia |].
    apply Forall_cons_2; [lia |]. apply Forall_nil_2.
Defined.

(** For complex data the key "c" steps through magnitude, phase, real and
    imag and returns to the mode it started from after four presses; the
    name it puts into the drop-down is mapped back to the same mode by the
    drop-down's own handler, which maps every text to one of the four
    modes.  For real data the key changes nothing. *)
Theorem complex_view_cycle (mode : string) :
  mode ∈ complex_modes →
  (∃ m1 n1 m2 n2 m3 n3 n4,
     _cycle_complex_view true mode = Ok (m1, Some n1)
     ∧ _cycle_complex_view true m1 = Ok (m2, Some n2)
     ∧ _cycle_complex_view true m2 = Ok (m3, Some n3)
     ∧ _cycle_complex_view true m3 = Ok (mode, Some n4)
     ∧ m1 ≠ mode ∧ m2 ≠ mode ∧ m3 ≠ mode
     ∧ _on_complex_view_changed n1 mode = m1
     ∧ _on_complex_view_changed n2 m1 = m2
     ∧ _on_complex_view_changed n3 m2 = m3
     ∧ _on_complex_view_changed n4 m3 = mode)
  ∧ (∀ text m, _on_complex_view_changed text m ∈ complex_modes)
  ∧ (∀ m, _cycle_complex_view false m = Ok (m, None)).
Proof.
  intros Hin. split_and!.
  - unfold complex_modes in Hin.
    repeat (apply elem_of_cons in Hin as [-> | Hin]);
      [| | | | by apply elem_of_nil in Hin];
      do 7 eexists; split_and!; reflexivity || discriminate.
  - intros text m. unfold _on_complex_view_changed, mode_map_get, complex_modes.
    repeat (destruct (String.eqb text _);
            [repeat ((by apply list_elem_of_here) || apply list_elem_of_further) |]).
    apply list_elem_of_here.
  - done.
Qed.

Lemma complex_view_cycle_witness :
  ∃ m1 n1 m2 n2 m3 n3 n4,
    _cycle_complex_view true "real" = Ok (m1, Some n1)
    ∧ _cycle_complex_view true m1 = Ok (m2, Some n2)
    ∧ _cycle_complex_view true m2 = Ok (m3, Some n3)
    ∧ _cycle_complex_view true m3 = Ok ("real", Some n4)
    ∧ m1 ≠ "real" ∧ m2 ≠ "real" ∧ m3 ≠ "real"
    ∧ _on_complex_view_changed n1 "real" = m1
    ∧ _on_complex_view_changed n2 m1 = m2
    ∧ _on_complex_view_changed n3 m2 = m3
    ∧ _on_complex_view_changed n4 m3 = "real".
Proof.
  apply (proj1 (complex_view_cycle "real"
                  ltac:(unfold complex_modes;
                        do 2 apply list_elem_of_further; apply list_elem_of_here))).
Defined.

(** * The matplotlib viewer and the fallback viewer *)

(** For a batch of at least one image the layout search ends after at most
    one round of its loop.  The layout has room for the batch and wastes
    less than one row of cells; it is at least as wide as tall, at most four
    cells wider, and no taller than the integer square root of the batch. *)
Theorem mosaic_shape_fits (fuel : nat) (batch : Z) :
  1 ≤ batch → (1 ≤ fuel)%nat →
  ∃ r c,
    mosaic_shape fuel batch = Some (r, c)
    ∧ 1 ≤ r ∧ r ≤ c ∧ c ≤ r + 4
    ∧ batch ≤ r * c ∧ r * c < batch + r
    ∧ r ≤ Z.sqrt batch.
Proof.
  intros Hb Hfuel. unfold mosaic_shape.
  pose proof (Z.sqrt_spec batch ltac:(lia)) as Hsq. simpl in Hsq.
  set (m0 := Z.sqrt batch) in *.
  assert (Hm0 : 1 ≤ m0) by (apply Z.sqrt_le_square; lia).
  pose proof (Z.mul_div_le batch m0 ltac:(lia)) as Hle.
  pose proof (Z.mul_succ_div_gt batch m0 ltac:(lia)) as Hgt.
  set (m1 := batch `div` m0) in *.
  assert (Hm1 : 1 ≤ m1) by nia.
  assert (Hm1' : m1 ≤ m0 + 2) by nia.
  destruct fuel as [| fuel]; [lia |].
  assert (Hwhile : ∃ c, mosaic_while (S fuel) batch m0 m1 = Some c
                        ∧ batch ≤ m0 * c ∧ m0 * c < batch + m0
                        ∧ m1 ≤ c ≤ m1 + 1
                        ∧ (c = m1 + 1 → m0 * m1 < batch)).
  { cbn [mosaic_while]. destruct (m0 * m1 <? batch) eqn:E.
    - apply Z.ltb_lt in E. exists (m1 + 1).
      assert ((m0 * (m1 + 1) <? batch) = false) as Hstop
        by (apply Z.ltb_ge; lia).
      split; [destruct fuel; cbn [mosaic_while]; by rewrite Hstop |].
      split_and!; lia.
    - apply Z.ltb_ge in E. exists m1. split_and!; try done; lia. }
  destruct Hwhile as (c & -> & Hc1 & Hc2 & Hc3 & Hc4). cbn [mbind option_bind].
  destruct ((m0 - 1) * (c + 1) =? batch) eqn:Eadj.
  - apply Z.eqb_eq in Eadj. exists (m0 - 1), (c + 1).
    split; [done |]. split_and!; nia.
  - exists m0, c. split; [done |]. split_and!; nia.
Qed.

Lemma mosaic_shape_fits_witness :
  ∃ r c,
    mosaic_shape 1 10 = Some (r, c)
    ∧ 1 ≤ r ∧ r ≤ c ∧ c ≤ r + 4
    ∧ 10 ≤ r * c ∧ r * c < 10 + r
    ∧ r ≤ Z.sqrt 10.
Proof.
  apply (mosaic_shape_fits 1 10); lia.
Defined.

Lemma fallback_slicer_tail (n : nat) (m k : nat) :
  (2 ≤ k)%nat → (k + m ≤ n)%nat →
  fallback_slicer_loop [0; 1] (replicate n 0) (map Z.of_nat (seq k m))
  = Ok (replicate m (int_index 0)).
Proof.
  revert k. induction m as [| m IH]; intros k Hk Hn; [done |].
  cbn [seq map fallback_slicer_loop existsb].
  replace (Z.of_nat k =? 0) with false by (symmetry; apply Z.eqb_neq; lia).
  replace (Z.of_nat k =? 1) with false by (symmetry; apply Z.eqb_neq; lia).
  cbn [orb].
  assert (Hget : getitem (replicate n 0) (Z.of_nat k) = Ok 0).
  { apply getitem_Ok. exists k. split.
    - rewrite list_pos_valid; [by rewrite Nat2Z.id |].
      rewrite length_replicate. lia.
    - apply lookup_replicate_2. lia. }
  rewrite Hget. cbn [mbind result_bind]. rewrite IH by lia. done.
Qed.

Lemma index_shape_zeros (rest : list Z) :
  Forall (λ n, 0 ≤ n) rest →
  (Forall (λ n, 0 < n) rest →
   index_shape rest (replicate (length rest) (int_index 0)) = Ok [])
  ∧ (¬ Forall (λ n, 0 < n) rest →
     index_shape rest (replicate (length rest) (int_index 0)) = Raise IndexError).
Proof.
  induction 1 as [| n rest Hn Hrest [IH1 IH2]]; simpl.
  - split; [done |]. intros H. exfalso. apply H. constructor.
  - destruct (decide (0 < n)) as [Hpos | Hzero].
    + replace (- n <=? 0) with true by (symmetry; apply Z.leb_le; lia).
      replace (0 <? n) with true by (symmetry; apply Z.ltb_lt; lia).
      simpl. split.
      * intros H. apply IH1. by inversion H.
      * intros H. apply IH2. intros H'. apply H. by constructor.
    + replace (0 <? n) with false by (symmetry; apply Z.ltb_ge; lia).
      rewrite andb_false_r. split; [| done].
      intros H. inversion H; subst. lia.
Qed.

Lemma index_source_zeros (rest : list Z) (idx : list Z) :
  index_source rest (replicate (length rest) (int_index 0)) idx
  = (replicate (length rest) 0 ++ idx)%list.
Proof.
  induction rest as [| n rest IH]; simpl; [done |]. by rewrite IH.
Qed.

Lemma index_shape_slice (n : Z) (sh : list Z) (sl : list Slicer) :
  index_shape (n :: sh) (slice_None :: sl)
  = (rest ← index_shape sh sl; Ok (n :: rest)).
Proof. done. Qed.

Lemma index_source_slice (n j : Z) (sh idx : list Z) (sl : list Slicer) :
  index_source (n :: sh) (slice_None :: sl) (j :: idx)
  = j :: index_source sh sl idx.
Proof. done. Qed.

(** The fallback viewer refuses data with fewer than two axes, shows
    two-axis data as it is, and otherwise shows the slice over the first two
    axes at index 0 of every other axis: an image of shape
    [(shape[0], shape[1])] whose element [(a, b)] is the element
    [(a, b, 0, ..., 0)] of the data.  With more than two axes it fails with
    an IndexError exactly when one of the other axes is empty. *)
Theorem fallback_image {V : Type} (data : ndarray V) :
  Forall (λ n, 0 ≤ n) (shape data) →
  (∀ s0 s1 s2 rest,
     shape data = s0 :: s1 :: s2 :: rest →
     Forall (λ n, 0 < n) (s2 :: rest) →
     ∃ img,
       arrayshow_matplotlib_image data = Ok img
       ∧ shape img = [s0; s1] ∧ dtype img = dtype data
       ∧ ∀ a b, item img [a; b]
                = item data (a :: b :: replicate (S (length rest)) 0))
  ∧ (∀ s0 s1 s2 rest,
       shape data = s0 :: s1 :: s2 :: rest →
       ¬ Forall (λ n, 0 < n) (s2 :: rest) →
       arrayshow_matplotlib_image data = Raise IndexError)
  ∧ (∀ s0 s1, shape data = [s0; s1] → arrayshow_matplotlib_image data = Ok data)
  ∧ ((length (shape data) < 2)%nat →
     arrayshow_matplotlib_image data
     = Raise (ValueError "Data must have at least 2 dimensions")).
Proof.
  intros Hnonneg.
  assert (Hslicer : ∀ s0 s1 s2 rest,
            shape data = s0 :: s1 :: s2 :: rest →
            arrayshow_matplotlib_image data
            = nd_getitem data
                (slice_None :: slice_None
                   :: replicate (length (s2 :: rest)) (int_index 0))).
  { intros s0 s1 s2 rest Hsh. unfold arrayshow_matplotlib_image, get_slice.
    rewrite Hsh.
    replace (Z.of_nat (length (s0 :: s1 :: s2 :: rest)) <? 2) with false
      by (symmetry; apply Z.ltb_ge; simpl; lia).
    replace (Z.of_nat (length (s0 :: s1 :: s2 :: rest)) =? 2) with false
      by (symmetry; apply Z.eqb_neq; simpl; lia).
    unfold py_range. rewrite Nat2Z.id.
    change (length (s0 :: s1 :: s2 :: rest)) with (S (S (length (s2 :: rest)))).
    cbn [seq map fallback_slicer_loop existsb Z.of_nat Z.eqb orb
         mbind result_bind].
    change (Z.pos (Pos.of_succ_nat 0)) with 1. cbn [Z.eqb Pos.eqb orb].
    rewrite (fallback_slicer_tail _ (length (s2 :: rest)) 2) by lia.
    done. }
  split_and!.
  - intros s0 s1 s2 rest Hsh Hpos. rewrite (Hslicer _ _ _ _ Hsh).
    unfold nd_getitem. rewrite Hsh in Hnonneg |- *.
    assert (Hrest : Forall (λ n, 0 ≤ n) (s2 :: rest)).
    { inversion Hnonneg as [| ? ? ? H1]; subst. by inversion H1. }
    destruct (index_shape_zeros (s2 :: rest) Hrest) as [Hok _].
    specialize (Hok Hpos).
    pose proof (index_source_zeros (s2 :: rest) []) as Hsrc.
    rewrite app_nil_r in Hsrc.
    remember (replicate (length (s2 :: rest)) (int_index 0)) as zs eqn:Hzs.
    rewrite !index_shape_slice, Hok. cbn [mbind result_bind].
    eexists. split; [done |]. split_and!; try done.
    intros a b. cbn [item]. by rewrite !index_source_slice, Hsrc.
  - intros s0 s1 s2 rest Hsh Hbad. rewrite (Hslicer _ _ _ _ Hsh).
    unfold nd_getitem. rewrite Hsh in Hnonneg |- *.
    assert (Hrest : Forall (λ n, 0 ≤ n) (s2 :: rest)).
    { inversion Hnonneg as [| ? ? ? H1]; subst. by inversion H1. }
    destruct (index_shape_zeros (s2 :: rest) Hrest) as [_ Hraise].
    specialize (Hraise Hbad).
    remember (replicate (length (s2 :: rest)) (int_index 0)) as zs eqn:Hzs.
    rewrite !index_shape_slice, Hraise. done.
  - intros s0 s1 Hsh. unfold arrayshow_matplotlib_image. by rewrite Hsh.
  - intros Hlen. unfold arrayshow_matplotlib_image.
    by replace (Z.of_nat (length (shape data)) <? 2) with true
      by (symmetry; apply Z.ltb_lt; lia).
Qed.

Lemma fallback_image_witness :
  ∃ img,
    arrayshow_matplotlib_image example_4d_array = Ok img
    ∧ shape img = [2; 3] ∧ dtype img = float32
    ∧ ∀ a b, item img [a; b] = item example_4d_array (a :: b :: replicate 2 0).
Proof.
  apply (proj1 (fallback_image example_4d_array
                  ltac:(repeat (apply Forall_cons_2; [simpl; lia |]);
                        apply Forall_nil_2))
           2 3 4 [5] eq_refl).
  repeat (apply Forall_cons_2; [lia |]). apply Forall_nil_2.
Defined.

(** ** Key presses of the matplotlib viewer *)

Lemma av_get_valid {A : Type} (l : list A) (i : Z) :
  0 ≤ i < Z.of_nat (length l) →
  ∃ a, l !! Z.to_nat i = Some a ∧ av_get l i = Done a.
Proof.
  intros Hi. destruct (getitem_valid l i Hi) as (a & Ha & Hget).
  exists a. split; [done |]. unfold av_get. by rewrite Hget.
Qed.

Lemma av_set_valid {A : Type} (l : list A) (i : Z) (a : A) :
  0 ≤ i < Z.of_nat (length l) →
  av_set l i a = Done (<[Z.to_nat i := a]> l).
Proof.
  intros Hi. unfold av_set, setitem. by rewrite list_pos_valid.
Qed.


Lemma AvRange_d_slices (s : ArrayView) :
  AvRange s → 0 ≤ av_d s < Z.of_nat (length (av_slices s)).
Proof. intros H. rewrite (avr_slices s H). apply (avr_d s H). Qed.

Lemma AvRange_d_flips (s : ArrayView) :
  AvRange s → 0 ≤ av_d s < Z.of_nat (length (av_flips s)).
Proof. intros H. rewrite (avr_flips s H). apply (avr_d s H). Qed.

Lemma AvRange_with_slices (s : ArrayView) (k : nat) (v n : Z) :
  AvRange s → av_shape s !! k = Some n → 0 ≤ v < n →
  AvRange (av_with_slices (<[k := v]> (av_slices s)) s).
Proof.
  intros H Hn Hv. destruct H. split; simpl; try done.
  - by rewrite length_insert.
  - intros i v' n' Hv' Hn'. destruct (decide (i = k)) as [-> | Hne].
    + rewrite list_lookup_insert_eq in Hv'.
      * injection Hv' as <-. rewrite Hn in Hn'. by injection Hn' as <-.
      * rewrite avr_slices0. by apply lookup_lt_Some in Hn.
    + rewrite list_lookup_insert_ne in Hv' by done. eauto.
Qed.

Lemma AvRange_with_flips (s : ArrayView) (k : nat) (f : Z) :
  AvRange s → f = 1 ∨ f = -1 →
  AvRange (av_with_flips (<[k := f]> (av_flips s)) s).
Proof.
  intros H Hf. destruct H. split; simpl; try done.
  - by rewrite length_insert.
  - apply list.Forall_insert; done.
Qed.

Lemma AvRange_with_axes (s : ArrayView) (x y : Z) (z : option Z) :
  AvRange s →
  0 ≤ x < av_ndim s → 0 ≤ y < av_ndim s →
  (∀ a, z = Some a → 0 ≤ a < av_ndim s) →
  AvRange (av_with_axes x y z s).
Proof. intros H Hx Hy Hz. destruct H. split; simpl; done. Qed.

Lemma AvRange_with_d (s : ArrayView) (d : Z) :
  AvRange s → 0 ≤ d < av_ndim s → AvRange (av_with_d d s).
Proof. intros H Hd. destruct H. split; simpl; done. Qed.

Lemma AvRange_with_entry (s : ArrayView) (b : bool) (e : Z) :
  AvRange s → 0 ≤ e → AvRange (av_with_entry b e s).
Proof. intros H He. destruct H. split; simpl; done. Qed.

Lemma AvRange_with_flags (s : ArrayView) (a b : bool) (c : Z) :
  AvRange s → 0 ≤ c < Z.of_nat (length colormaps) →
  AvRange (av_with_flags a b c s).
Proof. intros H Hc. destruct H. split; simpl; done. Qed.

Lemma av_step_spec (delta : Z) (s : ArrayView) :
  AvRange s →
  let k := Z.to_nat (av_d s) in
  (axis_in (av_d s) [Some (av_x s); Some (av_y s); av_z s; av_c s] = false
   ∧ ∃ cur n,
       av_slices s !! k = Some cur ∧ av_shape s !! k = Some n ∧ 0 ≤ cur < n
       ∧ av_step delta s
         = Done (av_with_slices (<[k := (cur + delta) `mod` n]> (av_slices s)) s))
  ∨ (axis_in (av_d s) [Some (av_x s); Some (av_y s); av_z s; av_c s] = true
     ∧ ∃ f,
         av_flips s !! k = Some f ∧ (f = 1 ∨ f = -1)
         ∧ av_step delta s
           = Done (av_with_flips (<[k := f * -1]> (av_flips s)) s)).
Proof.
  intros H k. unfold av_step.
  destruct (axis_in _ _) eqn:Eaxis; [right | left]; (split; [done |]); simpl.
  - destruct (av_get_valid (av_flips s) (av_d s) (AvRange_d_flips s H))
      as (f & Hf & ->).
    exists f. split; [done |]. split.
    + pose proof (avr_flip_values s H) as Hall.
      rewrite list.Forall_forall in Hall. apply Hall.
      by apply list_elem_of_lookup_2 in Hf.
    + simpl. by rewrite av_set_valid by (by apply AvRange_d_flips).
  - destruct (av_get_valid (av_slices s) (av_d s) (AvRange_d_slices s H))
      as (cur & Hcur & ->).
    destruct (av_get_valid (av_shape s) (av_d s) (avr_d s H))
      as (n & Hn & ->).
    pose proof (avr_index s H _ _ _ Hcur Hn) as Hrange.
    exists cur, n. split_and!; try done; try lia. simpl.
    replace (n =? 0) with false by (symmetry; apply Z.eqb_neq; lia).
    by rewrite av_set_valid by (by apply AvRange_d_slices).
Qed.

Lemma av_step_range (delta : Z) (s : ArrayView) :
  AvRange s →
  ∃ s', av_step delta s = Done s' ∧ AvRange s' ∧ av_shape s' = av_shape s.
Proof.
  intros H.
  destruct (av_step_spec delta s H)
    as [(_ & cur & n & Hcur & Hn & Hr & ->) | (_ & f & Hf & Hv & ->)].
  - eexists. split; [done |]. split; [| done].
    apply (AvRange_with_slices s _ _ n); [done | done |].
    apply Z.mod_pos_bound. lia.
  - eexists. split; [done |]. split; [| done].
    apply AvRange_with_flips; [done | lia].
Qed.

Lemma av_move_range (delta : Z) (s : ArrayView) :
  AvRange s →
  av_move delta s = Done (av_with_d ((av_d s + delta) `mod` av_ndim s) s)
  ∧ AvRange (av_with_d ((av_d s + delta) `mod` av_ndim s) s).
Proof.
  intros H. pose proof (avr_ndim s H) as Hn. unfold av_move.
  replace (av_ndim s =? 0) with false by (symmetry; apply Z.eqb_neq; lia).
  split; [done |]. apply AvRange_with_d; [done |].
  apply Z.mod_pos_bound. lia.
Qed.

Lemma av_enter_spec (s : ArrayView) :
  AvRange s →
  ∃ n, av_shape s !! Z.to_nat (av_d s) = Some n
    ∧ av_enter s
      = Done (if av_entered_slice s <? n
              then av_with_slices
                     (<[Z.to_nat (av_d s) := av_entered_slice s]> (av_slices s))
                     (av_with_entry false (av_entered_slice s) s)
              else av_with_entry false (av_entered_slice s) s).
Proof.
  intros H. unfold av_enter. simpl.
  destruct (av_get_valid (av_shape s) (av_d s) (avr_d s H)) as (n & Hn & ->).
  exists n. split; [done |]. simpl.
  destruct (av_entered_slice s <? n); [| done].
  by rewrite av_set_valid by (by apply AvRange_d_slices).
Qed.

Lemma av_enter_range (s : ArrayView) :
  AvRange s →
  ∃ s', av_enter s = Done s' ∧ AvRange s' ∧ av_shape s' = av_shape s.
Proof.
  intros H. destruct (av_enter_spec s H) as (n & Hn & ->).
  pose proof (avr_entered s H) as He.
  assert (H' : AvRange (av_with_entry false (av_entered_slice s) s))
    by (by apply AvRange_with_entry).
  eexists. split; [done |].
  destruct (av_entered_slice s <? n) eqn:E; [| done].
  apply Z.ltb_lt in E. split; [| done].
  apply (AvRange_with_slices _ _ _ n H'); [done | lia].
Qed.

Lemma digit_of_key_range (key : string) (k : Z) :
  digit_of_key key = Some k → 0 ≤ k ≤ 9.
Proof.
  unfold digit_of_key.
  repeat (destruct (String.eqb key _); [intros [= <-]; lia |]). done.
Qed.

Lemma av_digit_range (digit : option Z) (s : ArrayView) :
  AvRange s → (∀ k, digit = Some k → 0 ≤ k) → AvRange (av_digit digit s).
Proof.
  intros H Hk. pose proof (avr_entered s H) as He. unfold av_digit.
  destruct (av_entering_slice s), digit as [k|]; try done.
  - apply AvRange_with_entry; [done |]. specialize (Hk k eq_refl). lia.
  - destruct (av_entered_slice s <? 10); apply AvRange_with_entry; try done.
    apply Z.div_pos; lia.
  - apply AvRange_with_entry; [done |]. by apply Hk.
Qed.


Lemma example_array_view_AvRange : AvRange example_array_view.
Proof.
  split; simpl; try done; try (unfold av_ndim; simpl; lia).
  - repeat (apply Forall_cons_2; [by left |]). apply Forall_nil_2.
  - intros i v n. do 5 (destruct i as [| i]; [intros [= <-] [= <-]; lia |]).
    done.
Qed.



Lemma key_press_range (key : string) (s : ArrayView)
    (r : av_result ArrayView) :
  AvRange s → key_press key s = Some r →
  ∃ s', r = Done s' ∧ AvRange s' ∧ av_shape s' = av_shape s.
Proof.
  intros H. pose proof (avr_x s H) as Hx. pose proof (avr_y s H) as Hy.
  pose proof (avr_z s H) as Hz. pose proof (avr_d s H) as Hd.
  pose proof (avr_colormap s H) as Hc.
  unfold key_press.
  destruct (String.eqb key "c").
  { intros [= <-]. eexists. split; [done |]. split; [| done].
    apply AvRange_with_flags; [done |]. apply Z.mod_pos_bound. simpl. lia. }
  destruct (String.eqb key "up").
  { intros [= <-]. apply av_step_range, H. }
  destruct (String.eqb key "down").
  { intros [= <-]. apply av_step_range, H. }
  destruct (String.eqb key "left").
  { intros [= <-]. destruct (av_move_range (-1) s H) as [-> H'].
    eexists. split; [done |]. by split. }
  destruct (String.eqb key "right").
  { intros [= <-]. destruct (av_move_range 1 s H) as [-> H'].
    eexists. split; [done |]. by split. }
  destruct (String.eqb key "x" && _).
  { destruct (av_d s =? av_y s); intros [= <-];
      (eexists; split; [done |]; split; [| done]);
      by apply AvRange_with_axes. }
  destruct (String.eqb key "y" && _).
  { destruct (av_d s =? av_x s); intros [= <-];
      (eexists; split; [done |]; split; [| done]);
      by apply AvRange_with_axes. }
  destruct (String.eqb key "z" && _).
  { destruct (axis_in (av_d s) [av_z s]); intros [= <-];
      (eexists; split; [done |]; split; [| done]);
      apply AvRange_with_axes; try done.
    by intros a [= <-]. }
  destruct (String.eqb key "t").
  { intros [= <-]. eexists. split; [done |]. split; [| done].
    by apply AvRange_with_axes. }
  destruct (String.eqb key "a").
  { intros [= <-]. eexists. split; [done |]. split; [| done].
    by apply AvRange_with_flags. }
  destruct (String.eqb key "f").
  { intros [= <-]. eauto. }
  destruct (existsb _ _); [done |].
  destruct ((bool_decide _ || _) && _).
  { intros [= <-]. eexists. split; [done |]. split.
    - apply av_digit_range; [done |].
      intros k Hk%digit_of_key_range. lia.
    - unfold av_digit.
      by destruct (av_entering_slice s), (digit_of_key key),
           (av_entered_slice s <? 10). }
  destruct (String.eqb key "enter" && _).
  { intros [= <-]. apply av_enter_range, H. }
  destruct (String.eqb key "h").
  { intros [= <-]. eexists. split; [done |]. split; [| done].
    by apply AvRange_with_flags. }
  intros [= <-]. eauto.
Qed.

(** A key press never takes the navigation fields of the viewer out of
    their ranges, and its assignments never raise: from a state where the
    axes x, y, z and the current axis are in [0, ndim), every slice index is
    within its axis, every flip is 1 or -1, the number typed so far is not
    negative and the colormap index is within the colormap list, each key
    whose branch is embedded gives a state with the same properties and the
    same shape. *)
Theorem key_press_keeps_ranges (key : string) (s : ArrayView)
    (r : av_result ArrayView) :
  AvRange s → key_press key s = Some r →
  ∃ s', r = Done s' ∧ AvRange s' ∧ av_shape s' = av_shape s.
Proof. apply key_press_range. Qed.

Lemma key_press_keeps_ranges_witness :
  ∃ s', av_step 1 example_array_view = Done s' ∧ AvRange s'
    ∧ av_shape s' = av_shape example_array_view.
Proof.
  apply (key_press_keeps_ranges "up" example_array_view
           (av_step 1 example_array_view) example_array_view_AvRange eq_refl).
Defined.









Lemma av_with_slices_id (s : ArrayView) (l : list Z) :
  l = av_slices s → av_with_slices l s = s.
Proof. intros ->. by destruct s. Qed.

Lemma av_with_flips_id (s : ArrayView) (l : list Z) :
  l = av_flips s → av_with_flips l s = s.
Proof. intros ->. by destruct s. Qed.

Lemma av_with_d_id (s : ArrayView) (d : Z) :
  d = av_d s → av_with_d d s = s.
Proof. intros ->. by destruct s. Qed.

Lemma av_step_inverse (delta : Z) (s : ArrayView) :
  AvRange s →
  ∃ s1, av_step delta s = Done s1 ∧ av_step (- delta) s1 = Done s.
Proof.
  intros H. set (k := Z.to_nat (av_d s)).
  assert (Hk : (k < length (av_shape s))%nat).
  { pose proof (avr_d s H) as Hd. unfold av_ndim in Hd. lia. }
  destruct (av_step_spec delta s H)
    as [(Eaxis & cur & n & Hcur & Hn & Hr & Hstep)
       | (Eaxis & f & Hf & Hv & Hstep)];
    fold k in Hcur, Hn, Hstep || fold k in Hf, Hstep;
    rewrite Hstep; eexists; (split; [done |]).
  - set (s1 := av_with_slices _ s).
    assert (H1 : AvRange s1).
    { apply (AvRange_with_slices s _ _ n); [done | done |].
      apply Z.mod_pos_bound. lia. }
    assert (Eaxis1 : axis_in (av_d s1)
                       [Some (av_x s1); Some (av_y s1); av_z s1; av_c s1]
                     = false) by exact Eaxis.
    destruct (av_step_spec (- delta) s1 H1)
      as [(_ & cur' & n' & Hcur' & Hn' & _ & ->) | (Eaxis' & _)];
      [| congruence].
    simpl in Hcur', Hn'. fold k in Hcur', Hn'.
    rewrite list_lookup_insert_eq in Hcur' by (rewrite (avr_slices s H); lia).
    injection Hcur' as <-. rewrite Hn in Hn'. injection Hn' as <-.
    f_equal. simpl. fold k. rewrite list_insert_insert_eq.
    replace (((cur + delta) `mod` n + - delta) `mod` n) with cur.
    + rewrite (list_insert_id _ _ _ Hcur).
      unfold s1. by destruct s.
    + rewrite Zplus_mod_idemp_l.
      replace (cur + delta + - delta) with cur by lia.
      symmetry. apply Z.mod_small. lia.
  - set (s1 := av_with_flips _ s).
    assert (H1 : AvRange s1).
    { apply AvRange_with_flips; [done | lia]. }
    assert (Eaxis1 : axis_in (av_d s1)
                       [Some (av_x s1); Some (av_y s1); av_z s1; av_c s1]
                     = true) by exact Eaxis.
    destruct (av_step_spec (- delta) s1 H1)
      as [(Eaxis' & _) | (_ & f' & Hf' & _ & ->)];
      [congruence |].
    simpl in Hf'. fold k in Hf'.
    rewrite list_lookup_insert_eq in Hf' by (rewrite (avr_flips s H); lia).
    injection Hf' as <-.
    f_equal. simpl. fold k. rewrite list_insert_insert_eq.
    replace (f * -1 * -1) with f by lia.
    rewrite (list_insert_id _ _ _ Hf).
    unfold s1. by destruct s.
Qed.

Lemma av_move_inverse (delta : Z) (s : ArrayView) :
  AvRange s →
  ∃ s1, av_move delta s = Done s1 ∧ av_move (- delta) s1 = Done s.
Proof.
  intros H. destruct (av_move_range delta s H) as [-> H1].
  eexists. split; [done |].
  destruct (av_move_range (- delta) _ H1) as [-> _]. f_equal. simpl.
  pose proof (avr_d s H) as Hd. unfold av_ndim. simpl. fold (av_ndim s).
  replace (((av_d s + delta) `mod` av_ndim s + - delta) `mod` av_ndim s)
    with (av_d s).
  - by destruct s.
  - rewrite Zplus_mod_idemp_l.
    replace (av_d s + delta + - delta) with (av_d s) by lia.
    symmetry. apply Z.mod_small. lia.
Qed.

Lemma key_presses_cons (key : string) (rest : list string)
    (s s1 : ArrayView) :
  key_press key s = Some (Done s1) →
  key_presses (key :: rest) s = key_presses rest s1.
Proof. intros H. simpl. by rewrite H. Qed.

Lemma key_presses_pair (k1 k2 : string) (s s1 s2 : ArrayView) :
  key_press k1 s = Some (Done s1) → key_press k2 s1 = Some (Done s2) →
  key_presses [k1; k2] s = Some (Done s2).
Proof.
  intros H1 H2.
  by rewrite (key_presses_cons _ _ _ _ H1), (key_presses_cons _ _ _ _ H2).
Qed.

(** Opposite arrow keys cancel.  From a state in range, "right" then "left"
    and "left" then "right" give back the current axis, and "up" then "down"
    and "down" then "up" give back the state: on an axis that is not
    displayed the slice index steps by one with wrap-around at both ends and
    comes back, on a displayed axis the flip is negated twice. *)
Theorem arrow_keys_cancel (s : ArrayView) :
  AvRange s →
  key_presses ["right"; "left"] s = Some (Done s)
  ∧ key_presses ["left"; "right"] s = Some (Done s)
  ∧ key_presses ["up"; "down"] s = Some (Done s)
  ∧ key_presses ["down"; "up"] s = Some (Done s).
Proof.
  intros H. split_and!.
  - destruct (av_move_inverse 1 s H) as (s1 & H1 & H2).
    apply (key_presses_pair _ _ _ s1).
    + exact (f_equal Some H1).
    + exact (f_equal Some H2).
  - destruct (av_move_inverse (-1) s H) as (s1 & H1 & H2).
    apply (key_presses_pair _ _ _ s1).
    + exact (f_equal Some H1).
    + exact (f_equal Some H2).
  - destruct (av_step_inverse 1 s H) as (s1 & H1 & H2).
    apply (key_presses_pair _ _ _ s1).
    + exact (f_equal Some H1).
    + exact (f_equal Some H2).
  - destruct (av_step_inverse (-1) s H) as (s1 & H1 & H2).
    apply (key_presses_pair _ _ _ s1).
    + exact (f_equal Some H1).
    + exact (f_equal Some H2).
Qed.

Lemma arrow_keys_cancel_witness :
  key_presses ["right"; "left"] example_array_view
  = Some (Done example_array_view)
  ∧ key_presses ["left"; "right"] example_array_view
    = Some (Done example_array_view)
  ∧ key_presses ["up"; "down"] example_array_view
    = Some (Done example_array_view)
  ∧ key_presses ["down"; "up"] example_array_view
    = Some (Done example_array_view).
Proof.
  apply (arrow_keys_cancel example_array_view example_array_view_AvRange).
Defined.

Lemma key_press_digit (k : Z) (s : ArrayView) :
  0 ≤ k ≤ 9 →
  axis_in (av_d s) [Some (av_x s); Some (av_y s); av_z s; av_c s] = false →
  key_press (key_of_digit k) s = Some (Done (av_digit (Some k) s)).
Proof.
  intros Hk Haxis.
  assert (k = 0 ∨ k = 1 ∨ k = 2 ∨ k = 3 ∨ k = 4 ∨ k = 5 ∨ k = 6 ∨ k = 7
          ∨ k = 8 ∨ k = 9) as Hcases by lia.
  unfold key_press.
  destruct Hcases as [-> | [-> | [-> | [-> | [-> | [-> | [-> | [-> | [-> | ->]]]]]]]]];
    rewrite Haxis; reflexivity.
Qed.

Lemma key_press_enter (s : ArrayView) :
  av_entering_slice s = true → key_press "enter" s = Some (av_enter s).
Proof. intros H. unfold key_press. rewrite H. reflexivity. Qed.

Lemma typed_number_nonneg (acc : Z) (ks : list Z) :
  0 ≤ acc → Forall (λ k, 0 ≤ k ≤ 9) ks → 0 ≤ typed_number acc ks.
Proof.
  intros Hacc Hks. revert acc Hacc.
  induction Hks as [| k ks Hk _ IH]; intros acc Hacc; simpl; [done |].
  apply IH. lia.
Qed.

Lemma key_presses_digits (ks : list Z) (rest : list string) (s : ArrayView) :
  Forall (λ k, 0 ≤ k ≤ 9) ks →
  axis_in (av_d s) [Some (av_x s); Some (av_y s); av_z s; av_c s] = false →
  av_entering_slice s = true →
  key_presses (map key_of_digit ks ++ rest) s
  = key_presses rest
      (av_with_entry true (typed_number (av_entered_slice s) ks) s).
Proof.
  intros Hks. revert s.
  induction Hks as [| k ks Hk _ IH]; intros s Haxis Hentering.
  - simpl. f_equal. destruct s; simpl in *. by subst.
  - cbn [map app].
    rewrite (key_presses_cons _ _ _ _ (key_press_digit k s Hk Haxis)).
    unfold av_digit. rewrite Hentering.
    rewrite IH by done. reflexivity.
Qed.

(** Typing a slice number.  With the current axis not displayed and no
    entry in progress, typing one or more digits and then "enter" ends the
    entry and moves the current axis to the slice with the typed decimal
    number when that number is below the length of the axis; a number that
    is too large leaves every slice index as it was.  Nothing else
    changes. *)
Theorem typed_slice_number (s : ArrayView) (k0 : Z) (ks : list Z) :
  AvRange s →
  axis_in (av_d s) [Some (av_x s); Some (av_y s); av_z s; av_c s] = false →
  av_entering_slice s = false →
  Forall (λ k, 0 ≤ k ≤ 9) (k0 :: ks) →
  let typed := typed_number 0 (k0 :: ks) in
  ∃ n,
    av_shape s !! Z.to_nat (av_d s) = Some n
    ∧ key_presses (map key_of_digit (k0 :: ks) ++ ["enter"]) s
      = Some (Done
                (if typed <? n
                 then av_with_slices
                        (<[Z.to_nat (av_d s) := typed]> (av_slices s))
                        (av_with_entry false typed s)
                 else av_with_entry false typed s)).
Proof.
  intros H Haxis Hentering Hks typed.
  apply Forall_cons_1 in Hks as [Hk0 Hks].
  assert (Htyped : 0 ≤ typed).
  { apply typed_number_nonneg; [done | by apply Forall_cons_2]. }
  set (s1 := av_with_entry true typed s).
  assert (H1 : AvRange s1) by (by apply AvRange_with_entry).
  destruct (av_enter_spec s1 H1) as (n & Hn & Henter).
  exists n. split; [exact Hn |].
  cbn [map app].
  rewrite (key_presses_cons _ _ _ _ (key_press_digit k0 s Hk0 Haxis)).
  unfold av_digit. rewrite Hentering.
  rewrite key_presses_digits by done.
  change (av_with_entry true
            (typed_number (av_entered_slice (av_with_entry true k0 s)) ks)
            (av_with_entry true k0 s)) with s1.
  rewrite (key_presses_cons _ _ s1
             (if typed <? n
              then av_with_slices
                     (<[Z.to_nat (av_d s) := typed]> (av_slices s))
                     (av_with_entry false typed s)
              else av_with_entry false typed s)); [done |].
  rewrite key_press_enter by done. f_equal. exact Henter.
Qed.

Lemma typed_slice_number_witness :
  ∃ n,
    av_shape example_array_view !! Z.to_nat (av_d example_array_view) = Some n
    ∧ key_presses (map key_of_digit [0; 5] ++ ["enter"]) example_array_view
      = Some (Done
                (if typed_number 0 [0; 5] <? n
                 then av_with_slices
                        (<[Z.to_nat (av_d example_array_view)
                           := typed_number 0 [0; 5]]>
                           (av_slices example_array_view))
                        (av_with_entry false (typed_number 0 [0; 5])
                           example_array_view)
                 else av_with_entry false (typed_number 0 [0; 5])
                        example_array_view)).
Proof.
  apply (typed_slice_number example_array_view 0 [5]
           example_array_view_AvRange eq_refl eq_refl).
  repeat (apply Forall_cons_2; [lia |]). apply Forall_nil_2.
Defined.
